(** * Provably-fair bet settlement core of mu-gamble

    A shallow embedding of

    - the server module [$lib/server/provably-fair]: outcome derivation,
      win predicates, multiplier and bet validation;
    - the client-side game utilities: the displayed multiplier;
    - [src/routes/api/game/dice/+server.ts] and
      [src/routes/api/game/flip/+server.ts]: the two settlement handlers;
    - the bet verification endpoint ([GET], by bet id);
    - the [user], [bet] and [user_game_session] tables of
      [src/lib/server/db/schema.ts].

    JavaScript numbers that carry money, targets and outcomes are finite
    here and are modelled as exact rationals ([Q]); the only place where
    the code can produce [NaN] is [parseInt], which is modelled with
    [option].  Strings are byte strings (the UTF-8 encoding that
    [hmac.update] and [hash.update] apply to their argument).  Tables are
    lists of rows in insertion order. *)

From Stdlib Require Import ZArith QArith Qround Qabs List String Ascii Bool Lia Lqa.
From Stdlib Require Finite.
Import ListNotations.

Local Open Scope Z_scope.

(** ** Node's [crypto]: SHA-256 and HMAC-SHA256 (FIPS 180-4, RFC 2104)

    Words are 32-bit integers in [Z]; every addition is reduced modulo
    2^32. *)

Module SHA256.

Local Open Scope list_scope.

Definition mask32 : Z := 0xffffffff.

Definition add32 (x y : Z) : Z := (x + y) mod 2 ^ 32.

Definition rotr (n x : Z) : Z :=
  Z.lor (Z.shiftr x n) (Z.land (Z.shiftl x (32 - n)) mask32).

Definition not32 (x : Z) : Z := Z.lxor x mask32.

Definition Ch (x y z : Z) : Z := Z.lxor (Z.land x y) (Z.land (not32 x) z).

Definition Maj (x y z : Z) : Z :=
  Z.lxor (Z.lxor (Z.land x y) (Z.land x z)) (Z.land y z).

Definition Sigma0 (x : Z) : Z := Z.lxor (Z.lxor (rotr 2 x) (rotr 13 x)) (rotr 22 x).
Definition Sigma1 (x : Z) : Z := Z.lxor (Z.lxor (rotr 6 x) (rotr 11 x)) (rotr 25 x).
Definition sigma0 (x : Z) : Z := Z.lxor (Z.lxor (rotr 7 x) (rotr 18 x)) (Z.shiftr x 3).
Definition sigma1 (x : Z) : Z := Z.lxor (Z.lxor (rotr 17 x) (rotr 19 x)) (Z.shiftr x 10).

(** The constants of FIPS 180-4 are fractional parts of roots of the first
    primes, 32 bits each: cube roots of the first 64 primes for the round
    constants, square roots of the first 8 for the initial hash value. *)
Definition is_prime (n : Z) : bool :=
  forallb (fun d => negb (n mod d =? 0)) (map Z.of_nat (seq 2 (Z.to_nat n - 2))).

Definition primes64 : list Z :=
  Eval vm_compute in filter is_prime (map Z.of_nat (seq 2 310)).

(** Integer cube root, one bit at a time from the top. *)
Fixpoint cbrt_bits (bits : nat) (n r : Z) : Z :=
  match bits with
  | O => r
  | S bits' =>
      let r' := r + 2 ^ Z.of_nat bits' in
      if r' * r' * r' <=? n then cbrt_bits bits' n r' else cbrt_bits bits' n r
  end.

Definition K : list Z :=
  Eval vm_compute in map (fun p => cbrt_bits 40 (p * 2 ^ 96) 0 mod 2 ^ 32) primes64.

(** The eight working variables / the chaining value. *)
Record state : Set := mkState {
  ha : Z; hb : Z; hc : Z; hd : Z; he : Z; hf : Z; hg : Z; hh : Z
}.

Definition H0 : state :=
  Eval vm_compute in
    match map (fun p => Z.sqrt (p * 2 ^ 64) mod 2 ^ 32) (firstn 8 primes64) with
    | [a; b; c; d; e; f; g; h] => mkState a b c d e f g h
    | _ => mkState 0 0 0 0 0 0 0 0
    end.

(** Big-endian bytes of a non-negative integer, [n] bytes wide. *)
Fixpoint be_bytes (n : nat) (x : Z) : list Z :=
  match n with
  | O => []
  | S n' => be_bytes n' (Z.shiftr x 8) ++ [Z.land x 255]
  end.

(** Padding: a [0x80] byte, zeros up to 56 modulo 64, then the bit length
    on 8 bytes. *)
Definition pad (msg : list Z) : list Z :=
  let len := Z.of_nat (List.length msg) in
  msg ++ [0x80] ++ repeat 0 (Z.to_nat ((55 - len) mod 64)) ++ be_bytes 8 (8 * len).

Fixpoint words (bs : list Z) : list Z :=
  match bs with
  | b0 :: b1 :: b2 :: b3 :: rest =>
      Z.lor (Z.lor (Z.shiftl b0 24) (Z.shiftl b1 16)) (Z.lor (Z.shiftl b2 8) b3)
      :: words rest
  | _ => []
  end.

Fixpoint blocks (fuel : nat) (bs : list Z) : list (list Z) :=
  match fuel, bs with
  | S fuel', _ :: _ => firstn 64 bs :: blocks fuel' (skipn 64 bs)
  | _, _ => []
  end.

(** Message schedule, kept most recent word first while it is extended. *)
Fixpoint extend (n : nat) (ws : list Z) : list Z :=
  match n with
  | O => ws
  | S n' =>
      let w := add32 (add32 (add32 (sigma1 (nth 1 ws 0)) (nth 6 ws 0))
                            (sigma0 (nth 14 ws 0))) (nth 15 ws 0) in
      extend n' (w :: ws)
  end.

Definition schedule (block : list Z) : list Z :=
  rev (extend 48 (rev (words block))).

Definition round (s : state) (kw : Z * Z) : state :=
  let (k, w) := kw in
  let t1 := add32 (add32 (add32 (add32 (hh s) (Sigma1 (he s)))
                                (Ch (he s) (hf s) (hg s))) k) w in
  let t2 := add32 (Sigma0 (ha s)) (Maj (ha s) (hb s) (hc s)) in
  mkState (add32 t1 t2) (ha s) (hb s) (hc s) (add32 (hd s) t1) (he s) (hf s) (hg s).

Definition compress (h : state) (block : list Z) : state :=
  let s := fold_left round (combine K (schedule block)) h in
  mkState (add32 (ha h) (ha s)) (add32 (hb h) (hb s))
          (add32 (hc h) (hc s)) (add32 (hd h) (hd s))
          (add32 (he h) (he s)) (add32 (hf h) (hf s))
          (add32 (hg h) (hg s)) (add32 (hh h) (hh s)).

Definition hash (msg : list Z) : state :=
  let p := pad msg in
  fold_left compress (blocks (List.length p) p) H0.

Definition digest_bytes (s : state) : list Z :=
  be_bytes 4 (ha s) ++ be_bytes 4 (hb s) ++ be_bytes 4 (hc s) ++ be_bytes 4 (hd s) ++
  be_bytes 4 (he s) ++ be_bytes 4 (hf s) ++ be_bytes 4 (hg s) ++ be_bytes 4 (hh s).

(** [digest('hex')]: lower-case hexadecimal, eight digits per word. *)
Definition hexdigit (d : Z) : ascii :=
  nth (Z.to_nat d) (list_ascii_of_string "0123456789abcdef") "0"%char.

(** The [n] low hexadecimal digits of [w], most significant first, in front
    of [rest]. *)
Fixpoint hex_digits (n : nat) (w : Z) (rest : string) : string :=
  match n with
  | O => rest
  | S n' => hex_digits n' (w / 16) (String (hexdigit (w mod 16)) rest)
  end.

Definition hex8 (w : Z) (rest : string) : string := hex_digits 8 w rest.

Definition digest_hex (s : state) : string :=
  hex8 (ha s) (hex8 (hb s) (hex8 (hc s) (hex8 (hd s)
  (hex8 (he s) (hex8 (hf s) (hex8 (hg s) (hex8 (hh s) EmptyString))))))).

Definition bytes_of_string (s : string) : list Z :=
  map (fun c => Z.of_N (N_of_ascii c)) (list_ascii_of_string s).

(** [createHash('sha256').update(s).digest('hex')] *)
Definition sha256_hex (s : string) : string :=
  digest_hex (hash (bytes_of_string s)).

(** [createHmac('sha256', key)]: a key longer than one block is hashed
    first, then it is padded with zeros to the block size. *)
Definition hmac_key (key : list Z) : list Z :=
  let k := if (64 <? Z.of_nat (List.length key)) then digest_bytes (hash key) else key in
  k ++ repeat 0 (64 - List.length k)%nat.

Definition hmac (key msg : list Z) : state :=
  let k := hmac_key key in
  let inner := hash (map (Z.lxor 0x36) k ++ msg) in
  hash (map (Z.lxor 0x5c) k ++ digest_bytes inner).

(** [createHmac('sha256', key).update(msg).digest('hex')] *)
Definition hmac_sha256_hex (key msg : string) : string :=
  digest_hex (hmac (bytes_of_string key) (bytes_of_string msg)).

End SHA256.


(** ** JavaScript numbers and strings *)

Local Open Scope Q_scope.

Definition Qltb (a b : Q) : bool := negb (Qle_bool b a).

(** [Math.max], [Math.min], [Math.round] (half-way cases go up) and
    [Math.abs]. *)
Definition Math_max (a b : Q) : Q := if Qle_bool a b then b else a.
Definition Math_min (a b : Q) : Q := if Qle_bool a b then a else b.
Definition Math_round (x : Q) : Q := inject_Z (Qfloor (x + (1 # 2))).
Definition Math_abs (x : Q) : Q := Qabs x.

(** Value of one hexadecimal digit, either case. *)
Definition hexval (c : ascii) : option Z :=
  let n := Z.of_N (N_of_ascii c) in
  if ((48 <=? n) && (n <=? 57))%Z then Some (n - 48)%Z
  else if ((97 <=? n) && (n <=? 102))%Z then Some (n - 87)%Z
  else if ((65 <=? n) && (n <=? 70))%Z then Some (n - 55)%Z
  else None.

Fixpoint parse_hex_digits (acc : Z) (s : string) : Z :=
  match s with
  | EmptyString => acc
  | String c rest =>
      match hexval c with
      | Some d => parse_hex_digits (acc * 16 + d)%Z rest
      | None => acc
      end
  end.

(** [parseInt(s, 16)] on a string that starts with neither white space, a
    sign nor [0x]: the longest prefix of hexadecimal digits is read, and
    the result is [NaN] ([None]) when that prefix is empty. *)
Definition parseInt16 (s : string) : option Z :=
  match s with
  | EmptyString => None
  | String c _ =>
      match hexval c with
      | Some _ => Some (parse_hex_digits 0 s)
      | None => None
      end
  end.

(** Decimal digits of an integer, as a template literal prints it (the
    plain notation JavaScript uses below 1e21); an integer has at most as
    many decimal digits as binary ones, which bounds the recursion. *)
Definition decimal_digit (d : Z) : ascii := ascii_of_N (Z.to_N (48 + d)).

Fixpoint decimal_digits (fuel : nat) (n : Z) (acc : string) : string :=
  match fuel with
  | O => acc
  | S fuel' =>
      let acc' := String (decimal_digit (n mod 10)) acc in
      if (n <? 10)%Z then acc' else decimal_digits fuel' (n / 10)%Z acc'
  end.

Definition string_of_int (n : Z) : string :=
  if (n <? 0)%Z
  then String "-"%char (decimal_digits (S (Z.to_nat (Z.log2 (- n)))) (- n)%Z EmptyString)
  else decimal_digits (S (Z.to_nat (Z.log2 n))) n EmptyString.

(** [bytes.toString('hex')] *)
Fixpoint hex_of_bytes (bs : list Z) : string :=
  match bs with
  | [] => EmptyString
  | b :: rest =>
      SHA256.hex_digits 2 b (hex_of_bytes rest)
  end.

(** ** The server's provably-fair module *)

Module ProvablyFair.

Inductive BetType : Set := over | under.
Inductive Side : Set := cat | dog.

Definition Side_eqb (a b : Side) : bool :=
  match a, b with cat, cat | dog, dog => true | _, _ => false end.

(** [generateServerSeed], on the 32 random bytes it draws. *)
Definition generateServerSeed (random32 : list Z) : string * string :=
  let seed := hex_of_bytes random32 in
  let hash := SHA256.sha256_hex seed in
  (seed, hash).

(** [generateClientSeed], on the 16 random bytes it draws. *)
Definition generateClientSeed (random16 : list Z) : string :=
  hex_of_bytes random16.

Definition verifyServerSeed (serverSeed serverSeedHash : string) : bool :=
  let hash := SHA256.sha256_hex serverSeed in
  String.eqb hash serverSeedHash.

(** [generateGameResult]; [None] is [NaN]. *)
Definition generateGameResult (serverSeed clientSeed : string) (nonce : Z) : option Q :=
  let hash :=
    SHA256.hmac_sha256_hex serverSeed
      (clientSeed ++ "-" ++ string_of_int nonce)%string in
  match parseInt16 (substring 0 8 hash) with
  | Some decimalValue => Some (inject_Z (Z.rem decimalValue 10000) / 100)
  | None => None
  end.

(** [verifyGameResult]: a comparison with [NaN] is false. *)
Definition verifyGameResult
    (serverSeed clientSeed : string) (nonce : Z) (expectedResult : Q) : bool :=
  match generateGameResult serverSeed clientSeed nonce with
  | Some calculatedResult =>
      Qltb (Math_abs (calculatedResult - expectedResult)) (1 # 100)
  | None => false
  end.

Definition generateDiceRoll (serverSeed clientSeed : string) (nonce : Z) : option Q :=
  generateGameResult serverSeed clientSeed nonce.

(** [generateCoinFlip] (0 = cat, 1 = dog); [NaN < 50] is false. *)
Definition generateCoinFlip (serverSeed clientSeed : string) (nonce : Z) : Z :=
  match generateGameResult serverSeed clientSeed nonce with
  | Some result => if Qltb result 50 then 0%Z else 1%Z
  | None => 1%Z
  end.

Definition isDiceWin (roll : Q) (betType : BetType) (target : Q) : bool :=
  match betType with
  | over => Qltb target roll
  | under => Qltb roll target
  end.

Definition isCoinFlipWin (result : Z) (betSide : Side) : bool :=
  let betValue := match betSide with cat => 0%Z | dog => 1%Z end in
  Z.eqb result betValue.

Definition calculateDiceWinChance (betType : BetType) (target : Q) : Q :=
  match betType with
  | over => Math_max 0 (Math_min 100 (100 - target))
  | under => Math_max 0 (Math_min 100 target)
  end.

(** [calculateMultiplier(winChance, houseEdge = 1)]; an omitted second
    argument is [None]. *)
Definition calculateMultiplier (winChance : Q) (houseEdge : option Q) : Q :=
  let houseEdge := match houseEdge with Some e => e | None => 1 end in
  if Qle_bool winChance 0 then 1 else (100 - houseEdge) / winChance.

(** JavaScript's [/] on finite numbers: the quotient is finite unless the
    divisor is zero, where it is [Infinity] or [NaN] ([None]). *)
Definition js_div (a b : Q) : option Q :=
  if Qeq_bool b 0 then None else Some (a / b).

(** [calculateMultiplier] again, with its division evaluated by [js_div]. *)
Definition calculateMultiplierChecked (winChance : Q) (houseEdge : option Q) : option Q :=
  let houseEdge := match houseEdge with Some e => e | None => 1 end in
  if Qle_bool winChance 0 then Some 1 else js_div (100 - houseEdge) winChance.

Record Validation : Set := { valid : bool; error : option string }.

Definition validateDiceBet (amount : Q) (betType : BetType) (target balance : Q)
  : Validation :=
  if Qle_bool amount 0 then
    {| valid := false; error := Some "Bet amount must be positive"%string |}
  else if Qltb balance amount then
    {| valid := false; error := Some "Insufficient balance"%string |}
  else if Qltb target (1 # 100) || Qltb (9999 # 100) target then
    {| valid := false; error := Some "Target must be between 0.01 and 99.99"%string |}
  else
    let winChance := calculateDiceWinChance betType target in
    if Qltb winChance 1 || Qltb 98 winChance then
      {| valid := false; error := Some "Win chance must be between 1% and 98%"%string |}
    else {| valid := true; error := None |}.

Definition validateCoinFlipBet (amount : Q) (side : Side) (balance : Q) : Validation :=
  if Qle_bool amount 0 then
    {| valid := false; error := Some "Bet amount must be positive"%string |}
  else if Qltb balance amount then
    {| valid := false; error := Some "Insufficient balance"%string |}
  else if negb (Side_eqb side cat) && negb (Side_eqb side dog) then
    {| valid := false; error := Some "Invalid side selection"%string |}
  else {| valid := true; error := None |}.

End ProvablyFair.

(** ** The client's game utilities *)

Module ClientGame.

Definition calculateMultiplier (winChance : Q) : Q :=
  if Qltb 0 winChance then Math_round ((99 / winChance) * 10000) / 10000 else 1.

Definition validateInput (value min max : Q) : Q :=
  Math_max min (Math_min max value).

Definition calculateDiceWinChance (betType : ProvablyFair.BetType) (rollTarget : Q) : Q :=
  match betType with
  | ProvablyFair.over => Math_round ((100 - rollTarget) * 100) / 100
  | ProvablyFair.under => Math_round (rollTarget * 100) / 100
  end.

Definition calculateProfit (betAmount multiplier : Q) : Q :=
  betAmount * (multiplier - 1).

(** [array.slice(0, end)] for an integer [end]: a negative [end] counts
    from the end of the array. *)
Definition slice0 {A : Type} (l : list A) (finish : Z) : list A :=
  if (finish <? 0)%Z
  then firstn (Z.to_nat (Z.of_nat (List.length l) + finish)) l
  else firstn (Z.to_nat finish) l.

(** [addToHistory(histories, newHistory, maxEntries = 20)]; an omitted
    third argument is [None]. *)
Definition addToHistory {A : Type} (histories : list A) (newHistory : A)
    (maxEntries : option Z) : list A :=
  let maxEntries := match maxEntries with Some m => m | None => 20%Z end in
  slice0 (newHistory :: histories) maxEntries.

Definition checkDiceWin (diceRoll : Q) (betType : ProvablyFair.BetType) (rollTarget : Q)
  : bool :=
  match betType with
  | ProvablyFair.over => Qltb rollTarget diceRoll
  | ProvablyFair.under => Qltb diceRoll rollTarget
  end.

Definition checkCoinFlipWin (result betSide : ProvablyFair.Side) : bool :=
  ProvablyFair.Side_eqb result betSide.

End ClientGame.

(** ** The database ([src/lib/server/db/schema.ts])

    Password hashes, admin flags and timestamps play no part in settlement
    and are left out of the rows.  Foreign keys are enforced in production
    only and are not modelled. *)

Module table.

Inductive GameType : Set := dice | flip.

(** The [game_data] JSON column. *)
Inductive GameData : Set :=
| diceData (betType : ProvablyFair.BetType) (target winChance : Q)
| flipData (side : ProvablyFair.Side) (winChance : Q).

Module user.
Record row : Set := { id : string; username : string; balance : Q }.
End user.

Module bet.
Record row : Set := {
  id : string;
  userId : string;
  gameType : GameType;
  amount : Q;
  multiplier : Q;
  win : bool;
  payout : Q;
  serverSeed : string;
  serverSeedHash : string;
  clientSeed : string;
  nonce : Z;
  gameData : GameData;
  result : Q
}.
End bet.

Module userGameSession.
Record row : Set := { userId : string; currentNonce : Z }.
End userGameSession.

End table.

Record Database : Set := {
  users : list table.user.row;
  bets : list table.bet.row;
  userGameSessions : list table.userGameSession.row
}.

(** *** Statements inside a transaction

    A statement either throws (the message of the [Error]) or returns a
    value and the next state of the database. *)

Definition Tx (A : Type) : Type := Database -> string + (A * Database).

Definition ret {A : Type} (a : A) : Tx A := fun db => inr (a, db).

Definition bind {A B : Type} (m : Tx A) (k : A -> Tx B) : Tx B :=
  fun db =>
    match m db with
    | inl e => inl e
    | inr (a, db') => k a db'
    end.

Definition throw {A : Type} (message : string) : Tx A := fun _ => inl message.

Notation "x <- m ;; k" := (bind m (fun x => k))
  (at level 61, m at next level, right associativity).
Notation "m ;;; k" := (bind m (fun _ => k))
  (at level 61, right associativity).

(** [db.transaction(body)]: commit when the body returns, roll back to the
    state before it when the body throws; the error is thrown again. *)
Definition transaction {A : Type} (body : Tx A) (db : Database)
  : (string + A) * Database :=
  match body db with
  | inl e => (inl e, db)
  | inr (a, db') => (inr a, db')
  end.

Definition select_userGameSession (uid : string) : Tx (list table.userGameSession.row) :=
  fun db =>
    inr (filter (fun r => String.eqb (table.userGameSession.userId r) uid)
                (userGameSessions db), db).

Definition select_user (uid : string) : Tx (list table.user.row) :=
  fun db => inr (filter (fun r => String.eqb (table.user.id r) uid) (users db), db).

(** [user_id] is the primary key of [user_game_session]. *)
Definition insert_userGameSession (r : table.userGameSession.row) : Tx unit :=
  fun db =>
    if existsb (fun r' => String.eqb (table.userGameSession.userId r')
                                     (table.userGameSession.userId r))
               (userGameSessions db)
    then inl "UNIQUE constraint failed: user_game_session.user_id"%string
    else inr (tt, {| users := users db;
                     bets := bets db;
                     userGameSessions := userGameSessions db ++ [r] |}).

(** [id] is the primary key of [bet]. *)
Definition insert_bet (r : table.bet.row) : Tx unit :=
  fun db =>
    if existsb (fun r' => String.eqb (table.bet.id r') (table.bet.id r)) (bets db)
    then inl "UNIQUE constraint failed: bet.id"%string
    else inr (tt, {| users := users db;
                     bets := bets db ++ [r];
                     userGameSessions := userGameSessions db |}).

(** [UPDATE user SET balance = balance + balanceChange WHERE id = uid] *)
Definition add_balance (uid : string) (balanceChange : Q) (r : table.user.row)
  : table.user.row :=
  if String.eqb (table.user.id r) uid
  then {| table.user.id := table.user.id r;
          table.user.username := table.user.username r;
          table.user.balance := table.user.balance r + balanceChange |}
  else r.

Definition update_user_balance (uid : string) (balanceChange : Q) : Tx unit :=
  fun db =>
    inr (tt, {| users := map (add_balance uid balanceChange) (users db);
                bets := bets db;
                userGameSessions := userGameSessions db |}).

(** [UPDATE user_game_session SET current_nonce = nonce WHERE user_id = uid] *)
Definition set_nonce (uid : string) (nonce : Z) (r : table.userGameSession.row)
  : table.userGameSession.row :=
  if String.eqb (table.userGameSession.userId r) uid
  then {| table.userGameSession.userId := table.userGameSession.userId r;
          table.userGameSession.currentNonce := nonce |}
  else r.

Definition update_userGameSession_nonce (uid : string) (nonce : Z) : Tx unit :=
  fun db =>
    inr (tt, {| users := users db;
                bets := bets db;
                userGameSessions := map (set_nonce uid nonce) (userGameSessions db) |}).

(** ** Requests and responses *)

(** What a handler sees of one request: the outcome of authentication, the
    parsed body, and the random values drawn while the request is served.
    The [user] returned by [auth.validateSessionToken] is a snapshot read
    before the transaction starts. *)
Record RequestEvent (Body : Set) : Set := {
  sessionToken : option string;
  validatedUser : option table.user.row;
  body : option Body;
  random32 : list Z;
  random16 : list Z;
  randomUUID : string
}.
Arguments sessionToken {Body}.
Arguments validatedUser {Body}.
Arguments body {Body}.
Arguments random32 {Body}.
Arguments random16 {Body}.
Arguments randomUUID {Body}.

Inductive Response (R : Set) : Set :=
| json_success (result : R)
| json_failure (error : option string) (status : Z).
Arguments json_success {R}.
Arguments json_failure {R}.

(** [clientSeed || generateClientSeed()]: a missing or empty client seed is
    replaced. *)
Definition finalClientSeed_of (clientSeed : option string) (random16 : list Z) : string :=
  match clientSeed with
  | Some (String c s) => String c s
  | _ => ProvablyFair.generateClientSeed random16
  end.

(** The [catch] clause shared by both settlement handlers. *)
Definition translate_error {R : Set} (message : string) : Response R :=
  if String.eqb message "Insufficient balance"
  then json_failure (Some "Insufficient balance"%string) 400
  else json_failure (Some "Internal server error"%string) 500.

(** ** [POST /api/game/dice] *)

Module Dice.

Import ProvablyFair.

Record DiceBetRequest : Set := {
  amount : Q;
  betType : BetType;
  target : Q;
  clientSeed : option string
}.

Record DiceBetResult : Set := {
  betId : string;
  roll : Q;
  win : bool;
  payout : Q;
  newBalance : Q;
  serverSeedHash : string;
  resultClientSeed : string;
  nonce : Z
}.

(** The callback given to [db.transaction].  A [NaN] roll cannot be stored
    in the [result] column, which is [NOT NULL]. *)
Definition settle (userId : string) (betRequest : DiceBetRequest)
    (serverSeed serverSeedHash finalClientSeed uuid : string) : Tx DiceBetResult :=
  let amount := amount betRequest in
  let betType := betType betRequest in
  let target := target betRequest in
  userSessionResult <- select_userGameSession userId ;;
  currentNonce <-
    match userSessionResult with
    | [] =>
        insert_userGameSession
          {| table.userGameSession.userId := userId;
             table.userGameSession.currentNonce := 0 |} ;;;
        ret 0%Z
    | r :: _ => ret (table.userGameSession.currentNonce r)
    end ;;
  let nonce := (currentNonce + 1)%Z in
  currentUser <- select_user userId ;;
  match currentUser with
  | [] => throw "Insufficient balance"
  | u :: _ =>
      if Qltb (table.user.balance u) amount then throw "Insufficient balance"
      else ret tt
  end ;;;
  match generateDiceRoll serverSeed finalClientSeed nonce with
  | None => throw "NOT NULL constraint failed: bet.result"
  | Some roll =>
      let win := isDiceWin roll betType target in
      let winChance := calculateDiceWinChance betType target in
      let multiplier := calculateMultiplier winChance None in
      let payout := if win then amount * multiplier else 0 in
      let balanceChange := payout - amount in
      let betId := uuid in
      insert_bet
        {| table.bet.id := betId;
           table.bet.userId := userId;
           table.bet.gameType := table.dice;
           table.bet.amount := amount;
           table.bet.multiplier := multiplier;
           table.bet.win := win;
           table.bet.payout := payout;
           table.bet.serverSeed := serverSeed;
           table.bet.serverSeedHash := serverSeedHash;
           table.bet.clientSeed := finalClientSeed;
           table.bet.nonce := nonce;
           table.bet.gameData := table.diceData betType target winChance;
           table.bet.result := roll |} ;;;
      update_user_balance userId balanceChange ;;;
      update_userGameSession_nonce userId nonce ;;;
      updatedUser <- select_user userId ;;
      match updatedUser with
      | [] => throw "Cannot read properties of undefined (reading 'balance')"
      | u :: _ =>
          ret {| betId := betId;
                 roll := Math_round (roll * 100) / 100;
                 win := win;
                 payout := Math_round (payout * 100) / 100;
                 newBalance := Math_round (table.user.balance u * 100) / 100;
                 serverSeedHash := serverSeedHash;
                 resultClientSeed := finalClientSeed;
                 nonce := nonce |}
      end
  end.

Definition POST (event : RequestEvent DiceBetRequest) (db : Database)
  : Response DiceBetResult * Database :=
  match sessionToken event with
  | None | Some EmptyString =>
      (json_failure (Some "Authentication required"%string) 401, db)
  | Some _ =>
      match validatedUser event with
      | None => (json_failure (Some "Invalid session"%string) 401, db)
      | Some user =>
          match body event with
          | None => (json_failure (Some "Invalid request body"%string) 400, db)
          | Some betRequest =>
              let validation :=
                validateDiceBet (amount betRequest) (betType betRequest)
                                (target betRequest) (table.user.balance user) in
              if negb (valid validation)
              then (json_failure (error validation) 400, db)
              else
                let '(serverSeed, serverSeedHash) :=
                  generateServerSeed (random32 event) in
                let finalClientSeed :=
                  finalClientSeed_of (clientSeed betRequest) (random16 event) in
                match transaction
                        (settle (table.user.id user) betRequest serverSeed
                                serverSeedHash finalClientSeed (randomUUID event)) db
                with
                | (inr result, db') => (json_success result, db')
                | (inl message, db') => (translate_error message, db')
                end
          end
      end
  end.

End Dice.

(** ** [POST /api/game/flip] *)

Module Flip.

Import ProvablyFair.

Record CoinFlipBetRequest : Set := {
  amount : Q;
  side : Side;
  clientSeed : option string
}.

Record CoinFlipBetResult : Set := {
  betId : string;
  flipResult : Side;
  win : bool;
  payout : Q;
  newBalance : Q;
  serverSeedHash : string;
  resultClientSeed : string;
  nonce : Z
}.

Definition settle (userId : string) (betRequest : CoinFlipBetRequest)
    (serverSeed serverSeedHash finalClientSeed uuid : string) : Tx CoinFlipBetResult :=
  let amount := amount betRequest in
  let side := side betRequest in
  userSessionResult <- select_userGameSession userId ;;
  currentNonce <-
    match userSessionResult with
    | [] =>
        insert_userGameSession
          {| table.userGameSession.userId := userId;
             table.userGameSession.currentNonce := 0 |} ;;;
        ret 0%Z
    | r :: _ => ret (table.userGameSession.currentNonce r)
    end ;;
  let nonce := (currentNonce + 1)%Z in
  currentUser <- select_user userId ;;
  match currentUser with
  | [] => throw "Insufficient balance"
  | u :: _ =>
      if Qltb (table.user.balance u) amount then throw "Insufficient balance"
      else ret tt
  end ;;;
  let flipResultValue := generateCoinFlip serverSeed finalClientSeed nonce in
  let flipResult := if Z.eqb flipResultValue 0 then cat else dog in
  let win := isCoinFlipWin flipResultValue side in
  let winChance := 495 # 10 in
  let multiplier := calculateMultiplier winChance None in
  let payout := if win then amount * multiplier else 0 in
  let balanceChange := payout - amount in
  let betId := uuid in
  insert_bet
    {| table.bet.id := betId;
       table.bet.userId := userId;
       table.bet.gameType := table.flip;
       table.bet.amount := amount;
       table.bet.multiplier := multiplier;
       table.bet.win := win;
       table.bet.payout := payout;
       table.bet.serverSeed := serverSeed;
       table.bet.serverSeedHash := serverSeedHash;
       table.bet.clientSeed := finalClientSeed;
       table.bet.nonce := nonce;
       table.bet.gameData := table.flipData side winChance;
       table.bet.result := inject_Z flipResultValue |} ;;;
  update_user_balance userId balanceChange ;;;
  update_userGameSession_nonce userId nonce ;;;
  updatedUser <- select_user userId ;;
  match updatedUser with
  | [] => throw "Cannot read properties of undefined (reading 'balance')"
  | u :: _ =>
      ret {| betId := betId;
             flipResult := flipResult;
             win := win;
             payout := Math_round (payout * 100) / 100;
             newBalance := Math_round (table.user.balance u * 100) / 100;
             serverSeedHash := serverSeedHash;
             resultClientSeed := finalClientSeed;
             nonce := nonce |}
  end.

Definition POST (event : RequestEvent CoinFlipBetRequest) (db : Database)
  : Response CoinFlipBetResult * Database :=
  match sessionToken event with
  | None | Some EmptyString =>
      (json_failure (Some "Authentication required"%string) 401, db)
  | Some _ =>
      match validatedUser event with
      | None => (json_failure (Some "Invalid session"%string) 401, db)
      | Some user =>
          match body event with
          | None => (json_failure (Some "Invalid request body"%string) 400, db)
          | Some betRequest =>
              let validation :=
                validateCoinFlipBet (amount betRequest) (side betRequest)
                                    (table.user.balance user) in
              if negb (valid validation)
              then (json_failure (error validation) 400, db)
              else
                let '(serverSeed, serverSeedHash) :=
                  generateServerSeed (random32 event) in
                let finalClientSeed :=
                  finalClientSeed_of (clientSeed betRequest) (random16 event) in
                match transaction
                        (settle (table.user.id user) betRequest serverSeed
                                serverSeedHash finalClientSeed (randomUUID event)) db
                with
                | (inr result, db') => (json_success result, db')
                | (inl message, db') => (translate_error message, db')
                end
          end
      end
  end.

End Flip.

(** ** [GET] bet verification *)

Module Verify.

Import ProvablyFair.

Record VerifyData : Set := {
  betId : string;
  verified : bool;
  expectedResult : Q;
  calculatedResult : option Q;
  seedHashValid : bool
}.

(** The part of the handler that runs once the bet row has been found. *)
Definition verify (bet : table.bet.row) : VerifyData :=
  let seedHashValid :=
    verifyServerSeed (table.bet.serverSeed bet) (table.bet.serverSeedHash bet) in
  let calculatedResult :=
    match table.bet.gameType bet with
    | table.dice =>
        generateDiceRoll (table.bet.serverSeed bet) (table.bet.clientSeed bet)
                         (table.bet.nonce bet)
    | table.flip =>
        Some (inject_Z (generateCoinFlip (table.bet.serverSeed bet)
                                         (table.bet.clientSeed bet)
                                         (table.bet.nonce bet)))
    end in
  let verified :=
    seedHashValid &&
    verifyGameResult (table.bet.serverSeed bet) (table.bet.clientSeed bet)
                     (table.bet.nonce bet) (table.bet.result bet) in
  {| betId := table.bet.id bet;
     verified := verified;
     expectedResult := table.bet.result bet;
     calculatedResult := calculatedResult;
     seedHashValid := seedHashValid |}.

(** [GET ?betId=...] for an authenticated user: the bet is looked up by id
    and owner. *)
Definition GET (userId : string) (betId : option string) (db : Database)
  : Response VerifyData :=
  match betId with
  | None | Some EmptyString => json_failure (Some "Bet ID is required"%string) 400
  | Some bid =>
      match filter (fun b => String.eqb (table.bet.id b) bid &&
                             String.eqb (table.bet.userId b) userId) (bets db) with
      | [] => json_failure (Some "Bet not found"%string) 404
      | bet :: _ => json_success (verify bet)
      end
  end.

End Verify.

(** ** Registration ([POST /api/auth], action [register])

    The statement that creates a principal, given the id drawn and the
    lower-cased name: [id] is the primary key, [username] is unique, and
    [balance] takes its default of 1000.  A constraint failure leaves the
    table as it was. *)
Definition handleRegister (userId username : string) (db : Database) : Database :=
  if existsb (fun r => String.eqb (table.user.id r) userId ||
                       String.eqb (table.user.username r) username) (users db)
  then db
  else {| users := users db ++ [ {| table.user.id := userId;
                                    table.user.username := username;
                                    table.user.balance := 1000 |} ];
          bets := bets db;
          userGameSessions := userGameSessions db |}.

Definition empty_db : Database := {| users := []; bets := []; userGameSessions := [] |}.

(** ** The committed states of the ledger

    A transaction body is synchronous, so transactions run one after the
    other; whatever a handler read before its transaction (the session's
    [user] snapshot) is an arbitrary input of the step.  The generic
    [handleGameBet] runs the same transaction behind further checks (CSRF
    token, rate limit) that can only refuse a request, so it adds no
    state. *)

Inductive step : Database -> Database -> Prop :=
| step_register (userId username : string) (db : Database) :
    step db (handleRegister userId username db)
| step_dice (event : RequestEvent Dice.DiceBetRequest) (db : Database) :
    step db (snd (Dice.POST event db))
| step_flip (event : RequestEvent Flip.CoinFlipBetRequest) (db : Database) :
    step db (snd (Flip.POST event db)).

Inductive reachable : Database -> Prop :=
| reachable_empty : reachable empty_db
| reachable_step (db db' : Database) : reachable db -> step db db' -> reachable db'.

(** The counter of a principal: 0 as long as there is no row. *)
Definition current_nonce (uid : string) (db : Database) : Z :=
  match filter (fun r => String.eqb (table.userGameSession.userId r) uid)
               (userGameSessions db) with
  | [] => 0%Z
  | r :: _ => table.userGameSession.currentNonce r
  end.

(** The nonces of a principal's bet records, oldest first. *)
Definition nonces_of (uid : string) (db : Database) : list Z :=
  map table.bet.nonce
      (filter (fun b => String.eqb (table.bet.userId b) uid) (bets db)).

Definition balance_of (uid : string) (db : Database) : option Q :=
  match filter (fun r => String.eqb (table.user.id r) uid) (users db) with
  | [] => None
  | u :: _ => Some (table.user.balance u)
  end.

(** What a committed settlement leaves behind: the bet row [b] appended,
    its owner's balance moved by [payout - amount], and the owner's counter
    (created at 0 when missing) set to the nonce of [b]. *)
Definition committed (b : table.bet.row) (db : Database) : Database :=
  let uid := table.bet.userId b in
  {| users := map (add_balance uid (table.bet.payout b - table.bet.amount b)) (users db);
     bets := bets db ++ [b];
     userGameSessions :=
       map (set_nonce uid (table.bet.nonce b))
           (match filter (fun r => String.eqb (table.userGameSession.userId r) uid)
                         (userGameSessions db) with
            | [] => userGameSessions db ++
                    [ {| table.userGameSession.userId := uid;
                         table.userGameSession.currentNonce := 0 |} ]
            | _ :: _ => userGameSessions db
            end) |}.

(** The row a dice settlement writes when the roll is [roll] and the
    counter stands at [nonce - 1]. *)
Definition dice_bet (userId : string) (betRequest : Dice.DiceBetRequest)
    (serverSeed serverSeedHash finalClientSeed uuid : string) (nonce : Z) (roll : Q)
  : table.bet.row :=
  let win := ProvablyFair.isDiceWin roll (Dice.betType betRequest) (Dice.target betRequest) in
  let winChance :=
    ProvablyFair.calculateDiceWinChance (Dice.betType betRequest) (Dice.target betRequest) in
  let multiplier := ProvablyFair.calculateMultiplier winChance None in
  {| table.bet.id := uuid;
     table.bet.userId := userId;
     table.bet.gameType := table.dice;
     table.bet.amount := Dice.amount betRequest;
     table.bet.multiplier := multiplier;
     table.bet.win := win;
     table.bet.payout := if win then Dice.amount betRequest * multiplier else 0;
     table.bet.serverSeed := serverSeed;
     table.bet.serverSeedHash := serverSeedHash;
     table.bet.clientSeed := finalClientSeed;
     table.bet.nonce := nonce;
     table.bet.gameData :=
       table.diceData (Dice.betType betRequest) (Dice.target betRequest) winChance;
     table.bet.result := roll |}.

Definition dice_result (b : table.bet.row) (balance : Q) : Dice.DiceBetResult :=
  {| Dice.betId := table.bet.id b;
     Dice.roll := Math_round (table.bet.result b * 100) / 100;
     Dice.win := table.bet.win b;
     Dice.payout := Math_round (table.bet.payout b * 100) / 100;
     Dice.newBalance := Math_round (balance * 100) / 100;
     Dice.serverSeedHash := table.bet.serverSeedHash b;
     Dice.resultClientSeed := table.bet.clientSeed b;
     Dice.nonce := table.bet.nonce b |}.

(** The row a flip settlement writes. *)
Definition flip_bet (userId : string) (betRequest : Flip.CoinFlipBetRequest)
    (serverSeed serverSeedHash finalClientSeed uuid : string) (nonce : Z)
  : table.bet.row :=
  let flipResultValue := ProvablyFair.generateCoinFlip serverSeed finalClientSeed nonce in
  let win := ProvablyFair.isCoinFlipWin flipResultValue (Flip.side betRequest) in
  let multiplier := ProvablyFair.calculateMultiplier (495 # 10) None in
  {| table.bet.id := uuid;
     table.bet.userId := userId;
     table.bet.gameType := table.flip;
     table.bet.amount := Flip.amount betRequest;
     table.bet.multiplier := multiplier;
     table.bet.win := win;
     table.bet.payout := if win then Flip.amount betRequest * multiplier else 0;
     table.bet.serverSeed := serverSeed;
     table.bet.serverSeedHash := serverSeedHash;
     table.bet.clientSeed := finalClientSeed;
     table.bet.nonce := nonce;
     table.bet.gameData := table.flipData (Flip.side betRequest) (495 # 10);
     table.bet.result := inject_Z flipResultValue |}.

Definition flip_result (b : table.bet.row) (flipResultValue : Z) (balance : Q)
  : Flip.CoinFlipBetResult :=
  {| Flip.betId := table.bet.id b;
     Flip.flipResult :=
       if Z.eqb flipResultValue 0 then ProvablyFair.cat else ProvablyFair.dog;
     Flip.win := table.bet.win b;
     Flip.payout := Math_round (table.bet.payout b * 100) / 100;
     Flip.newBalance := Math_round (balance * 100) / 100;
     Flip.serverSeedHash := table.bet.serverSeedHash b;
     Flip.resultClientSeed := table.bet.clientSeed b;
     Flip.nonce := table.bet.nonce b |}.

(** What the handlers guarantee of a row [b] they commit on top of [db]. *)
Record settled (db : Database) (b : table.bet.row) : Prop := {
  settled_funds :
    exists bal, balance_of (table.bet.userId b) db = Some bal /\ table.bet.amount b <= bal;
  settled_amount : 0 < table.bet.amount b;
  settled_payout : 0 <= table.bet.payout b;
  settled_nonce : table.bet.nonce b = (current_nonce (table.bet.userId b) db + 1)%Z;
  settled_fresh :
    existsb (fun r => String.eqb (table.bet.id r) (table.bet.id b)) (bets db) = false;
  settled_hash : table.bet.serverSeedHash b = SHA256.sha256_hex (table.bet.serverSeed b);
  settled_result :
    match table.bet.gameType b with
    | table.dice =>
        ProvablyFair.generateDiceRoll (table.bet.serverSeed b) (table.bet.clientSeed b)
          (table.bet.nonce b) = Some (table.bet.result b)
    | table.flip =>
        table.bet.result b =
        inject_Z (ProvablyFair.generateCoinFlip (table.bet.serverSeed b)
                    (table.bet.clientSeed b) (table.bet.nonce b))
    end
}.

(** The run 1, 2, ..., n. *)
Definition nonce_run (n : nat) : list Z := map Z.of_nat (seq 1 n).

(** The invariant of the nonce sequencer: the nonces of each principal's
    bets are 1, ..., n and the counter stands at n. *)
Definition nonce_invariant (db : Database) : Prop :=
  forall uid, exists n : nat,
    nonces_of uid db = nonce_run n /\ current_nonce uid db = Z.of_nat n.

(** The invariant of the ledger: user ids are unique and no balance is
    negative. *)
Definition balance_invariant (db : Database) : Prop :=
  NoDup (map table.user.id (users db)) /\
  Forall (fun u => 0 <= table.user.balance u) (users db).

(** What a settlement response says about the counter: on success the
    nonce handed out is the counter plus one, the counter now stands at
    that nonce and exactly one bet row, carrying it, has been appended; on
    failure nothing has changed. *)
Definition advances_nonce {R : Set} (nonce_in : R -> Z) (validated : option table.user.row)
    (db : Database) (out : Response R * Database) : Prop :=
  match fst out with
  | json_success r =>
      exists user b,
        validated = Some user /\
        nonce_in r = (current_nonce (table.user.id user) db + 1)%Z /\
        current_nonce (table.user.id user) (snd out) = nonce_in r /\
        bets (snd out) = bets db ++ [b] /\
        table.bet.userId b = table.user.id user /\
        table.bet.nonce b = nonce_in r
  | json_failure _ _ => snd out = db
  end.

(** What a settlement response says about the balance: on success the
    balance read in the transaction covered the amount and the new balance
    is [balance + payout - amount]; on failure nothing has changed. *)
Definition moves_balance {R : Set} (validated : option table.user.row)
    (db : Database) (out : Response R * Database) : Prop :=
  match fst out with
  | json_success _ =>
      exists user b balance,
        validated = Some user /\
        bets (snd out) = bets db ++ [b] /\
        balance_of (table.user.id user) db = Some balance /\
        table.bet.amount b <= balance /\
        0 <= table.bet.payout b /\
        balance_of (table.user.id user) (snd out)
          = Some (balance + (table.bet.payout b - table.bet.amount b)) /\
        0 <= balance + table.bet.payout b - table.bet.amount b
  | json_failure _ _ => snd out = db
  end.

(** *** A short history used as a running example: one registration, a
    dice bet and a flip bet. *)
Definition example_user : table.user.row :=
  {| table.user.id := "u1"; table.user.username := "alice"; table.user.balance := 1000 |}.

Definition example_dice_event : RequestEvent Dice.DiceBetRequest :=
  {| sessionToken := Some "token"%string;
     validatedUser := Some example_user;
     body := Some {| Dice.amount := 100;
                     Dice.betType := ProvablyFair.over;
                     Dice.target := 50;
                     Dice.clientSeed := Some "xyz"%string |};
     random32 := [1; 2; 3]%Z;
     random16 := [4; 5]%Z;
     randomUUID := "bet-1" |}.

Definition example_flip_event : RequestEvent Flip.CoinFlipBetRequest :=
  {| sessionToken := Some "token"%string;
     validatedUser := Some example_user;
     body := Some {| Flip.amount := 50;
                     Flip.side := ProvablyFair.cat;
                     Flip.clientSeed := None |};
     random32 := [1; 2; 3]%Z;
     random16 := [4; 5]%Z;
     randomUUID := "bet-2" |}.

(** A request for more than the balance, sent with a stale session
    snapshot that still shows enough. *)
Definition example_stale_user : table.user.row :=
  {| table.user.id := "u1"; table.user.username := "alice"; table.user.balance := 5000 |}.

Definition example_overdraw_dice : RequestEvent Dice.DiceBetRequest :=
  {| sessionToken := Some "token"%string;
     validatedUser := Some example_stale_user;
     body := Some {| Dice.amount := 2000;
                     Dice.betType := ProvablyFair.over;
                     Dice.target := 50;
                     Dice.clientSeed := None |};
     random32 := [7; 7; 7]%Z;
     random16 := [8; 8]%Z;
     randomUUID := "bet-3" |}.

Definition example_overdraw_flip : RequestEvent Flip.CoinFlipBetRequest :=
  {| sessionToken := Some "token"%string;
     validatedUser := Some example_stale_user;
     body := Some {| Flip.amount := 2000;
                     Flip.side := ProvablyFair.dog;
                     Flip.clientSeed := None |};
     random32 := [7; 7; 7]%Z;
     random16 := [8; 8]%Z;
     randomUUID := "bet-4" |}.

(** A dice request whose target is the boundary value 100. *)
Definition example_bad_target : RequestEvent Dice.DiceBetRequest :=
  {| sessionToken := Some "token"%string;
     validatedUser := Some example_user;
     body := Some {| Dice.amount := 10;
                     Dice.betType := ProvablyFair.under;
                     Dice.target := 100;
                     Dice.clientSeed := None |};
     random32 := [7; 7; 7]%Z;
     random16 := [8; 8]%Z;
     randomUUID := "bet-5" |}.

(** The dice request of the running example with other random bytes,
    which make it a win. *)
Definition example_dice_win_event : RequestEvent Dice.DiceBetRequest :=
  {| sessionToken := Some "token"%string;
     validatedUser := Some example_user;
     body := Some {| Dice.amount := 100;
                     Dice.betType := ProvablyFair.over;
                     Dice.target := 50;
                     Dice.clientSeed := Some "xyz"%string |};
     random32 := [1; 2; 5]%Z;
     random16 := [4; 5]%Z;
     randomUUID := "bet-1" |}.

(** A principal with a balance of 500 and two flip requests on [cat]. *)
Definition example_user500 : table.user.row :=
  {| table.user.id := "u2"; table.user.username := "bob"; table.user.balance := 500 |}.

Definition example_db500 : Database :=
  {| users := [example_user500]; bets := []; userGameSessions := [] |}.

Definition example_flip500 (random32 : list Z) : RequestEvent Flip.CoinFlipBetRequest :=
  {| sessionToken := Some "token"%string;
     validatedUser := Some example_user500;
     body := Some {| Flip.amount := 50;
                     Flip.side := ProvablyFair.cat;
                     Flip.clientSeed := None |};
     random32 := random32;
     random16 := [4; 5]%Z;
     randomUUID := "bet-6" |}.

Definition example_db1 : Database := handleRegister "u1" "alice" empty_db.
Definition example_db2 : Database := snd (Dice.POST example_dice_event example_db1).
Definition example_db3 : Database := snd (Flip.POST example_flip_event example_db2).

(** The displayed multiplier is the authoritative one rounded to four
    decimal places. *)
Definition round4 (x : Q) : Q := Math_round (x * 10000) / 10000.

(** The first word of a digest is a 32-bit word. *)
Definition word_state (s : SHA256.state) : Prop :=
  (0 <= SHA256.ha s < 2 ^ 32)%Z.

(** ** The outcome derivation in the words of the specification

    HMAC-SHA256 keyed with the server seed over [clientSeed + "-" + nonce];
    the first eight hexadecimal characters of the digest, that is its
    first four bytes, read as an unsigned 32-bit integer; reduced modulo
    10000 and divided by 100. *)

Module Spec.

Definition uint32_be (bytes : list Z) : Z :=
  fold_left (fun acc b => (acc * 256 + b)%Z) bytes 0%Z.

Definition deriveOutcome (serverSeed clientSeed : string) (nonce : Z) : Q :=
  let message := (clientSeed ++ "-" ++ string_of_int nonce)%string in
  let digest :=
    SHA256.digest_bytes
      (SHA256.hmac (SHA256.bytes_of_string serverSeed) (SHA256.bytes_of_string message)) in
  inject_Z (uint32_be (firstn 4 digest) mod 10000) / 100.

End Spec.

(** ** The rate limiter ([src/lib/server/rate-limiter.ts])

    The module keeps one [Map] from keys to entries; it is threaded through
    the functions here.  Every reading of [Date.now()] is an argument. *)

Module RateLimiter.

Local Open Scope Z_scope.

Module Entry.
Record t : Set := { count : Z; resetTime : Z }.
End Entry.

Record RateLimitConfig : Set := { windowMs : Z; maxRequests : Z }.

(** A [Map]: one entry per key, in insertion order. *)
Definition Store : Set := list (string * Entry.t).

Fixpoint Map_get (key : string) (store : Store) : option Entry.t :=
  match store with
  | [] => None
  | (k, e) :: rest => if String.eqb k key then Some e else Map_get key rest
  end.

Fixpoint Map_set (key : string) (entry : Entry.t) (store : Store) : Store :=
  match store with
  | [] => [(key, entry)]
  | (k, e) :: rest =>
      if String.eqb k key then (k, entry) :: rest else (k, e) :: Map_set key entry rest
  end.

Definition RATE_LIMITS_auth : RateLimitConfig :=
  {| windowMs := 15 * 60 * 1000; maxRequests := 5 |}.
Definition RATE_LIMITS_betting : RateLimitConfig :=
  {| windowMs := 60 * 1000; maxRequests := 60 |}.
Definition RATE_LIMITS_api : RateLimitConfig :=
  {| windowMs := 60 * 1000; maxRequests := 100 |}.

(** [cleanupExpiredEntries], at most once every five minutes. *)
Definition cleanupExpiredEntries (now : Z) (store : Store) : Store :=
  let lastCleanup :=
    match Map_get "__last_cleanup__" store with
    | Some e => Entry.resetTime e
    | None => 0
    end in
  if now - lastCleanup <? 5 * 60 * 1000 then store
  else
    filter (fun ke => negb (negb (String.eqb (fst ke) "__last_cleanup__") &&
                            (Entry.resetTime (snd ke) <? now)))
           (Map_set "__last_cleanup__" {| Entry.count := 0; Entry.resetTime := now |} store).

Record RateLimitResult : Set := { limited : bool; resetTime : Z; remaining : Z }.

Definition key_of (identifier : string) (config : RateLimitConfig) : string :=
  (identifier ++ ":" ++ string_of_int (windowMs config) ++ ":"
   ++ string_of_int (maxRequests config))%string.

(** [isRateLimited]; [now] is its own reading of the clock, [nowCleanup]
    the one [cleanupExpiredEntries] takes right after. *)
Definition isRateLimited (now nowCleanup : Z) (identifier : string)
    (config : RateLimitConfig) (store : Store) : RateLimitResult * Store :=
  let key := key_of identifier config in
  let store := cleanupExpiredEntries nowCleanup store in
  let fresh :=
    ({| limited := false;
        resetTime := now + windowMs config;
        remaining := maxRequests config - 1 |},
     Map_set key {| Entry.count := 1; Entry.resetTime := now + windowMs config |} store) in
  match Map_get key store with
  | None => fresh
  | Some entry =>
      if Entry.resetTime entry <? now then fresh
      else if maxRequests config <=? Entry.count entry then
        ({| limited := true; resetTime := Entry.resetTime entry; remaining := 0 |}, store)
      else
        let count := Entry.count entry + 1 in
        ({| limited := false;
            resetTime := Entry.resetTime entry;
            remaining := maxRequests config - count |},
         Map_set key {| Entry.count := count; Entry.resetTime := Entry.resetTime entry |}
                 store)
  end.

(** [a || b] on numbers: [0] is falsy. *)
Definition number_or (a b : Z) : Z := if a =? 0 then b else a.

(** [Math.ceil(x / 1000)] for an integer [x]. *)
Definition ceil_div_1000 (x : Z) : Z := - ((- x) / 1000).

Record Headers : Set := {
  X_RateLimit_Limit : string;
  X_RateLimit_Remaining : string;
  X_RateLimit_Reset : string
}.

(** [getRateLimitHeaders] calls [isRateLimited] itself; [nowHeader] is
    the clock reading used when the result carries no reset time. *)
Definition getRateLimitHeaders (now nowCleanup nowHeader : Z) (identifier : string)
    (config : RateLimitConfig) (store : Store) : Headers * Store :=
  let (result, store) := isRateLimited now nowCleanup identifier config store in
  ({| X_RateLimit_Limit := string_of_int (maxRequests config);
      X_RateLimit_Remaining := string_of_int (number_or (remaining result) 0);
      X_RateLimit_Reset :=
        string_of_int (ceil_div_1000 (number_or (resetTime result) nowHeader)) |},
   store).

End RateLimiter.

(** ** CSRF protection ([src/lib/server/csrf.ts])

    What the functions read of a request: its method, its headers, and the
    cookie jar, in which a cookie set while the request is served is what
    [get] returns from then on.  Cookie attributes are left out. *)

Module Csrf.

Record Event : Set := {
  method : string;
  headers_get : string -> option string;
  cookies : list (string * string)
}.

Definition CSRF_COOKIE_NAME : string := "csrf-token".

Fixpoint cookies_get (name : string) (jar : list (string * string)) : option string :=
  match jar with
  | [] => None
  | (n, v) :: rest => if String.eqb n name then Some v else cookies_get name rest
  end.

Definition cookies_set (name value : string) (event : Event) : Event :=
  {| method := method event;
     headers_get := headers_get event;
     cookies := (name, value) :: cookies event |}.

(** [x || y] on strings that may be missing: a missing or empty [x] gives
    way to [y]. *)
Definition string_or (x y : option string) : option string :=
  match x with
  | Some (String c s) => Some (String c s)
  | _ => y
  end.

(** [generateCSRFToken], on the random bytes it draws. *)
Definition generateCSRFToken (randomBytes : list Z) : string :=
  hex_of_bytes randomBytes.

Definition setCSRFCookie (event : Event) (token : string) : Event :=
  cookies_set CSRF_COOKIE_NAME token event.

Definition getCSRFTokenFromCookie (event : Event) : option string :=
  string_or (cookies_get CSRF_COOKIE_NAME (cookies event)) None.

Definition charCode (c : ascii) : Z := Z.of_N (N_of_ascii c).

(** The loop of [constantTimeEqual] over two strings of the same length. *)
Fixpoint xor_codes (a b : string) (result : Z) : Z :=
  match a, b with
  | String x a', String y b' =>
      xor_codes a' b' (Z.lor result (Z.lxor (charCode x) (charCode y)))
  | _, _ => result
  end.

Definition constantTimeEqual (a b : string) : bool :=
  if negb (Nat.eqb (String.length a) (String.length b)) then false
  else (xor_codes a b 0 =? 0)%Z.

Definition validateCSRFToken (event : Event) : bool :=
  if existsb (String.eqb (method event)) ["GET"; "HEAD"; "OPTIONS"]%string then true
  else
    let cookieToken := getCSRFTokenFromCookie event in
    let headerToken :=
      string_or (headers_get event "X-CSRF-Token") (headers_get event "x-csrf-token") in
    match cookieToken, headerToken with
    | Some (String c s), Some (String c' s') =>
        constantTimeEqual (String c s) (String c' s')
    | _, _ => false
    end.

Definition handleCSRF (randomBytes : list Z) (event : Event) : bool * Event :=
  let event :=
    match getCSRFTokenFromCookie event with
    | Some (String _ _) => event
    | _ => setCSRFCookie event (generateCSRFToken randomBytes)
    end in
  (validateCSRFToken event, event).

Definition getCSRFTokenForClient (randomBytes : list Z) (event : Event) : string * Event :=
  match getCSRFTokenFromCookie event with
  | Some (String c s) => (String c s, event)
  | _ =>
      let token := generateCSRFToken randomBytes in
      (token, setCSRFCookie event token)
  end.

End Csrf.

(** ** The shared game handler ([$lib/server/game-handler]) *)

Module GameHandler.

(** A bet request: the common fields and the game's own parameters. *)
Record GameBetRequest (Params : Set) : Set := {
  amount : Q;
  clientSeed : option string;
  params : Params
}.
Arguments amount {Params}.
Arguments clientSeed {Params}.
Arguments params {Params}.

(** What [calculateResult] returns: the fields the handler stores, and the
    game's own fields of the response. *)
Module Calc.
Record t (Extra : Set) : Set := {
  win : bool;
  payout : Q;
  multiplier : Q;
  gameData : table.GameData;
  result : Q;
  gameSpecificResult : Extra
}.
Arguments win {Extra}.
Arguments payout {Extra}.
Arguments multiplier {Extra}.
Arguments gameData {Extra}.
Arguments result {Extra}.
Arguments gameSpecificResult {Extra}.
End Calc.

Record GameLogic (Params Extra : Set) : Set := {
  validateBet : GameBetRequest Params -> Q -> ProvablyFair.Validation;
  calculateResult : string -> string -> Z -> GameBetRequest Params -> Calc.t Extra;
  gameType : table.GameType
}.
Arguments validateBet {Params Extra}.
Arguments calculateResult {Params Extra}.
Arguments gameType {Params Extra}.

(** The response: the common fields, then the game's own. *)
Record GameBetResult (Extra : Set) : Set := {
  betId : string;
  win : bool;
  payout : Q;
  newBalance : Q;
  serverSeedHash : string;
  resultClientSeed : string;
  nonce : Z;
  gameSpecific : Extra
}.
Arguments betId {Extra}.
Arguments win {Extra}.
Arguments payout {Extra}.
Arguments newBalance {Extra}.
Arguments serverSeedHash {Extra}.
Arguments resultClientSeed {Extra}.
Arguments nonce {Extra}.
Arguments gameSpecific {Extra}.

(** One request: the HTTP side read by the CSRF check, what the session
    layer and the body give, the random bytes of a CSRF token, and the
    five readings of the clock the rate limiter may take, in order. *)
Record BetEvent (Params : Set) : Set := {
  http : Csrf.Event;
  csrfRandom : list Z;
  request : RequestEvent (GameBetRequest Params);
  now1 : Z;
  now2 : Z;
  now3 : Z;
  now4 : Z;
  now5 : Z
}.
Arguments http {Params}.
Arguments csrfRandom {Params}.
Arguments request {Params}.
Arguments now1 {Params}.
Arguments now2 {Params}.
Arguments now3 {Params}.
Arguments now4 {Params}.
Arguments now5 {Params}.

(** The callback given to [db.transaction]. *)
Definition settle {Params Extra : Set} (gameLogic : GameLogic Params Extra)
    (userId : string) (betRequest : GameBetRequest Params)
    (serverSeed serverSeedHash finalClientSeed uuid : string)
  : Tx (GameBetResult Extra) :=
  userSessionResult <- select_userGameSession userId ;;
  currentNonce <-
    match userSessionResult with
    | [] =>
        insert_userGameSession
          {| table.userGameSession.userId := userId;
             table.userGameSession.currentNonce := 0 |} ;;;
        ret 0%Z
    | r :: _ => ret (table.userGameSession.currentNonce r)
    end ;;
  let nonce := (currentNonce + 1)%Z in
  currentUser <- select_user userId ;;
  match currentUser with
  | [] => throw "Insufficient balance"
  | u :: _ =>
      if Qltb (table.user.balance u) (amount betRequest) then throw "Insufficient balance"
      else ret tt
  end ;;;
  let gameResult := calculateResult gameLogic serverSeed finalClientSeed nonce betRequest in
  let balanceChange := Calc.payout gameResult - amount betRequest in
  let betId := uuid in
  insert_bet
    {| table.bet.id := betId;
       table.bet.userId := userId;
       table.bet.gameType := gameType gameLogic;
       table.bet.amount := amount betRequest;
       table.bet.multiplier := Calc.multiplier gameResult;
       table.bet.win := Calc.win gameResult;
       table.bet.payout := Calc.payout gameResult;
       table.bet.serverSeed := serverSeed;
       table.bet.serverSeedHash := serverSeedHash;
       table.bet.clientSeed := finalClientSeed;
       table.bet.nonce := nonce;
       table.bet.gameData := Calc.gameData gameResult;
       table.bet.result := Calc.result gameResult |} ;;;
  update_user_balance userId balanceChange ;;;
  update_userGameSession_nonce userId nonce ;;;
  updatedUser <- select_user userId ;;
  match updatedUser with
  | [] => throw "Cannot read properties of undefined (reading 'balance')"
  | u :: _ =>
      ret {| betId := betId;
             win := Calc.win gameResult;
             payout := Math_round (Calc.payout gameResult * 100) / 100;
             newBalance := Math_round (table.user.balance u * 100) / 100;
             serverSeedHash := serverSeedHash;
             resultClientSeed := finalClientSeed;
             nonce := nonce;
             gameSpecific := Calc.gameSpecificResult gameResult |}
  end.

(** [handleGameBet]: the response with the rate-limit headers it carries,
    if any, and the three states it leaves: database, rate-limit store and
    cookie jar. *)
Definition handleGameBet {Params Extra : Set} (event : BetEvent Params)
    (gameLogic : GameLogic Params Extra) (db : Database) (store : RateLimiter.Store)
  : (Response (GameBetResult Extra) * option RateLimiter.Headers)
    * (Database * RateLimiter.Store * Csrf.Event) :=
  let (csrfOk, http) := Csrf.handleCSRF (csrfRandom event) (http event) in
  if negb csrfOk then
    ((json_failure (Some "CSRF token validation failed"%string) 403, None),
     (db, store, http))
  else
    match sessionToken (request event) with
    | None | Some EmptyString =>
        ((json_failure (Some "Authentication required"%string) 401, None),
         (db, store, http))
    | Some _ =>
        match validatedUser (request event) with
        | None =>
            ((json_failure (Some "Invalid session"%string) 401, None), (db, store, http))
        | Some user =>
            let userIdentifier := (table.user.id user ++ ":betting")%string in
            let (rateLimitResult, store) :=
              RateLimiter.isRateLimited (now1 event) (now2 event) userIdentifier
                RateLimiter.RATE_LIMITS_betting store in
            let (headers, store) :=
              RateLimiter.getRateLimitHeaders (now3 event) (now4 event) (now5 event)
                userIdentifier RateLimiter.RATE_LIMITS_betting store in
            if RateLimiter.limited rateLimitResult then
              ((json_failure (Some "Too many bets. Please slow down."%string) 429,
                Some headers), (db, store, http))
            else
              match body (request event) with
              | None =>
                  ((json_failure (Some "Invalid request body"%string) 400, Some headers),
                   (db, store, http))
              | Some betRequest =>
                  let validation :=
                    validateBet gameLogic betRequest (table.user.balance user) in
                  if negb (ProvablyFair.valid validation) then
                    ((json_failure (ProvablyFair.error validation) 400, Some headers),
                     (db, store, http))
                  else
                    let '(serverSeed, serverSeedHash) :=
                      ProvablyFair.generateServerSeed (random32 (request event)) in
                    let finalClientSeed :=
                      finalClientSeed_of (clientSeed betRequest)
                                         (random16 (request event)) in
                    match transaction
                            (settle gameLogic (table.user.id user) betRequest serverSeed
                                    serverSeedHash finalClientSeed
                                    (randomUUID (request event))) db
                    with
                    | (inr result, db') =>
                        ((json_success result, Some headers), (db', store, http))
                    | (inl message, db') =>
                        ((translate_error message, None), (db', store, http))
                    end
              end
        end
    end.

(** [GET /api/game/dice], [GET /api/game/flip] and [handleGameData] are
    the same code: they announce the next nonce, the hash of a server seed
    drawn for the occasion, and the balance of the session's snapshot. *)
Record GameData : Set := {
  nextNonce : Z;
  nextServerSeedHash : string;
  balance : Q
}.

Definition handleGameData {Body : Set} (event : RequestEvent Body) (db : Database)
  : Response GameData :=
  match sessionToken event with
  | None | Some EmptyString => json_failure (Some "Authentication required"%string) 401
  | Some _ =>
      match validatedUser event with
      | None => json_failure (Some "Invalid session"%string) 401
      | Some user =>
          let userSession :=
            filter (fun r => String.eqb (table.userGameSession.userId r) (table.user.id user))
                   (userGameSessions db) in
          let nonce :=
            match userSession with
            | r :: _ => (table.userGameSession.currentNonce r + 1)%Z
            | [] => 1%Z
            end in
          let '(_, nextServerSeedHash) := ProvablyFair.generateServerSeed (random32 event) in
          json_success {| nextNonce := nonce;
                          nextServerSeedHash := nextServerSeedHash;
                          balance := table.user.balance user |}
      end
  end.

End GameHandler.

(** ** The flip route on top of the shared handler *)

Module FlipRoute.

Import ProvablyFair.

Definition coinFlipGameLogic : GameHandler.GameLogic Side Side :=
  {| GameHandler.gameType := table.flip;
     GameHandler.validateBet := fun request userBalance =>
       validateCoinFlipBet (GameHandler.amount request) (GameHandler.params request)
                           userBalance;
     GameHandler.calculateResult := fun serverSeed clientSeed nonce request =>
       let flipResultValue := generateCoinFlip serverSeed clientSeed nonce in
       let flipResult := if Z.eqb flipResultValue 0 then cat else dog in
       let win := isCoinFlipWin flipResultValue (GameHandler.params request) in
       let winChance := 495 # 10 in
       let multiplier := calculateMultiplier winChance None in
       let payout := if win then GameHandler.amount request * multiplier else 0 in
       {| GameHandler.Calc.win := win;
          GameHandler.Calc.payout := payout;
          GameHandler.Calc.multiplier := multiplier;
          GameHandler.Calc.result := inject_Z flipResultValue;
          GameHandler.Calc.gameSpecificResult := flipResult;
          GameHandler.Calc.gameData :=
            table.flipData (GameHandler.params request) winChance |} |}.

Definition POST (event : GameHandler.BetEvent Side) (db : Database)
    (store : RateLimiter.Store) :=
  GameHandler.handleGameBet event coinFlipGameLogic db store.

End FlipRoute.

(** ** The rolls a dice bet can meet

    [generateDiceRoll] returns one of 0.00, 0.01, ..., 99.99; a bet is
    measured by how many of them win. *)
Definition all_rolls : list Q :=
  map (fun j => inject_Z (Z.of_nat j) / 100) (seq 0 (Z.to_nat 10000)).

Definition winning_rolls (betType : ProvablyFair.BetType) (target : Q) : nat :=
  List.length (filter (fun roll => ProvablyFair.isDiceWin roll betType target) all_rolls).

(** Strings of lower-case hexadecimal digits. *)
Definition is_lower_hex (c : ascii) : bool :=
  let n := Z.of_N (N_of_ascii c) in
  (((48 <=? n) && (n <=? 57)) || ((97 <=? n) && (n <=? 102)))%Z.

Fixpoint string_forall (p : ascii -> bool) (s : string) : bool :=
  match s with
  | EmptyString => true
  | String c rest => p c && string_forall p rest
  end.

(** ** Definitions used to state further properties *)

(** The token the cookie holds once [handleCSRF] or [getCSRFTokenForClient]
    has run. *)
Definition token_of (randomBytes : list Z) (event : Csrf.Event) : string :=
  match Csrf.getCSRFTokenFromCookie event with
  | Some (String c s) => String c s
  | _ => Csrf.generateCSRFToken randomBytes
  end.

(** Whether a string holds a colon, as every rate-limit key does. *)
Fixpoint has_colon (s : string) : bool :=
  match s with
  | EmptyString => false
  | String c s' => Ascii.eqb c ":"%char || has_colon s'
  end.

(** The time of the last cleanup recorded in a store, 0 when none is. *)
Definition last_cleanup (store : RateLimiter.Store) : Z :=
  match RateLimiter.Map_get "__last_cleanup__" store with
  | Some e => RateLimiter.Entry.resetTime e
  | None => 0%Z
  end.

(** One call of [isRateLimited]: its two clock readings and its arguments. *)
Record Call : Set := {
  at_now : Z;
  at_nowCleanup : Z;
  by_identifier : string;
  with_config : RateLimiter.RateLimitConfig
}.

(** Calls made one after the other on the same store. *)
Fixpoint serve_calls (calls : list Call) (store : RateLimiter.Store)
  : list RateLimiter.RateLimitResult * RateLimiter.Store :=
  match calls with
  | [] => ([], store)
  | c :: rest =>
      let (result, store) :=
        RateLimiter.isRateLimited (at_now c) (at_nowCleanup c) (by_identifier c)
                                  (with_config c) store in
      let (results, store) := serve_calls rest store in
      (result :: results, store)
  end.

(** The key a call counts under. *)
Definition call_key (c : Call) : string :=
  RateLimiter.key_of (by_identifier c) (with_config c).

(** The results of the calls made for [key]. *)
Definition results_for (key : string) (calls : list Call)
    (results : list RateLimiter.RateLimitResult) : list RateLimiter.RateLimitResult :=
  map snd (filter (fun cr => String.eqb (call_key (fst cr)) key) (combine calls results)).

(** What the [j]-th call of a window answers when the window was found
    with [count] requests counted. *)
Definition window_result (config : RateLimiter.RateLimitConfig) (resetTime count : Z) (j : nat)
  : RateLimiter.RateLimitResult :=
  let limited := (RateLimiter.maxRequests config <=? count + Z.of_nat j)%Z in
  {| RateLimiter.limited := limited;
     RateLimiter.resetTime := resetTime;
     RateLimiter.remaining :=
       if limited then 0%Z else (RateLimiter.maxRequests config - (count + Z.of_nat j + 1))%Z |}.

(** The row the shared handler writes when the counter stands at
    [nonce - 1]. *)
Definition game_bet {Params Extra : Set} (gameLogic : GameHandler.GameLogic Params Extra)
    (userId : string) (betRequest : GameHandler.GameBetRequest Params)
    (serverSeed serverSeedHash finalClientSeed uuid : string) (nonce : Z)
  : table.bet.row :=
  let gameResult :=
    GameHandler.calculateResult gameLogic serverSeed finalClientSeed nonce betRequest in
  {| table.bet.id := uuid;
     table.bet.userId := userId;
     table.bet.gameType := GameHandler.gameType gameLogic;
     table.bet.amount := GameHandler.amount betRequest;
     table.bet.multiplier := GameHandler.Calc.multiplier gameResult;
     table.bet.win := GameHandler.Calc.win gameResult;
     table.bet.payout := GameHandler.Calc.payout gameResult;
     table.bet.serverSeed := serverSeed;
     table.bet.serverSeedHash := serverSeedHash;
     table.bet.clientSeed := finalClientSeed;
     table.bet.nonce := nonce;
     table.bet.gameData := GameHandler.Calc.gameData gameResult;
     table.bet.result := GameHandler.Calc.result gameResult |}.

(** The response the shared handler builds for the row [b]. *)
Definition game_result {Extra : Set} (b : table.bet.row) (extra : Extra) (balance : Q)
  : GameHandler.GameBetResult Extra :=
  {| GameHandler.betId := table.bet.id b;
     GameHandler.win := table.bet.win b;
     GameHandler.payout := Math_round (table.bet.payout b * 100) / 100;
     GameHandler.newBalance := Math_round (balance * 100) / 100;
     GameHandler.serverSeedHash := table.bet.serverSeedHash b;
     GameHandler.resultClientSeed := table.bet.clientSeed b;
     GameHandler.nonce := table.bet.nonce b;
     GameHandler.gameSpecific := extra |}.

(** The status line of a response. *)
Definition status_of {R : Set} (response : Response R) : Z :=
  match response with
  | json_success _ => 200
  | json_failure _ status => status
  end.

(** The flip route's request, response and event in the shape of the
    original handler. *)
Definition to_flip_request (r : GameHandler.GameBetRequest ProvablyFair.Side)
  : Flip.CoinFlipBetRequest :=
  {| Flip.amount := GameHandler.amount r;
     Flip.side := GameHandler.params r;
     Flip.clientSeed := GameHandler.clientSeed r |}.

Definition to_flip_event (event : GameHandler.BetEvent ProvablyFair.Side)
  : RequestEvent Flip.CoinFlipBetRequest :=
  let request := GameHandler.request event in
  {| sessionToken := sessionToken request;
     validatedUser := validatedUser request;
     body := option_map to_flip_request (body request);
     random32 := random32 request;
     random16 := random16 request;
     randomUUID := randomUUID request |}.

Definition to_flip_result (r : GameHandler.GameBetResult ProvablyFair.Side)
  : Flip.CoinFlipBetResult :=
  {| Flip.betId := GameHandler.betId r;
     Flip.flipResult := GameHandler.gameSpecific r;
     Flip.win := GameHandler.win r;
     Flip.payout := GameHandler.payout r;
     Flip.newBalance := GameHandler.newBalance r;
     Flip.serverSeedHash := GameHandler.serverSeedHash r;
     Flip.resultClientSeed := GameHandler.resultClientSeed r;
     Flip.nonce := GameHandler.nonce r |}.

(** A response with its result, if any, put in another shape. *)
Definition map_response {R R' : Set} (f : R -> R') (response : Response R) : Response R' :=
  match response with
  | json_success r => json_success (f r)
  | json_failure e s => json_failure e s
  end.

(** Requests served one after the other. *)
Fixpoint serve_bets {Params Extra : Set} (gameLogic : GameHandler.GameLogic Params Extra)
    (events : list (GameHandler.BetEvent Params)) (db : Database) (store : RateLimiter.Store)
  : list (Response (GameHandler.GameBetResult Extra) * option RateLimiter.Headers)
    * (Database * RateLimiter.Store) :=
  match events with
  | [] => ([], (db, store))
  | event :: rest =>
      let '(out, (db, store, _)) := GameHandler.handleGameBet event gameLogic db store in
      let '(outs, final) := serve_bets gameLogic rest db store in
      (out :: outs, final)
  end.

(** A request that passes the CSRF check and carries the session of
    [userId]. *)
Definition authenticated {Params : Set} (userId : string)
    (event : GameHandler.BetEvent Params) : Prop :=
  fst (Csrf.handleCSRF (GameHandler.csrfRandom event) (GameHandler.http event)) = true /\
  (exists c token, sessionToken (GameHandler.request event) = Some (String c token)) /\
  (exists user,
      validatedUser (GameHandler.request event) = Some user /\ table.user.id user = userId).

(** What the handler does once the CSRF check, the session and the rate
    limiter have let a request through. *)
Definition admitted_bet {Params Extra : Set} (gameLogic : GameHandler.GameLogic Params Extra)
    (event : GameHandler.BetEvent Params) (user : table.user.row) (db : Database)
  : Response (GameHandler.GameBetResult Extra) * bool * Database :=
  match body (GameHandler.request event) with
  | None => (json_failure (Some "Invalid request body"%string) 400, true, db)
  | Some betRequest =>
      let validation := GameHandler.validateBet gameLogic betRequest (table.user.balance user) in
      if negb (ProvablyFair.valid validation) then
        (json_failure (ProvablyFair.error validation) 400, true, db)
      else
        match GameHandler.settle gameLogic (table.user.id user) betRequest
                (hex_of_bytes (random32 (GameHandler.request event)))
                (SHA256.sha256_hex (hex_of_bytes (random32 (GameHandler.request event))))
                (finalClientSeed_of (GameHandler.clientSeed betRequest)
                                    (random16 (GameHandler.request event)))
                (randomUUID (GameHandler.request event)) db
        with
        | inr (result, db') => (json_success result, true, db')
        | inl message => (translate_error message, false, db)
        end
  end.

(** The clock readings of a request, all within a window that closes at
    [R]. *)
Definition within {Params : Set} (R : Z) (event : GameHandler.BetEvent Params) : Prop :=
  (GameHandler.now1 event <= R /\ GameHandler.now2 event <= R /\
   GameHandler.now3 event <= R /\ GameHandler.now4 event <= R)%Z.

(** The key under which the bets of a principal are counted. *)
Definition betting_key (userId : string) : string :=
  RateLimiter.key_of (userId ++ ":betting") RateLimiter.RATE_LIMITS_betting.

(** Whether an answer is the refusal of the rate limiter. *)
Definition is_429 {R : Set} (out : Response R * option RateLimiter.Headers) : bool :=
  (status_of (fst out) =? 429)%Z.

(** *** Requests and stores used as running examples *)

(** A page request without a CSRF cookie, and the POST that follows it
    with the token the page was given. *)
Definition example_csrf_page : Csrf.Event :=
  {| Csrf.method := "GET";
     Csrf.headers_get := fun _ => None;
     Csrf.cookies := [] |}.

Definition example_csrf_request : Csrf.Event :=
  {| Csrf.method := "POST";
     Csrf.headers_get :=
       fun name => if String.eqb name "X-CSRF-Token" then Some "ab"%string else None;
     Csrf.cookies := [("csrf-token", "ab")]%string |}.

(** A store holding one window that closed at 500. *)
Definition example_config : RateLimiter.RateLimitConfig :=
  {| RateLimiter.windowMs := 1000; RateLimiter.maxRequests := 2 |}.

Definition example_store : RateLimiter.Store :=
  [(RateLimiter.key_of "a" example_config,
    {| RateLimiter.Entry.count := 2; RateLimiter.Entry.resetTime := 500 |})]%Z.

(** The same key with a window that is open until 2000. *)
Definition example_open_store : RateLimiter.Store :=
  [(RateLimiter.key_of "a" example_config,
    {| RateLimiter.Entry.count := 1; RateLimiter.Entry.resetTime := 2000 |})]%Z.

Definition example_call (now : Z) (identifier : string) : Call :=
  {| at_now := now; at_nowCleanup := now; by_identifier := identifier;
     with_config := example_config |}.

(** A flip request through the shared handler, sent at [now] with a valid
    CSRF token by the principal of the running example. *)
Definition example_bet_event (now : Z) (uuid : string)
  : GameHandler.BetEvent ProvablyFair.Side :=
  {| GameHandler.http := example_csrf_request;
     GameHandler.csrfRandom := [171]%Z;
     GameHandler.request :=
       {| sessionToken := Some "token"%string;
          validatedUser := Some example_user;
          body := Some {| GameHandler.amount := 50;
                          GameHandler.clientSeed := None;
                          GameHandler.params := ProvablyFair.cat |};
          random32 := [1; 2; 3]%Z;
          random16 := [4; 5]%Z;
          randomUUID := uuid |};
     GameHandler.now1 := now;
     GameHandler.now2 := now;
     GameHandler.now3 := now;
     GameHandler.now4 := now;
     GameHandler.now5 := now |}.

(** * Properties *)

(** ** Comparisons and rounding *)

Lemma Qltb_lt (a b : Q) : Qltb a b = true <-> a < b.
Proof.
  unfold Qltb. rewrite negb_true_iff.
  split; intros H.
  - apply Qnot_le_lt. intros Hle. apply Qle_bool_iff in Hle. congruence.
  - destruct (Qle_bool b a) eqn:E; [|reflexivity].
    apply Qle_bool_iff in E. exfalso. apply (Qlt_not_le _ _ H E).
Qed.

Lemma Qltb_ge (a b : Q) : Qltb a b = false <-> b <= a.
Proof.
  unfold Qltb. rewrite negb_false_iff. apply Qle_bool_iff.
Qed.

Lemma Qle_bool_gt (a b : Q) : Qle_bool a b = false <-> b < a.
Proof.
  split; intros H.
  - apply Qnot_le_lt. intros Hle. apply Qle_bool_iff in Hle. congruence.
  - destruct (Qle_bool a b) eqn:E; [|reflexivity].
    apply Qle_bool_iff in E. exfalso. apply (Qlt_not_le _ _ H E).
Qed.

Lemma Math_round_bounds (x : Q) :
  x - (1 # 2) < Math_round x /\ Math_round x <= x + (1 # 2).
Proof.
  unfold Math_round. split.
  - pose proof (Qlt_floor (x + (1 # 2))) as H.
    rewrite inject_Z_plus in H. change (inject_Z 1) with 1 in H. lra.
  - apply Qfloor_le.
Qed.

Lemma Math_max_spec (a b : Q) : a <= Math_max a b /\ b <= Math_max a b.
Proof.
  unfold Math_max. destruct (Qle_bool a b) eqn:E.
  - apply Qle_bool_iff in E. lra.
  - apply Qle_bool_gt in E. lra.
Qed.

(** ** The hash functions on published test vectors *)

Example sha256_abc :
  SHA256.sha256_hex "abc"
  = "ba7816bf8f01cfea414140de5dae2223b00361a396177a9cb410ff61f20015ad"%string.
Proof. vm_compute. reflexivity. Qed.

Example sha256_two_blocks :
  SHA256.sha256_hex "abcdbcdecdefdefgefghfghighijhijkijkljklmklmnlmnomnopnopq"
  = "248d6a61d20638b8e5c026930c3e6039a33ce45964ff2167f6ecedd419db06c1"%string.
Proof. vm_compute. reflexivity. Qed.

Example hmac_sha256_jefe :
  SHA256.hmac_sha256_hex "Jefe" "what do ya want for nothing?"
  = "5bdcc146bf60754e6a042426089575c75a003f089d2739839dec58b964ec3843"%string.
Proof. vm_compute. reflexivity. Qed.

(** ** Hexadecimal digests *)

Section Hex.

Local Open Scope Z_scope.

Lemma hexval_hexdigit (d : Z) : 0 <= d < 16 -> hexval (SHA256.hexdigit d) = Some d.
Proof.
  intros H.
  assert (E : d = 0 \/ d = 1 \/ d = 2 \/ d = 3 \/ d = 4 \/ d = 5 \/ d = 6 \/ d = 7 \/
              d = 8 \/ d = 9 \/ d = 10 \/ d = 11 \/ d = 12 \/ d = 13 \/ d = 14 \/ d = 15)
    by lia.
  repeat (destruct E as [E | E]; [subst d; reflexivity|]).
  subst d; reflexivity.
Qed.

Lemma mod_pow_succ (b x : Z) (n : nat) :
  0 < b ->
  ((x / b) mod b ^ Z.of_nat n) * b + x mod b = x mod b ^ Z.of_nat (S n).
Proof.
  intros Hb.
  rewrite Nat2Z.inj_succ, Z.pow_succ_r by lia.
  rewrite (Z.rem_mul_r x b (b ^ Z.of_nat n)) by (try apply Z.pow_pos_nonneg; lia).
  ring.
Qed.

(** Reading back the digits written by [hex_digits]. *)
Lemma parse_hex_digits_hex (n : nat) :
  forall (w acc : Z) (rest : string),
    parse_hex_digits acc (SHA256.hex_digits n w rest) =
    parse_hex_digits (acc * 16 ^ Z.of_nat n + w mod 16 ^ Z.of_nat n) rest.
Proof.
  induction n as [|n IH]; intros w acc rest.
  - cbn [SHA256.hex_digits]. change (16 ^ Z.of_nat 0) with 1.
    rewrite Z.mod_1_r. f_equal. lia.
  - cbn [SHA256.hex_digits]. rewrite IH. cbn [parse_hex_digits].
    rewrite hexval_hexdigit by (apply Z.mod_pos_bound; lia).
    f_equal. rewrite <- (mod_pow_succ 16 w n) by lia.
    rewrite Nat2Z.inj_succ, Z.pow_succ_r by lia. ring.
Qed.

Lemma hex_digits_head (n : nat) (w : Z) (rest : string) :
  exists d s, 0 <= d < 16 /\
    SHA256.hex_digits (S n) w rest = String (SHA256.hexdigit d) s.
Proof.
  revert w rest. induction n as [|n IH]; intros w rest.
  - exists (w mod 16), rest. split; [apply Z.mod_pos_bound; lia | reflexivity].
  - change (SHA256.hex_digits (S (S n)) w rest)
      with (SHA256.hex_digits (S n) (w / 16) (String (SHA256.hexdigit (w mod 16)) rest)).
    apply IH.
Qed.

Lemma parseInt16_hex8 (w : Z) :
  0 <= w < 2 ^ 32 -> parseInt16 (SHA256.hex8 w EmptyString) = Some w.
Proof.
  intros Hw. unfold SHA256.hex8.
  destruct (hex_digits_head 7 w EmptyString) as (d & s & Hd & E).
  unfold parseInt16. rewrite E, hexval_hexdigit by exact Hd. rewrite <- E.
  rewrite parse_hex_digits_hex. cbn [parse_hex_digits].
  change (16 ^ Z.of_nat 8) with (2 ^ 32).
  rewrite Z.mod_small by exact Hw. reflexivity.
Qed.

Lemma substring_hex8 (w : Z) (rest : string) :
  substring 0 8 (SHA256.hex8 w rest) = SHA256.hex8 w EmptyString.
Proof.
  unfold SHA256.hex8. cbn [SHA256.hex_digits substring].
  destruct rest; reflexivity.
Qed.

Lemma uint32_be_bytes (n : nat) :
  forall (x acc : Z),
    fold_left (fun acc b => acc * 256 + b) (SHA256.be_bytes n x) acc =
    acc * 256 ^ Z.of_nat n + x mod 256 ^ Z.of_nat n.
Proof.
  induction n as [|n IH]; intros x acc.
  - cbn [SHA256.be_bytes fold_left]. change (256 ^ Z.of_nat 0) with 1.
    rewrite Z.mod_1_r. lia.
  - cbn [SHA256.be_bytes]. rewrite fold_left_app, IH. cbn [fold_left].
    rewrite Z.shiftr_div_pow2 by lia. change (2 ^ 8) with 256.
    change 255 with (Z.ones 8). rewrite Z.land_ones by lia. change (2 ^ 8) with 256.
    rewrite <- (mod_pow_succ 256 x n) by lia.
    rewrite Nat2Z.inj_succ, Z.pow_succ_r by lia. ring.
Qed.

Lemma firstn_digest_bytes (s : SHA256.state) :
  firstn 4 (SHA256.digest_bytes s) = SHA256.be_bytes 4 (SHA256.ha s).
Proof. reflexivity. Qed.

Lemma add32_range (x y : Z) : 0 <= SHA256.add32 x y < 2 ^ 32.
Proof. unfold SHA256.add32. apply Z.mod_pos_bound. lia. Qed.

Lemma fold_compress_word (bs : list (list Z)) :
  forall h, word_state h -> word_state (fold_left SHA256.compress bs h).
Proof.
  induction bs as [|b bs IH]; intros h Hh; [exact Hh|].
  cbn [fold_left]. apply IH. unfold word_state, SHA256.compress. cbn [SHA256.ha].
  apply add32_range.
Qed.

Lemma hash_word (msg : list Z) : word_state (SHA256.hash msg).
Proof.
  unfold SHA256.hash. apply fold_compress_word.
  unfold word_state. cbn. lia.
Qed.

End Hex.

(** ** The fairness engine *)

Lemma hundredths_range (k : Z) :
  (0 <= k < 10000)%Z -> 0 <= inject_Z k / 100 /\ inject_Z k / 100 <= 9999 # 100.
Proof.
  intros Hk. unfold Qle, Qdiv, Qmult, Qinv, inject_Z. cbn. lia.
Qed.

(** Two outcomes [k/100] and [k'/100] are the same number only when
    [k = k']: the 10000 values are pairwise distinct. *)
Lemma hundredths_distinct (k k' : Z) :
  inject_Z k / 100 == inject_Z k' / 100 -> k = k'.
Proof.
  unfold Qeq, Qdiv, Qmult, Qinv, inject_Z. cbn. lia.
Qed.

Lemma hmac_first_word (key msg : list Z) :
  (0 <= SHA256.ha (SHA256.hmac key msg) < 2 ^ 32)%Z.
Proof. unfold SHA256.hmac. apply hash_word. Qed.

Lemma deriveOutcome_first_word (serverSeed clientSeed : string) (nonce : Z) :
  exists w : Z,
    (0 <= w < 2 ^ 32)%Z /\
    SHA256.hmac_sha256_hex serverSeed (clientSeed ++ "-" ++ string_of_int nonce)%string
      = SHA256.hex8 w
          (substring 8 56
             (SHA256.hmac_sha256_hex serverSeed
                (clientSeed ++ "-" ++ string_of_int nonce)%string)) /\
    Spec.deriveOutcome serverSeed clientSeed nonce = inject_Z (w mod 10000) / 100.
Proof.
  set (key := SHA256.bytes_of_string serverSeed).
  set (msg := SHA256.bytes_of_string (clientSeed ++ "-" ++ string_of_int nonce)%string).
  pose proof (hmac_first_word key msg) as Hw.
  exists (SHA256.ha (SHA256.hmac key msg)). split; [exact Hw|]. split.
  - unfold SHA256.hmac_sha256_hex, SHA256.digest_hex. fold key msg. reflexivity.
  - unfold Spec.deriveOutcome, Spec.uint32_be. fold key msg.
    rewrite firstn_digest_bytes, uint32_be_bytes.
    change (256 ^ Z.of_nat 4)%Z with (2 ^ 32)%Z.
    rewrite (Z.mod_small _ (2 ^ 32)) by exact Hw.
    rewrite Z.mul_0_l, Z.add_0_l. reflexivity.
Qed.

Lemma generateGameResult_eq (serverSeed clientSeed : string) (nonce : Z) :
  ProvablyFair.generateGameResult serverSeed clientSeed nonce
    = Some (Spec.deriveOutcome serverSeed clientSeed nonce).
Proof.
  destruct (deriveOutcome_first_word serverSeed clientSeed nonce) as (w & Hw & Hhex & Hspec).
  unfold ProvablyFair.generateGameResult. rewrite Hhex.
  rewrite substring_hex8, parseInt16_hex8 by exact Hw.
  rewrite Z.rem_mod_nonneg by lia. rewrite Hspec. reflexivity.
Qed.

Lemma deriveOutcome_hundredths (serverSeed clientSeed : string) (nonce : Z) :
  exists k : Z,
    (0 <= k < 10000)%Z /\
    Spec.deriveOutcome serverSeed clientSeed nonce = inject_Z k / 100.
Proof.
  destruct (deriveOutcome_first_word serverSeed clientSeed nonce) as (w & Hw & _ & Hspec).
  exists (w mod 10000)%Z. split; [apply Z.mod_pos_bound; lia | exact Hspec].
Qed.

(** C2. For every seed triple, [generateGameResult] is never [NaN] and is
    the value the specification describes: the first four digest bytes of
    HMAC-SHA256(serverSeed, clientSeed + "-" + nonce) as an unsigned 32-bit
    integer, modulo 10000, over 100.  It lies in [0, 99.99] and is [k/100]
    for an integer [k] among the 10000 values 0..9999. *)
Theorem generateGameResult_derivation (serverSeed clientSeed : string) (nonce : Z) :
  ProvablyFair.generateGameResult serverSeed clientSeed nonce
    = Some (Spec.deriveOutcome serverSeed clientSeed nonce) /\
  0 <= Spec.deriveOutcome serverSeed clientSeed nonce /\
  Spec.deriveOutcome serverSeed clientSeed nonce <= 9999 # 100 /\
  exists k : Z,
    (0 <= k < 10000)%Z /\
    Spec.deriveOutcome serverSeed clientSeed nonce = inject_Z k / 100.
Proof.
  destruct (deriveOutcome_hundredths serverSeed clientSeed nonce) as (k & Hk & Ek).
  split; [apply generateGameResult_eq|].
  rewrite Ek.
  split; [apply hundredths_range, Hk|].
  split; [apply hundredths_range, Hk|].
  exists k. split; [exact Hk | reflexivity].
Qed.

Lemma generateGameResult_some (serverSeed clientSeed : string) (nonce : Z) :
  exists k : Z,
    (0 <= k < 10000)%Z /\
    ProvablyFair.generateGameResult serverSeed clientSeed nonce = Some (inject_Z k / 100).
Proof.
  destruct (deriveOutcome_hundredths serverSeed clientSeed nonce) as (k & Hk & Ek).
  exists k. split; [exact Hk|]. rewrite generateGameResult_eq, Ek. reflexivity.
Qed.

Example generateGameResult_abc123 :
  ProvablyFair.generateGameResult "abc123" "xyz" 1 = Some (inject_Z 3243 / 100).
Proof. vm_compute. reflexivity. Qed.

(** ** Multipliers *)

(** C10. The server-side multiplier is total and its division is guarded:
    evaluated with a division that fails on a zero divisor it still
    returns the same number for every input; that number is 1 whenever
    [winChance <= 0], and [(100 - houseEdge) / winChance], with [houseEdge]
    defaulting to 1, whenever [winChance > 0]. *)
Theorem calculateMultiplier_guarded (winChance : Q) (houseEdge : option Q) :
  ProvablyFair.calculateMultiplierChecked winChance houseEdge
    = Some (ProvablyFair.calculateMultiplier winChance houseEdge) /\
  (winChance <= 0 -> ProvablyFair.calculateMultiplier winChance houseEdge = 1) /\
  (0 < winChance ->
     ProvablyFair.calculateMultiplier winChance houseEdge
       = (100 - match houseEdge with Some e => e | None => 1 end) / winChance) /\
  (0 < winChance ->
     ProvablyFair.calculateMultiplier winChance None == 99 / winChance).
Proof.
  unfold ProvablyFair.calculateMultiplierChecked, ProvablyFair.calculateMultiplier,
    ProvablyFair.js_div.
  destruct (Qle_bool winChance 0) eqn:E.
  - apply Qle_bool_iff in E.
    repeat split; try reflexivity; intros H; exfalso; lra.
  - apply Qle_bool_gt in E.
    assert (N : Qeq_bool winChance 0 = false).
    { destruct (Qeq_bool winChance 0) eqn:Z0; [|reflexivity].
      apply Qeq_bool_iff in Z0. exfalso. lra. }
    rewrite N.
    repeat split; try reflexivity; intros H; exfalso; lra.
Qed.

Lemma calculateMultiplier_guarded_witness :
  ProvablyFair.calculateMultiplier (-3) None = 1 /\
  ProvablyFair.calculateMultiplier 50 None == 198 # 100.
Proof.
  split.
  - apply (calculateMultiplier_guarded (-3) None). unfold Qle; simpl; lia.
  - rewrite (proj2 (proj2 (proj2 (calculateMultiplier_guarded 50 None)))).
    + reflexivity.
    + unfold Qlt; simpl; lia.
Defined.

Lemma calculateMultiplier_pos (winChance : Q) :
  0 < winChance -> 0 < ProvablyFair.calculateMultiplier winChance None.
Proof.
  intros H. unfold ProvablyFair.calculateMultiplier.
  apply Qle_bool_gt in H. rewrite H. apply Qle_bool_gt in H.
  apply Qlt_shift_div_l; [exact H | lra].
Qed.



(** ** Settlement, as one equation

    Selections of rows by key. *)

Lemma filter_nil_existsb {A : Type} (f : A -> bool) (l : list A) :
  filter f l = [] -> existsb f l = false.
Proof.
  induction l as [|a l IH]; cbn; [reflexivity|].
  destruct (f a); [discriminate|]. exact IH.
Qed.

Lemma filter_head_true {A : Type} (f : A -> bool) (l : list A) (a : A) (rest : list A) :
  filter f l = a :: rest -> f a = true.
Proof.
  intros E.
  assert (H : In a (filter f l)) by (rewrite E; left; reflexivity).
  apply filter_In in H. apply H.
Qed.

Lemma filter_id_add_balance (uid k : string) (change : Q) (l : list table.user.row) :
  filter (fun r => String.eqb (table.user.id r) k) (map (add_balance uid change) l) =
  map (add_balance uid change) (filter (fun r => String.eqb (table.user.id r) k) l).
Proof.
  induction l as [|a l IH]; [reflexivity|].
  cbn [map filter]. rewrite IH.
  assert (E : table.user.id (add_balance uid change a) = table.user.id a)
    by (unfold add_balance; destruct (String.eqb (table.user.id a) uid); reflexivity).
  rewrite E. destruct (String.eqb (table.user.id a) k); reflexivity.
Qed.

Ltac settle_cases uid db :=
  destruct (filter (fun r => String.eqb (table.userGameSession.userId r) uid)
                   (userGameSessions db)) as [|?s ?ss] eqn:?Es;
  [rewrite (filter_nil_existsb _ _ Es)|];
  cbn [users bets userGameSessions];
  (destruct (filter (fun r => String.eqb (table.user.id r) uid) (users db))
     as [|?u ?us] eqn:?Eu; [reflexivity|]).

Ltac settle_commit :=
  cbn [users bets userGameSessions];
  (destruct (existsb _ (bets _)); [reflexivity|]);
  cbn [users bets userGameSessions];
  rewrite filter_id_add_balance;
  match goal with
  | Eu : filter _ (users _) = ?u :: _ |- _ =>
      rewrite Eu; cbn [map]; unfold add_balance at 1;
      rewrite (filter_head_true _ _ _ _ Eu); reflexivity
  end.

Lemma dice_settle_eq (uid : string) (req : Dice.DiceBetRequest)
    (seed hash cs uuid : string) (db : Database) :
  Dice.settle uid req seed hash cs uuid db =
  match balance_of uid db with
  | None => inl "Insufficient balance"%string
  | Some bal =>
      if Qltb bal (Dice.amount req) then inl "Insufficient balance"%string
      else
        match ProvablyFair.generateDiceRoll seed cs (current_nonce uid db + 1) with
        | None => inl "NOT NULL constraint failed: bet.result"%string
        | Some roll =>
            let b := dice_bet uid req seed hash cs uuid (current_nonce uid db + 1) roll in
            if existsb (fun r => String.eqb (table.bet.id r) uuid) (bets db)
            then inl "UNIQUE constraint failed: bet.id"%string
            else inr (dice_result b (bal + (table.bet.payout b - table.bet.amount b)),
                      committed b db)
        end
  end.
Proof.
  unfold Dice.settle, balance_of, current_nonce, committed, bind, select_userGameSession,
    select_user, insert_userGameSession, insert_bet, update_user_balance,
    update_userGameSession_nonce, ret, throw.
  cbn [table.userGameSession.userId dice_bet table.bet.userId table.bet.payout
       table.bet.amount table.bet.nonce table.bet.id].
  settle_cases uid db;
    (destruct (Qltb (table.user.balance u) (Dice.amount req)); [reflexivity|]);
    (destruct (ProvablyFair.generateDiceRoll seed cs _); [|reflexivity]);
    settle_commit.
Qed.

Lemma flip_settle_eq (uid : string) (req : Flip.CoinFlipBetRequest)
    (seed hash cs uuid : string) (db : Database) :
  Flip.settle uid req seed hash cs uuid db =
  match balance_of uid db with
  | None => inl "Insufficient balance"%string
  | Some bal =>
      if Qltb bal (Flip.amount req) then inl "Insufficient balance"%string
      else
        let nonce := (current_nonce uid db + 1)%Z in
        let b := flip_bet uid req seed hash cs uuid nonce in
        if existsb (fun r => String.eqb (table.bet.id r) uuid) (bets db)
        then inl "UNIQUE constraint failed: bet.id"%string
        else inr (flip_result b (ProvablyFair.generateCoinFlip seed cs nonce)
                              (bal + (table.bet.payout b - table.bet.amount b)),
                  committed b db)
  end.
Proof.
  unfold Flip.settle, balance_of, current_nonce, committed, bind, select_userGameSession,
    select_user, insert_userGameSession, insert_bet, update_user_balance,
    update_userGameSession_nonce, ret, throw.
  cbn [table.userGameSession.userId flip_bet table.bet.userId table.bet.payout
       table.bet.amount table.bet.nonce table.bet.id].
  settle_cases uid db;
    (destruct (Qltb (table.user.balance u) (Flip.amount req)); [reflexivity|]);
    settle_commit.
Qed.

(** ** Validation *)

Lemma calculateDiceWinChance_nonneg (betType : ProvablyFair.BetType) (target : Q) :
  0 <= ProvablyFair.calculateDiceWinChance betType target.
Proof.
  unfold ProvablyFair.calculateDiceWinChance.
  destruct betType; apply Math_max_spec.
Qed.

Lemma validateDiceBet_valid (amount : Q) (betType : ProvablyFair.BetType)
    (target balance : Q) :
  ProvablyFair.valid (ProvablyFair.validateDiceBet amount betType target balance) = true <->
  0 < amount /\ amount <= balance /\
  1 # 100 <= target /\ target <= 9999 # 100 /\
  1 <= ProvablyFair.calculateDiceWinChance betType target /\
  ProvablyFair.calculateDiceWinChance betType target <= 98.
Proof.
  unfold ProvablyFair.validateDiceBet.
  destruct (Qle_bool amount 0) eqn:A.
  { apply Qle_bool_iff in A. cbn. split; [discriminate | intros (H & _); lra]. }
  apply Qle_bool_gt in A.
  destruct (Qltb balance amount) eqn:B.
  { apply Qltb_lt in B. cbn. split; [discriminate | intros (_ & H & _); lra]. }
  apply Qltb_ge in B.
  destruct (Qltb target (1 # 100)) eqn:T1.
  { apply Qltb_lt in T1. cbn. split; [discriminate | intros (_ & _ & H & _); lra]. }
  apply Qltb_ge in T1.
  destruct (Qltb (9999 # 100) target) eqn:T2.
  { apply Qltb_lt in T2. cbn. split; [discriminate | intros (_ & _ & _ & H & _); lra]. }
  apply Qltb_ge in T2. cbn [orb].
  destruct (Qltb (ProvablyFair.calculateDiceWinChance betType target) 1) eqn:W1.
  { apply Qltb_lt in W1. cbn.
    split; [discriminate | intros (_ & _ & _ & _ & H & _); lra]. }
  apply Qltb_ge in W1.
  destruct (Qltb 98 (ProvablyFair.calculateDiceWinChance betType target)) eqn:W2.
  { apply Qltb_lt in W2. cbn.
    split; [discriminate | intros (_ & _ & _ & _ & _ & H); lra]. }
  apply Qltb_ge in W2. cbn.
  split; [intros _; repeat split; assumption | reflexivity].
Qed.

Lemma validateCoinFlipBet_valid (amount : Q) (side : ProvablyFair.Side) (balance : Q) :
  ProvablyFair.valid (ProvablyFair.validateCoinFlipBet amount side balance) = true <->
  0 < amount /\ amount <= balance.
Proof.
  unfold ProvablyFair.validateCoinFlipBet.
  destruct (Qle_bool amount 0) eqn:A.
  { apply Qle_bool_iff in A. cbn. split; [discriminate | intros (H & _); lra]. }
  apply Qle_bool_gt in A.
  destruct (Qltb balance amount) eqn:B.
  { apply Qltb_lt in B. cbn. split; [discriminate | intros (_ & H); lra]. }
  apply Qltb_ge in B.
  destruct side; cbn; (split; [intros _; split; assumption | reflexivity]).
Qed.

(** ** The handlers, case by case *)

Lemma dice_POST_accepted (event : RequestEvent Dice.DiceBetRequest) (db : Database)
    (c : ascii) (token : string) (user : table.user.row) (req : Dice.DiceBetRequest) :
  sessionToken event = Some (String c token) ->
  validatedUser event = Some user ->
  body event = Some req ->
  ProvablyFair.valid
    (ProvablyFair.validateDiceBet (Dice.amount req) (Dice.betType req) (Dice.target req)
                                  (table.user.balance user)) = true ->
  Dice.POST event db =
  match Dice.settle (table.user.id user) req
          (hex_of_bytes (random32 event))
          (SHA256.sha256_hex (hex_of_bytes (random32 event)))
          (finalClientSeed_of (Dice.clientSeed req) (random16 event))
          (randomUUID event) db with
  | inl message => (translate_error message, db)
  | inr (result, db') => (json_success result, db')
  end.
Proof.
  intros Ht Hu Hb Hv. unfold Dice.POST. rewrite Ht, Hu, Hb, Hv.
  cbn [negb ProvablyFair.generateServerSeed]. unfold transaction.
  destruct (Dice.settle _ _ _ _ _ _ db) as [m | [r db']]; reflexivity.
Qed.

Lemma dice_POST_refused (event : RequestEvent Dice.DiceBetRequest) (db : Database) :
  (forall c token user req,
      sessionToken event = Some (String c token) ->
      validatedUser event = Some user ->
      body event = Some req ->
      ProvablyFair.valid
        (ProvablyFair.validateDiceBet (Dice.amount req) (Dice.betType req)
           (Dice.target req) (table.user.balance user)) = false) ->
  exists e s, Dice.POST event db = (json_failure e s, db).
Proof.
  intros H. unfold Dice.POST.
  destruct (sessionToken event) as [[|c token]|] eqn:Ht; [eauto | | eauto].
  destruct (validatedUser event) as [user|] eqn:Hu; [|eauto].
  destruct (body event) as [req|] eqn:Hb; [|eauto].
  rewrite (H c token user req eq_refl eq_refl eq_refl). cbn [negb]. eauto.
Qed.

Lemma flip_POST_accepted (event : RequestEvent Flip.CoinFlipBetRequest) (db : Database)
    (c : ascii) (token : string) (user : table.user.row) (req : Flip.CoinFlipBetRequest) :
  sessionToken event = Some (String c token) ->
  validatedUser event = Some user ->
  body event = Some req ->
  ProvablyFair.valid
    (ProvablyFair.validateCoinFlipBet (Flip.amount req) (Flip.side req)
                                      (table.user.balance user)) = true ->
  Flip.POST event db =
  match Flip.settle (table.user.id user) req
          (hex_of_bytes (random32 event))
          (SHA256.sha256_hex (hex_of_bytes (random32 event)))
          (finalClientSeed_of (Flip.clientSeed req) (random16 event))
          (randomUUID event) db with
  | inl message => (translate_error message, db)
  | inr (result, db') => (json_success result, db')
  end.
Proof.
  intros Ht Hu Hb Hv. unfold Flip.POST. rewrite Ht, Hu, Hb, Hv.
  cbn [negb ProvablyFair.generateServerSeed]. unfold transaction.
  destruct (Flip.settle _ _ _ _ _ _ db) as [m | [r db']]; reflexivity.
Qed.

Lemma flip_POST_refused (event : RequestEvent Flip.CoinFlipBetRequest) (db : Database) :
  (forall c token user req,
      sessionToken event = Some (String c token) ->
      validatedUser event = Some user ->
      body event = Some req ->
      ProvablyFair.valid
        (ProvablyFair.validateCoinFlipBet (Flip.amount req) (Flip.side req)
           (table.user.balance user)) = false) ->
  exists e s, Flip.POST event db = (json_failure e s, db).
Proof.
  intros H. unfold Flip.POST.
  destruct (sessionToken event) as [[|c token]|] eqn:Ht; [eauto | | eauto].
  destruct (validatedUser event) as [user|] eqn:Hu; [|eauto].
  destruct (body event) as [req|] eqn:Hb; [|eauto].
  rewrite (H c token user req eq_refl eq_refl eq_refl). cbn [negb]. eauto.
Qed.

Lemma payout_nonneg (win : bool) (amount multiplier : Q) :
  0 < amount -> 0 < multiplier -> 0 <= (if win then amount * multiplier else 0).
Proof.
  intros Ha Hm. destruct win; [|lra].
  apply Qlt_le_weak. apply Qmult_lt_0_compat; assumption.
Qed.

(** A dice request is either refused, leaving the database as it was, or
    commits one row. *)
Lemma dice_POST_outcome (event : RequestEvent Dice.DiceBetRequest) (db : Database) :
  (exists e s, Dice.POST event db = (json_failure e s, db)) \/
  (exists b r,
      Dice.POST event db = (json_success r, committed b db) /\
      settled db b /\ table.bet.gameType b = table.dice /\
      (exists user, validatedUser event = Some user /\
                    table.bet.userId b = table.user.id user) /\
      Dice.nonce r = table.bet.nonce b).
Proof.
  destruct (sessionToken event) as [[|c token]|] eqn:Ht;
    try (left; apply dice_POST_refused; intros; congruence).
  destruct (validatedUser event) as [user|] eqn:Hu;
    try (left; apply dice_POST_refused; intros; congruence).
  destruct (body event) as [req|] eqn:Hb;
    try (left; apply dice_POST_refused; intros; congruence).
  destruct (ProvablyFair.valid
              (ProvablyFair.validateDiceBet (Dice.amount req) (Dice.betType req)
                 (Dice.target req) (table.user.balance user))) eqn:Hv;
    try (left; apply dice_POST_refused; intros; congruence).
  rewrite (dice_POST_accepted event db c token user req Ht Hu Hb Hv), dice_settle_eq.
  apply validateDiceBet_valid in Hv. destruct Hv as (Ha & _ & _ & _ & Hw & _).
  destruct (balance_of (table.user.id user) db) as [bal|] eqn:Hbal;
    [|left; unfold translate_error; cbn; eauto].
  destruct (Qltb bal (Dice.amount req)) eqn:Hlt;
    [left; unfold translate_error; cbn; eauto|].
  apply Qltb_ge in Hlt.
  destruct (ProvablyFair.generateDiceRoll _ _ _) as [roll|] eqn:Hroll;
    [|left; unfold translate_error; cbn; eauto].
  cbv zeta.
  destruct (existsb _ (bets db)) eqn:Hfresh;
    [left; unfold translate_error; cbn; eauto|].
  right. eexists. eexists. split; [reflexivity|].
  split; [|split; [reflexivity | split; [exists user; split; reflexivity | reflexivity]]].
  constructor; cbn [dice_bet table.bet.userId table.bet.amount table.bet.payout
                    table.bet.nonce table.bet.id table.bet.serverSeedHash
                    table.bet.serverSeed table.bet.gameType table.bet.clientSeed
                    table.bet.result].
  - exists bal. split; [exact Hbal | exact Hlt].
  - exact Ha.
  - apply payout_nonneg; [exact Ha|]. apply calculateMultiplier_pos. lra.
  - reflexivity.
  - exact Hfresh.
  - reflexivity.
  - exact Hroll.
Qed.

(** The same for a flip request. *)
Lemma flip_POST_outcome (event : RequestEvent Flip.CoinFlipBetRequest) (db : Database) :
  (exists e s, Flip.POST event db = (json_failure e s, db)) \/
  (exists b r,
      Flip.POST event db = (json_success r, committed b db) /\
      settled db b /\ table.bet.gameType b = table.flip /\
      (exists user, validatedUser event = Some user /\
                    table.bet.userId b = table.user.id user) /\
      Flip.nonce r = table.bet.nonce b).
Proof.
  destruct (sessionToken event) as [[|c token]|] eqn:Ht;
    try (left; apply flip_POST_refused; intros; congruence).
  destruct (validatedUser event) as [user|] eqn:Hu;
    try (left; apply flip_POST_refused; intros; congruence).
  destruct (body event) as [req|] eqn:Hb;
    try (left; apply flip_POST_refused; intros; congruence).
  destruct (ProvablyFair.valid
              (ProvablyFair.validateCoinFlipBet (Flip.amount req) (Flip.side req)
                 (table.user.balance user))) eqn:Hv;
    try (left; apply flip_POST_refused; intros; congruence).
  rewrite (flip_POST_accepted event db c token user req Ht Hu Hb Hv), flip_settle_eq.
  apply validateCoinFlipBet_valid in Hv. destruct Hv as (Ha & _).
  destruct (balance_of (table.user.id user) db) as [bal|] eqn:Hbal;
    [|left; unfold translate_error; cbn; eauto].
  destruct (Qltb bal (Flip.amount req)) eqn:Hlt;
    [left; unfold translate_error; cbn; eauto|].
  apply Qltb_ge in Hlt.
  cbv zeta.
  destruct (existsb _ (bets db)) eqn:Hfresh;
    [left; unfold translate_error; cbn; eauto|].
  right. eexists. eexists. split; [reflexivity|].
  split; [|split; [reflexivity | split; [exists user; split; reflexivity | reflexivity]]].
  constructor; cbn [flip_bet table.bet.userId table.bet.amount table.bet.payout
                    table.bet.nonce table.bet.id table.bet.serverSeedHash
                    table.bet.serverSeed table.bet.gameType table.bet.clientSeed
                    table.bet.result].
  - exists bal. split; [exact Hbal | exact Hlt].
  - exact Ha.
  - apply payout_nonneg; [exact Ha|]. apply calculateMultiplier_pos. reflexivity.
  - reflexivity.
  - exact Hfresh.
  - reflexivity.
  - reflexivity.
Qed.

(** Every step either leaves the database as it was, registers a
    principal, or commits one settled row. *)
Lemma step_outcome (db db' : Database) :
  step db db' ->
  db' = db \/
  (exists userId username, db' = handleRegister userId username db) \/
  (exists b, settled db b /\ db' = committed b db).
Proof.
  intros [userId username d | event d | event d].
  - right. left. eauto.
  - destruct (dice_POST_outcome event d) as [(e & s & E) | (b & r & E & Hs & _)];
      rewrite E; cbn [snd]; [left; reflexivity | right; right; eauto].
  - destruct (flip_POST_outcome event d) as [(e & s & E) | (b & r & E & Hs & _)];
      rewrite E; cbn [snd]; [left; reflexivity | right; right; eauto].
Qed.

(** ** What a commit does to counters, nonces and balances *)

Lemma filter_session_set_nonce (uid k : string) (n : Z)
    (l : list table.userGameSession.row) :
  filter (fun r => String.eqb (table.userGameSession.userId r) k) (map (set_nonce uid n) l) =
  map (set_nonce uid n) (filter (fun r => String.eqb (table.userGameSession.userId r) k) l).
Proof.
  induction l as [|a l IH]; [reflexivity|].
  cbn [map filter]. rewrite IH.
  assert (E : table.userGameSession.userId (set_nonce uid n a)
              = table.userGameSession.userId a)
    by (unfold set_nonce; destruct (String.eqb (table.userGameSession.userId a) uid);
        reflexivity).
  rewrite E. destruct (String.eqb (table.userGameSession.userId a) k); reflexivity.
Qed.

Lemma current_nonce_committed (b : table.bet.row) (db : Database) (k : string) :
  current_nonce k (committed b db) =
  if String.eqb k (table.bet.userId b) then table.bet.nonce b else current_nonce k db.
Proof.
  unfold current_nonce, committed. cbn [userGameSessions].
  rewrite filter_session_set_nonce.
  set (uid := table.bet.userId b).
  destruct (String.eqb k uid) eqn:E.
  - apply String.eqb_eq in E. subst k.
    destruct (filter (fun r => String.eqb (table.userGameSession.userId r) uid)
                     (userGameSessions db)) as [|s ss] eqn:Es.
    + rewrite filter_app, Es. cbn. rewrite String.eqb_refl. cbn.
      unfold set_nonce. cbn. rewrite String.eqb_refl. reflexivity.
    + rewrite Es. cbn [map]. unfold set_nonce at 1.
      rewrite (filter_head_true _ _ _ _ Es). reflexivity.
  - assert (Hk : forall l,
               map (set_nonce uid (table.bet.nonce b))
                   (filter (fun r => String.eqb (table.userGameSession.userId r) k) l) =
               filter (fun r => String.eqb (table.userGameSession.userId r) k) l).
    { induction l as [|a l IH]; [reflexivity|]. cbn [filter].
      destruct (String.eqb (table.userGameSession.userId a) k) eqn:Ea; [|exact IH].
      cbn [map]. rewrite IH. f_equal. unfold set_nonce.
      apply String.eqb_eq in Ea. rewrite Ea, E. reflexivity. }
    rewrite Hk.
    destruct (filter (fun r => String.eqb (table.userGameSession.userId r) uid)
                     (userGameSessions db)); [|reflexivity].
    rewrite filter_app. cbn [filter table.userGameSession.userId].
    rewrite String.eqb_sym, E, app_nil_r. reflexivity.
Qed.

Lemma nonces_of_committed (b : table.bet.row) (db : Database) (k : string) :
  nonces_of k (committed b db) =
  (nonces_of k db ++
   if String.eqb k (table.bet.userId b) then [table.bet.nonce b] else [])%list.
Proof.
  unfold nonces_of, committed. cbn [bets].
  rewrite filter_app, map_app. cbn [filter]. rewrite (String.eqb_sym k).
  destruct (String.eqb (table.bet.userId b) k); reflexivity.
Qed.

Lemma balance_of_committed (b : table.bet.row) (db : Database) (bal : Q) :
  balance_of (table.bet.userId b) db = Some bal ->
  balance_of (table.bet.userId b) (committed b db)
    = Some (bal + (table.bet.payout b - table.bet.amount b)).
Proof.
  unfold balance_of, committed. cbn [users]. rewrite filter_id_add_balance.
  destruct (filter _ (users db)) as [|u us] eqn:Eu; [discriminate|].
  intros E. injection E as E. subst bal. cbn [map]. unfold add_balance at 1.
  rewrite (filter_head_true _ _ _ _ Eu). reflexivity.
Qed.

Lemma nonce_run_succ (n : nat) :
  nonce_run (S n) = (nonce_run n ++ [(Z.of_nat n + 1)%Z])%list.
Proof.
  unfold nonce_run. rewrite seq_S, map_app. cbn [map]. do 2 f_equal. lia.
Qed.

Lemma nonce_run_NoDup (n : nat) : NoDup (nonce_run n).
Proof.
  unfold nonce_run. apply Finite.Injective_map_NoDup; [|apply seq_NoDup].
  intros x y. apply Nat2Z.inj.
Qed.

(** ** The nonce sequencer *)

Lemma nonce_invariant_step (db db' : Database) :
  nonce_invariant db -> step db db' -> nonce_invariant db'.
Proof.
  intros Hinv Hstep.
  destruct (step_outcome db db' Hstep) as [E | [(u & name & E) | (b & Hs & E)]]; subst db'.
  - exact Hinv.
  - intros uid. destruct (Hinv uid) as (n & Hn & Hc). exists n.
    unfold handleRegister. destruct (existsb _ (users db)); split; assumption.
  - intros uid. destruct (Hinv uid) as (n & Hn & Hc).
    rewrite nonces_of_committed, current_nonce_committed.
    destruct (String.eqb uid (table.bet.userId b)) eqn:E.
    + apply String.eqb_eq in E. subst uid. exists (S n).
      rewrite (settled_nonce _ _ Hs), Hc, Hn, nonce_run_succ. split; [reflexivity | lia].
    + exists n. rewrite app_nil_r. split; assumption.
Qed.

Lemma reachable_nonce_invariant (db : Database) : reachable db -> nonce_invariant db.
Proof.
  induction 1 as [|db db' _ IH Hstep].
  - intros uid. exists 0%nat. split; reflexivity.
  - exact (nonce_invariant_step db db' IH Hstep).
Qed.

Lemma dice_advances_nonce (event : RequestEvent Dice.DiceBetRequest) (db : Database) :
  advances_nonce Dice.nonce (validatedUser event) db (Dice.POST event db).
Proof.
  unfold advances_nonce.
  destruct (dice_POST_outcome event db)
    as [(e & s & E) | (b & r & E & Hs & _ & (user & Hu & Hid) & Hn)];
    rewrite E; cbn [fst snd]; [reflexivity|].
  exists user, b. rewrite Hn, <- Hid, current_nonce_committed, String.eqb_refl.
  repeat split; try reflexivity; [exact Hu | exact (settled_nonce _ _ Hs)].
Qed.

Lemma flip_advances_nonce (event : RequestEvent Flip.CoinFlipBetRequest) (db : Database) :
  advances_nonce Flip.nonce (validatedUser event) db (Flip.POST event db).
Proof.
  unfold advances_nonce.
  destruct (flip_POST_outcome event db)
    as [(e & s & E) | (b & r & E & Hs & _ & (user & Hu & Hid) & Hn)];
    rewrite E; cbn [fst snd]; [reflexivity|].
  exists user, b. rewrite Hn, <- Hid, current_nonce_committed, String.eqb_refl.
  repeat split; try reflexivity; [exact Hu | exact (settled_nonce _ _ Hs)].
Qed.

(** C4. In every committed state, the nonces of each principal's bet
    records, oldest first, are exactly 1, 2, ..., n (strictly increasing, no
    gap, no duplicate) and the principal's counter stands at n.  Each
    settlement hands out the counter plus one (a missing row counts as 0) and
    commits the advanced counter together with the bet row, or changes
    nothing. *)
Theorem nonce_sequence (db : Database) :
  reachable db ->
  (forall uid, exists n : nat,
      nonces_of uid db = nonce_run n /\
      current_nonce uid db = Z.of_nat n /\
      NoDup (nonces_of uid db)) /\
  (forall event, advances_nonce Dice.nonce (validatedUser event) db (Dice.POST event db)) /\
  (forall event, advances_nonce Flip.nonce (validatedUser event) db (Flip.POST event db)).
Proof.
  intros Hr. split; [|split].
  - intros uid. destruct (reachable_nonce_invariant db Hr uid) as (n & Hn & Hc).
    exists n. rewrite Hn. repeat split; [exact Hc | apply nonce_run_NoDup].
  - intros event. apply dice_advances_nonce.
  - intros event. apply flip_advances_nonce.
Qed.

Lemma example_db3_reachable : reachable example_db3.
Proof.
  exact (reachable_step example_db2 example_db3
           (reachable_step example_db1 example_db2
              (reachable_step empty_db example_db1 reachable_empty
                 (step_register "u1" "alice" empty_db))
              (step_dice example_dice_event example_db1))
           (step_flip example_flip_event example_db2)).
Defined.

Lemma nonce_sequence_witness :
  reachable example_db3 /\
  nonces_of "u1" example_db3 = [1; 2]%Z /\
  exists n : nat,
    nonces_of "u1" example_db3 = nonce_run n /\
    current_nonce "u1" example_db3 = Z.of_nat n /\
    NoDup (nonces_of "u1" example_db3).
Proof.
  split; [exact example_db3_reachable|].
  split; [vm_compute; reflexivity|].
  exact (proj1 (nonce_sequence example_db3 example_db3_reachable) "u1"%string).
Defined.

(** ** The ledger *)

Lemma balance_of_unique (db : Database) (u : table.user.row) :
  NoDup (map table.user.id (users db)) ->
  In u (users db) ->
  balance_of (table.user.id u) db = Some (table.user.balance u).
Proof.
  unfold balance_of. induction (users db) as [|a l IH]; intros Hnd Hin; [destruct Hin|].
  cbn [map] in Hnd. inversion Hnd as [|x xs Hnotin Hnd']; subst.
  cbn [filter]. destruct (String.eqb (table.user.id a) (table.user.id u)) eqn:E.
  - destruct Hin as [-> | Hin]; [reflexivity|].
    apply String.eqb_eq in E. exfalso. apply Hnotin. rewrite E.
    apply in_map. exact Hin.
  - destruct Hin as [-> | Hin]; [rewrite String.eqb_refl in E; discriminate|].
    apply IH; assumption.
Qed.

Lemma map_id_add_balance (uid : string) (change : Q) (l : list table.user.row) :
  map table.user.id (map (add_balance uid change) l) = map table.user.id l.
Proof.
  rewrite map_map. apply map_ext. intros a. unfold add_balance.
  destruct (String.eqb (table.user.id a) uid); reflexivity.
Qed.

Lemma balance_invariant_step (db db' : Database) :
  balance_invariant db -> step db db' -> balance_invariant db'.
Proof.
  intros [Hnd Hpos] Hstep.
  destruct (step_outcome db db' Hstep) as [E | [(uid & name & E) | (b & Hs & E)]]; subst db'.
  - split; assumption.
  - unfold handleRegister. destruct (existsb _ (users db)) eqn:Ex; [split; assumption|].
    split; cbn [users].
    + rewrite map_app. cbn [map table.user.id].
      apply NoDup_app; [exact Hnd | repeat constructor; intros [] |].
      intros x Hx [<- | []].
      apply in_map_iff in Hx. destruct Hx as (r & Hr & Hin).
      assert (Hex : existsb (fun r => String.eqb (table.user.id r) uid ||
                                      String.eqb (table.user.username r) name)
                            (users db) = true).
      { apply existsb_exists. exists r. split; [exact Hin|].
        rewrite Hr, String.eqb_refl. reflexivity. }
      congruence.
    + apply Forall_app. split; [exact Hpos|].
      repeat constructor. cbn. lra.
  - destruct Hs as [(bal & Hbal & Hfunds) Hamt Hpay _ _ _ _].
    split; unfold committed; cbn [users].
    + rewrite map_id_add_balance. exact Hnd.
    + apply Forall_map. rewrite Forall_forall in Hpos |- *.
      intros u Hin. pose proof (Hpos u Hin) as Hu. unfold add_balance.
      destruct (String.eqb (table.user.id u) (table.bet.userId b)) eqn:E;
        [|exact Hu].
      cbn [table.user.balance]. apply String.eqb_eq in E.
      pose proof (balance_of_unique db u Hnd Hin) as Hb.
      rewrite E, Hbal in Hb. injection Hb as Hb. subst bal. lra.
Qed.

Lemma reachable_balance_invariant (db : Database) : reachable db -> balance_invariant db.
Proof.
  induction 1 as [|db db' _ IH Hstep].
  - split; constructor.
  - exact (balance_invariant_step db db' IH Hstep).
Qed.

Lemma dice_moves_balance (event : RequestEvent Dice.DiceBetRequest) (db : Database) :
  moves_balance (validatedUser event) db (Dice.POST event db).
Proof.
  unfold moves_balance.
  destruct (dice_POST_outcome event db)
    as [(e & s & E) | (b & r & E & Hs & _ & (user & Hu & Hid) & _)];
    rewrite E; cbn [fst snd]; [reflexivity|].
  destruct (settled_funds _ _ Hs) as (bal & Hbal & Hfunds).
  pose proof (settled_payout _ _ Hs) as Hpay.
  exists user, b, bal. rewrite <- Hid.
  repeat split; try assumption; [apply balance_of_committed; exact Hbal | lra].
Qed.

Lemma flip_moves_balance (event : RequestEvent Flip.CoinFlipBetRequest) (db : Database) :
  moves_balance (validatedUser event) db (Flip.POST event db).
Proof.
  unfold moves_balance.
  destruct (flip_POST_outcome event db)
    as [(e & s & E) | (b & r & E & Hs & _ & (user & Hu & Hid) & _)];
    rewrite E; cbn [fst snd]; [reflexivity|].
  destruct (settled_funds _ _ Hs) as (bal & Hbal & Hfunds).
  pose proof (settled_payout _ _ Hs) as Hpay.
  exists user, b, bal. rewrite <- Hid.
  repeat split; try assumption; [apply balance_of_committed; exact Hbal | lra].
Qed.

(** C5. In every committed state every principal's balance is
    non-negative.  A successful settlement found [amount <= balance] in its
    transaction, paid out a non-negative amount and left
    [balance + payout - amount], which is non-negative; an unsuccessful one
    changed nothing. *)
Theorem balance_nonneg (db : Database) :
  reachable db ->
  Forall (fun u => 0 <= table.user.balance u) (users db) /\
  (forall event, moves_balance (validatedUser event) db (Dice.POST event db)) /\
  (forall event, moves_balance (validatedUser event) db (Flip.POST event db)).
Proof.
  intros Hr. split; [|split].
  - apply (reachable_balance_invariant db Hr).
  - intros event. apply dice_moves_balance.
  - intros event. apply flip_moves_balance.
Qed.

Lemma balance_nonneg_witness :
  reachable example_db3 /\
  balance_of "u1" example_db3 = Some 850 /\
  Forall (fun u => 0 <= table.user.balance u) (users example_db3).
Proof.
  split; [exact example_db3_reachable|].
  split; [vm_compute; reflexivity|].
  exact (proj1 (balance_nonneg example_db3 example_db3_reachable)).
Defined.

(** ** Successful settlements, in full *)

Lemma success_inj {R : Set} (r r' : R) (db db' : Database) :
  (json_success r, db) = (json_success r', db') -> r = r' /\ db = db'.
Proof. intros H. injection H as H1 H2. split; assumption. Qed.

Lemma dice_POST_success (event : RequestEvent Dice.DiceBetRequest) (db db' : Database)
    (r : Dice.DiceBetResult) :
  Dice.POST event db = (json_success r, db') ->
  exists user req bal roll,
    validatedUser event = Some user /\
    body event = Some req /\
    ProvablyFair.valid
      (ProvablyFair.validateDiceBet (Dice.amount req) (Dice.betType req)
         (Dice.target req) (table.user.balance user)) = true /\
    balance_of (table.user.id user) db = Some bal /\
    Dice.amount req <= bal /\
    let nonce := (current_nonce (table.user.id user) db + 1)%Z in
    let seed := hex_of_bytes (random32 event) in
    let cs := finalClientSeed_of (Dice.clientSeed req) (random16 event) in
    ProvablyFair.generateDiceRoll seed cs nonce = Some roll /\
    let b := dice_bet (table.user.id user) req seed (SHA256.sha256_hex seed) cs
                      (randomUUID event) nonce roll in
    r = dice_result b (bal + (table.bet.payout b - table.bet.amount b)) /\
    db' = committed b db.
Proof.
  intros H.
  assert (Hno : ~ exists e s, Dice.POST event db = (json_failure e s, db)).
  { intros (e & s & E). rewrite E in H. discriminate H. }
  destruct (sessionToken event) as [[|c token]|] eqn:Ht;
    try (exfalso; apply Hno, dice_POST_refused; intros; congruence).
  destruct (validatedUser event) as [user|] eqn:Hu;
    try (exfalso; apply Hno, dice_POST_refused; intros; congruence).
  destruct (body event) as [req|] eqn:Hb;
    try (exfalso; apply Hno, dice_POST_refused; intros; congruence).
  destruct (ProvablyFair.valid
              (ProvablyFair.validateDiceBet (Dice.amount req) (Dice.betType req)
                 (Dice.target req) (table.user.balance user))) eqn:Hv;
    try (exfalso; apply Hno, dice_POST_refused; intros; congruence).
  rewrite (dice_POST_accepted event db c token user req Ht Hu Hb Hv), dice_settle_eq in H.
  destruct (balance_of (table.user.id user) db) as [bal|] eqn:Hbal;
    [|discriminate H].
  destruct (Qltb bal (Dice.amount req)) eqn:Hlt; [discriminate H|].
  apply Qltb_ge in Hlt.
  destruct (ProvablyFair.generateDiceRoll _ _ _) as [roll|] eqn:Hroll;
    [|discriminate H].
  cbv zeta in H.
  destruct (existsb _ (bets db)) eqn:Hfresh; [discriminate H|].
  destruct (success_inj _ _ _ _ H) as [Hr Hdb].
  exists user, req, bal, roll. cbv zeta.
  repeat split; try reflexivity; try assumption; symmetry; assumption.
Qed.

Lemma flip_POST_success (event : RequestEvent Flip.CoinFlipBetRequest) (db db' : Database)
    (r : Flip.CoinFlipBetResult) :
  Flip.POST event db = (json_success r, db') ->
  exists user req bal,
    validatedUser event = Some user /\
    body event = Some req /\
    ProvablyFair.valid
      (ProvablyFair.validateCoinFlipBet (Flip.amount req) (Flip.side req)
         (table.user.balance user)) = true /\
    balance_of (table.user.id user) db = Some bal /\
    Flip.amount req <= bal /\
    let nonce := (current_nonce (table.user.id user) db + 1)%Z in
    let seed := hex_of_bytes (random32 event) in
    let cs := finalClientSeed_of (Flip.clientSeed req) (random16 event) in
    let b := flip_bet (table.user.id user) req seed (SHA256.sha256_hex seed) cs
                      (randomUUID event) nonce in
    r = flip_result b (ProvablyFair.generateCoinFlip seed cs nonce)
                    (bal + (table.bet.payout b - table.bet.amount b)) /\
    db' = committed b db.
Proof.
  intros H.
  assert (Hno : ~ exists e s, Flip.POST event db = (json_failure e s, db)).
  { intros (e & s & E). rewrite E in H. discriminate H. }
  destruct (sessionToken event) as [[|c token]|] eqn:Ht;
    try (exfalso; apply Hno, flip_POST_refused; intros; congruence).
  destruct (validatedUser event) as [user|] eqn:Hu;
    try (exfalso; apply Hno, flip_POST_refused; intros; congruence).
  destruct (body event) as [req|] eqn:Hb;
    try (exfalso; apply Hno, flip_POST_refused; intros; congruence).
  destruct (ProvablyFair.valid
              (ProvablyFair.validateCoinFlipBet (Flip.amount req) (Flip.side req)
                 (table.user.balance user))) eqn:Hv;
    try (exfalso; apply Hno, flip_POST_refused; intros; congruence).
  rewrite (flip_POST_accepted event db c token user req Ht Hu Hb Hv), flip_settle_eq in H.
  destruct (balance_of (table.user.id user) db) as [bal|] eqn:Hbal;
    [|discriminate H].
  destruct (Qltb bal (Flip.amount req)) eqn:Hlt; [discriminate H|].
  apply Qltb_ge in Hlt.
  cbv zeta in H.
  destruct (existsb _ (bets db)) eqn:Hfresh; [discriminate H|].
  destruct (success_inj _ _ _ _ H) as [Hr Hdb].
  exists user, req, bal. cbv zeta.
  repeat split; try reflexivity; try assumption; symmetry; assumption.
Qed.

(** A valid request from an authenticated principal whose balance covers
    the amount is settled, provided the bet id drawn is new. *)
Lemma dice_POST_succeeds (event : RequestEvent Dice.DiceBetRequest) (db : Database)
    (c : ascii) (token : string) (user : table.user.row) (req : Dice.DiceBetRequest)
    (bal : Q) :
  sessionToken event = Some (String c token) ->
  validatedUser event = Some user ->
  body event = Some req ->
  ProvablyFair.valid
    (ProvablyFair.validateDiceBet (Dice.amount req) (Dice.betType req) (Dice.target req)
                                  (table.user.balance user)) = true ->
  balance_of (table.user.id user) db = Some bal ->
  Dice.amount req <= bal ->
  existsb (fun r => String.eqb (table.bet.id r) (randomUUID event)) (bets db) = false ->
  exists r b, Dice.POST event db = (json_success r, committed b db).
Proof.
  intros Ht Hu Hb Hv Hbal Hle Hfresh.
  rewrite (dice_POST_accepted event db c token user req Ht Hu Hb Hv), dice_settle_eq, Hbal.
  apply Qltb_ge in Hle. rewrite Hle.
  destruct (generateGameResult_some (hex_of_bytes (random32 event))
              (finalClientSeed_of (Dice.clientSeed req) (random16 event))
              (current_nonce (table.user.id user) db + 1)) as (k & _ & Ek).
  unfold ProvablyFair.generateDiceRoll. rewrite Ek. cbv zeta. rewrite Hfresh.
  eauto.
Qed.

Lemma flip_POST_succeeds (event : RequestEvent Flip.CoinFlipBetRequest) (db : Database)
    (c : ascii) (token : string) (user : table.user.row) (req : Flip.CoinFlipBetRequest)
    (bal : Q) :
  sessionToken event = Some (String c token) ->
  validatedUser event = Some user ->
  body event = Some req ->
  ProvablyFair.valid
    (ProvablyFair.validateCoinFlipBet (Flip.amount req) (Flip.side req)
                                      (table.user.balance user)) = true ->
  balance_of (table.user.id user) db = Some bal ->
  Flip.amount req <= bal ->
  existsb (fun r => String.eqb (table.bet.id r) (randomUUID event)) (bets db) = false ->
  exists r b, Flip.POST event db = (json_success r, committed b db).
Proof.
  intros Ht Hu Hb Hv Hbal Hle Hfresh.
  rewrite (flip_POST_accepted event db c token user req Ht Hu Hb Hv), flip_settle_eq, Hbal.
  apply Qltb_ge in Hle. rewrite Hle. cbv zeta. rewrite Hfresh.
  eauto.
Qed.

(** ** Insufficient balance *)

Lemma dice_insufficient (event : RequestEvent Dice.DiceBetRequest) (db : Database)
    (user : table.user.row) (req : Dice.DiceBetRequest) (bal : Q) :
  validatedUser event = Some user ->
  body event = Some req ->
  balance_of (table.user.id user) db = Some bal ->
  bal < Dice.amount req ->
  snd (Dice.POST event db) = db /\
  (forall r, fst (Dice.POST event db) <> json_success r) /\
  (forall c token,
      sessionToken event = Some (String c token) ->
      ProvablyFair.valid
        (ProvablyFair.validateDiceBet (Dice.amount req) (Dice.betType req)
           (Dice.target req) (table.user.balance user)) = true ->
      Dice.POST event db = (json_failure (Some "Insufficient balance"%string) 400, db)).
Proof.
  intros Hu Hb Hbal Hlt.
  assert (Hreach : forall c token,
             sessionToken event = Some (String c token) ->
             ProvablyFair.valid
               (ProvablyFair.validateDiceBet (Dice.amount req) (Dice.betType req)
                  (Dice.target req) (table.user.balance user)) = true ->
             Dice.POST event db
               = (json_failure (Some "Insufficient balance"%string) 400, db)).
  { intros c token Ht Hv.
    rewrite (dice_POST_accepted event db c token user req Ht Hu Hb Hv), dice_settle_eq, Hbal.
    apply Qltb_lt in Hlt. rewrite Hlt. reflexivity. }
  assert (Hfail : exists e s, Dice.POST event db = (json_failure e s, db)).
  { destruct (sessionToken event) as [[|c token]|] eqn:Ht;
      try (apply dice_POST_refused; intros; congruence).
    destruct (ProvablyFair.valid
                (ProvablyFair.validateDiceBet (Dice.amount req) (Dice.betType req)
                   (Dice.target req) (table.user.balance user))) eqn:Hv.
    - rewrite (Hreach c token eq_refl eq_refl). eauto.
    - apply dice_POST_refused. intros; congruence. }
  destruct Hfail as (e & s & E).
  split; [rewrite E; reflexivity|].
  split; [intros r; rewrite E; discriminate | exact Hreach].
Qed.

Lemma flip_insufficient (event : RequestEvent Flip.CoinFlipBetRequest) (db : Database)
    (user : table.user.row) (req : Flip.CoinFlipBetRequest) (bal : Q) :
  validatedUser event = Some user ->
  body event = Some req ->
  balance_of (table.user.id user) db = Some bal ->
  bal < Flip.amount req ->
  snd (Flip.POST event db) = db /\
  (forall r, fst (Flip.POST event db) <> json_success r) /\
  (forall c token,
      sessionToken event = Some (String c token) ->
      ProvablyFair.valid
        (ProvablyFair.validateCoinFlipBet (Flip.amount req) (Flip.side req)
           (table.user.balance user)) = true ->
      Flip.POST event db = (json_failure (Some "Insufficient balance"%string) 400, db)).
Proof.
  intros Hu Hb Hbal Hlt.
  assert (Hreach : forall c token,
             sessionToken event = Some (String c token) ->
             ProvablyFair.valid
               (ProvablyFair.validateCoinFlipBet (Flip.amount req) (Flip.side req)
                  (table.user.balance user)) = true ->
             Flip.POST event db
               = (json_failure (Some "Insufficient balance"%string) 400, db)).
  { intros c token Ht Hv.
    rewrite (flip_POST_accepted event db c token user req Ht Hu Hb Hv), flip_settle_eq, Hbal.
    apply Qltb_lt in Hlt. rewrite Hlt. reflexivity. }
  assert (Hfail : exists e s, Flip.POST event db = (json_failure e s, db)).
  { destruct (sessionToken event) as [[|c token]|] eqn:Ht;
      try (apply flip_POST_refused; intros; congruence).
    destruct (ProvablyFair.valid
                (ProvablyFair.validateCoinFlipBet (Flip.amount req) (Flip.side req)
                   (table.user.balance user))) eqn:Hv.
    - rewrite (Hreach c token eq_refl eq_refl). eauto.
    - apply flip_POST_refused. intros; congruence. }
  destruct Hfail as (e & s & E).
  split; [rewrite E; reflexivity|].
  split; [intros r; rewrite E; discriminate | exact Hreach].
Qed.

(** The check made before the transaction, on the session's snapshot. *)
Lemma dice_insufficient_snapshot (event : RequestEvent Dice.DiceBetRequest) (db : Database)
    (c : ascii) (token : string) (user : table.user.row) (req : Dice.DiceBetRequest) :
  sessionToken event = Some (String c token) ->
  validatedUser event = Some user ->
  body event = Some req ->
  0 < Dice.amount req ->
  table.user.balance user < Dice.amount req ->
  Dice.POST event db = (json_failure (Some "Insufficient balance"%string) 400, db).
Proof.
  intros Ht Hu Hb Ha Hlt. unfold Dice.POST. rewrite Ht, Hu, Hb.
  unfold ProvablyFair.validateDiceBet.
  apply Qle_bool_gt in Ha. rewrite Ha. apply Qltb_lt in Hlt. rewrite Hlt. reflexivity.
Qed.

Lemma flip_insufficient_snapshot (event : RequestEvent Flip.CoinFlipBetRequest)
    (db : Database) (c : ascii) (token : string) (user : table.user.row)
    (req : Flip.CoinFlipBetRequest) :
  sessionToken event = Some (String c token) ->
  validatedUser event = Some user ->
  body event = Some req ->
  0 < Flip.amount req ->
  table.user.balance user < Flip.amount req ->
  Flip.POST event db = (json_failure (Some "Insufficient balance"%string) 400, db).
Proof.
  intros Ht Hu Hb Ha Hlt. unfold Flip.POST. rewrite Ht, Hu, Hb.
  unfold ProvablyFair.validateCoinFlipBet.
  apply Qle_bool_gt in Ha. rewrite Ha. apply Qltb_lt in Hlt. rewrite Hlt. reflexivity.
Qed.

(** C3. When the balance read inside the transaction is below the wagered
    amount, the request is answered with a failure and the database is
    exactly what it was: same balance, no bet row, no counter row created
    or advanced.  Whenever the request got as far as the transaction, the
    failure is [Insufficient balance] with status 400; so it is when a
    positive amount already exceeds the balance of the session's
    snapshot. *)
Theorem insufficient_balance_atomic :
  (forall (event : RequestEvent Dice.DiceBetRequest) (db : Database)
          (user : table.user.row) (req : Dice.DiceBetRequest) (bal : Q),
      validatedUser event = Some user ->
      body event = Some req ->
      balance_of (table.user.id user) db = Some bal ->
      bal < Dice.amount req ->
      snd (Dice.POST event db) = db /\
      (forall r, fst (Dice.POST event db) <> json_success r) /\
      (forall c token,
          sessionToken event = Some (String c token) ->
          ProvablyFair.valid
            (ProvablyFair.validateDiceBet (Dice.amount req) (Dice.betType req)
               (Dice.target req) (table.user.balance user)) = true ->
          Dice.POST event db
            = (json_failure (Some "Insufficient balance"%string) 400, db)) /\
      (forall c token,
          sessionToken event = Some (String c token) ->
          0 < Dice.amount req ->
          table.user.balance user < Dice.amount req ->
          Dice.POST event db
            = (json_failure (Some "Insufficient balance"%string) 400, db))) /\
  (forall (event : RequestEvent Flip.CoinFlipBetRequest) (db : Database)
          (user : table.user.row) (req : Flip.CoinFlipBetRequest) (bal : Q),
      validatedUser event = Some user ->
      body event = Some req ->
      balance_of (table.user.id user) db = Some bal ->
      bal < Flip.amount req ->
      snd (Flip.POST event db) = db /\
      (forall r, fst (Flip.POST event db) <> json_success r) /\
      (forall c token,
          sessionToken event = Some (String c token) ->
          ProvablyFair.valid
            (ProvablyFair.validateCoinFlipBet (Flip.amount req) (Flip.side req)
               (table.user.balance user)) = true ->
          Flip.POST event db
            = (json_failure (Some "Insufficient balance"%string) 400, db)) /\
      (forall c token,
          sessionToken event = Some (String c token) ->
          0 < Flip.amount req ->
          table.user.balance user < Flip.amount req ->
          Flip.POST event db
            = (json_failure (Some "Insufficient balance"%string) 400, db))).
Proof.
  split.
  - intros event db user req bal Hu Hb Hbal Hlt.
    destruct (dice_insufficient event db user req bal Hu Hb Hbal Hlt) as (H1 & H2 & H3).
    repeat split; try assumption.
    intros c token Ht Ha Hs.
    exact (dice_insufficient_snapshot event db c token user req Ht Hu Hb Ha Hs).
  - intros event db user req bal Hu Hb Hbal Hlt.
    destruct (flip_insufficient event db user req bal Hu Hb Hbal Hlt) as (H1 & H2 & H3).
    repeat split; try assumption.
    intros c token Ht Ha Hs.
    exact (flip_insufficient_snapshot event db c token user req Ht Hu Hb Ha Hs).
Qed.

Lemma insufficient_balance_atomic_witness :
  Dice.POST example_overdraw_dice example_db1
    = (json_failure (Some "Insufficient balance"%string) 400, example_db1) /\
  Flip.POST example_overdraw_flip example_db1
    = (json_failure (Some "Insufficient balance"%string) 400, example_db1).
Proof.
  split.
  - refine (proj1 (proj2 (proj2 (proj1 insufficient_balance_atomic example_overdraw_dice
                            example_db1 example_stale_user _ 1000 eq_refl eq_refl _ _)))
                  "t"%char "oken"%string eq_refl _).
    + vm_compute. reflexivity.
    + vm_compute. reflexivity.
    + vm_compute. reflexivity.
  - refine (proj1 (proj2 (proj2 (proj2 insufficient_balance_atomic example_overdraw_flip
                            example_db1 example_stale_user _ 1000 eq_refl eq_refl _ _)))
                  "t"%char "oken"%string eq_refl _).
    + vm_compute. reflexivity.
    + vm_compute. reflexivity.
    + vm_compute. reflexivity.
Defined.

(** ** Dice *)

(** C7. A dice request with [target] outside [0.01, 99.99], a win chance
    outside [1, 98] or a non-positive amount does not pass validation,
    whatever the balance: the handler refuses it and returns the database it
    was given, for every database, and for an authenticated principal the
    answer is the validation error with status 400.  Every settled dice bet
    has [0.01 <= target <= 99.99], a win chance within [1, 98] and a
    positive amount. *)
Theorem dice_bet_validation :
  (forall (amount : Q) (betType : ProvablyFair.BetType) (target balance : Q),
      target < 1 # 100 \/ 9999 # 100 < target \/
      ProvablyFair.calculateDiceWinChance betType target < 1 \/
      98 < ProvablyFair.calculateDiceWinChance betType target \/
      amount <= 0 ->
      ProvablyFair.valid (ProvablyFair.validateDiceBet amount betType target balance)
        = false) /\
  (forall (event : RequestEvent Dice.DiceBetRequest) (req : Dice.DiceBetRequest),
      body event = Some req ->
      Dice.target req < 1 # 100 \/ 9999 # 100 < Dice.target req \/
      ProvablyFair.calculateDiceWinChance (Dice.betType req) (Dice.target req) < 1 \/
      98 < ProvablyFair.calculateDiceWinChance (Dice.betType req) (Dice.target req) \/
      Dice.amount req <= 0 ->
      forall db : Database,
        (exists e s, Dice.POST event db = (json_failure e s, db)) /\
        (forall c token user,
            sessionToken event = Some (String c token) ->
            validatedUser event = Some user ->
            Dice.POST event db =
            (json_failure
               (ProvablyFair.error
                  (ProvablyFair.validateDiceBet (Dice.amount req) (Dice.betType req)
                     (Dice.target req) (table.user.balance user))) 400, db))) /\
  (forall (event : RequestEvent Dice.DiceBetRequest) (db db' : Database)
          (r : Dice.DiceBetResult),
      Dice.POST event db = (json_success r, db') ->
      exists req,
        body event = Some req /\
        1 # 100 <= Dice.target req /\ Dice.target req <= 9999 # 100 /\
        1 <= ProvablyFair.calculateDiceWinChance (Dice.betType req) (Dice.target req) /\
        ProvablyFair.calculateDiceWinChance (Dice.betType req) (Dice.target req) <= 98 /\
        0 < Dice.amount req).
Proof.
  assert (Hbad : forall (amount : Q) (betType : ProvablyFair.BetType) (target balance : Q),
             target < 1 # 100 \/ 9999 # 100 < target \/
             ProvablyFair.calculateDiceWinChance betType target < 1 \/
             98 < ProvablyFair.calculateDiceWinChance betType target \/
             amount <= 0 ->
             ProvablyFair.valid
               (ProvablyFair.validateDiceBet amount betType target balance) = false).
  { intros amount betType target balance H.
    destruct (ProvablyFair.valid
                (ProvablyFair.validateDiceBet amount betType target balance)) eqn:E;
      [|reflexivity].
    apply validateDiceBet_valid in E.
    destruct E as (Ha & _ & Ht1 & Ht2 & Hw1 & Hw2).
    exfalso. destruct H as [H | [H | [H | [H | H]]]]; lra. }
  split; [exact Hbad|split].
  - intros event req Hb H db. split.
    + apply dice_POST_refused. intros c token user req' _ _ Hb'.
      rewrite Hb in Hb'. injection Hb' as <-. apply Hbad, H.
    + intros c token user Ht Hu.
      unfold Dice.POST. rewrite Ht, Hu, Hb, (Hbad _ _ _ _ H). reflexivity.
  - intros event db db' r H.
    destruct (dice_POST_success event db db' r H)
      as (user & req & bal & roll & _ & Hb & Hv & _).
    apply validateDiceBet_valid in Hv.
    destruct Hv as (Ha & _ & Ht1 & Ht2 & Hw1 & Hw2).
    exists req. repeat split; assumption.
Qed.

Lemma dice_bet_validation_witness :
  ProvablyFair.valid (ProvablyFair.validateDiceBet 10 ProvablyFair.under 100 1000) = false /\
  Dice.POST example_bad_target example_db1
    = (json_failure (Some "Target must be between 0.01 and 99.99"%string) 400,
       example_db1) /\
  exists req,
    body example_dice_event = Some req /\
    1 # 100 <= Dice.target req /\ Dice.target req <= 9999 # 100 /\
    1 <= ProvablyFair.calculateDiceWinChance (Dice.betType req) (Dice.target req) /\
    ProvablyFair.calculateDiceWinChance (Dice.betType req) (Dice.target req) <= 98 /\
    0 < Dice.amount req.
Proof.
  split; [|split].
  - apply (proj1 dice_bet_validation). right. left. vm_compute. reflexivity.
  - refine (proj2 (proj1 (proj2 dice_bet_validation) example_bad_target _ eq_refl _
                     example_db1)
                  "t"%char "oken"%string example_user eq_refl eq_refl).
    right. left. vm_compute. reflexivity.
  - refine (proj2 (proj2 dice_bet_validation) example_dice_event example_db1
              example_db2 _ _).
    vm_compute. reflexivity.
Defined.

(** C6. A dice roll wins exactly when the bet is [over] and the roll is
    above the target, or [under] and the roll is below it; the multiplier
    is [(100 - 1) / winChance].  A settled bet of 100 on [over 50] by a
    principal whose balance is 1000 has win chance 50 and multiplier 1.98;
    it wins exactly when the roll is above 50, and then pays 198 and
    leaves a balance of 1098; otherwise it pays 0 and leaves 900. *)
Theorem dice_settlement_math :
  (forall (roll : Q) (betType : ProvablyFair.BetType) (target : Q),
      ProvablyFair.isDiceWin roll betType target = true <->
      (betType = ProvablyFair.over /\ target < roll) \/
      (betType = ProvablyFair.under /\ roll < target)) /\
  (forall winChance : Q,
      0 < winChance ->
      ProvablyFair.calculateMultiplier winChance None == (100 - 1) / winChance) /\
  (forall (event : RequestEvent Dice.DiceBetRequest) (db db' : Database)
          (user : table.user.row) (cs : option string) (r : Dice.DiceBetResult),
      validatedUser event = Some user ->
      body event = Some {| Dice.amount := 100; Dice.betType := ProvablyFair.over;
                           Dice.target := 50; Dice.clientSeed := cs |} ->
      balance_of (table.user.id user) db = Some 1000 ->
      Dice.POST event db = (json_success r, db') ->
      exists b nb,
        bets db' = (bets db ++ [b])%list /\
        table.bet.gameData b = table.diceData ProvablyFair.over 50 50 /\
        table.bet.multiplier b == 198 # 100 /\
        (table.bet.win b = true <-> 50 < table.bet.result b) /\
        Dice.win r = table.bet.win b /\
        balance_of (table.user.id user) db' = Some nb /\
        if table.bet.win b
        then table.bet.payout b == 198 /\ nb == 1098 /\ Dice.newBalance r == 1098
        else table.bet.payout b == 0 /\ nb == 900 /\ Dice.newBalance r == 900).
Proof.
  split; [|split].
  - intros roll betType target. unfold ProvablyFair.isDiceWin.
    destruct betType; rewrite Qltb_lt; split.
    + intros H. left. split; [reflexivity | exact H].
    + intros [[_ H] | [E _]]; [exact H | discriminate E].
    + intros H. right. split; [reflexivity | exact H].
    + intros [[E _] | [_ H]]; [discriminate E | exact H].
  - intros winChance H. unfold ProvablyFair.calculateMultiplier.
    apply Qle_bool_gt in H. rewrite H. reflexivity.
  - intros event db db' user cs r Hu Hb Hbal H.
    destruct (dice_POST_success event db db' r H)
      as (user' & req & bal & roll & Hu' & Hb' & _ & Hbal' & _ & _ & Hr & Hdb).
    rewrite Hu in Hu'. injection Hu' as <-.
    rewrite Hb in Hb'. injection Hb' as <-.
    rewrite Hbal in Hbal'. injection Hbal' as <-.
    match type of Hdb with _ = committed ?B _ => set (b := B) in * end.
    exists b, (1000 + (table.bet.payout b - table.bet.amount b)).
    split; [rewrite Hdb; reflexivity|].
    split; [reflexivity|].
    split; [reflexivity|].
    split; [apply Qltb_lt|].
    split; [rewrite Hr; reflexivity|].
    split; [rewrite Hdb; exact (balance_of_committed b db 1000 Hbal)|].
    rewrite Hr. subst b.
    cbn [dice_bet table.bet.win table.bet.payout table.bet.amount Dice.amount
         Dice.betType Dice.target dice_result Dice.newBalance ProvablyFair.isDiceWin].
    destruct (Qltb 50 roll); repeat split; vm_compute; reflexivity.
Qed.

Lemma dice_settlement_math_witness :
  balance_of "u1" example_db1 = Some 1000 /\
  exists r,
    Dice.POST example_dice_win_event example_db1
      = (json_success r, snd (Dice.POST example_dice_win_event example_db1)) /\
    Dice.win r = true /\
    Dice.newBalance r == 1098 /\
    exists b nb,
      bets (snd (Dice.POST example_dice_win_event example_db1))
        = (bets example_db1 ++ [b])%list /\
      table.bet.gameData b = table.diceData ProvablyFair.over 50 50 /\
      table.bet.multiplier b == 198 # 100 /\
      (table.bet.win b = true <-> 50 < table.bet.result b) /\
      Dice.win r = table.bet.win b /\
      balance_of "u1" (snd (Dice.POST example_dice_win_event example_db1)) = Some nb /\
      if table.bet.win b
      then table.bet.payout b == 198 /\ nb == 1098 /\ Dice.newBalance r == 1098
      else table.bet.payout b == 0 /\ nb == 900 /\ Dice.newBalance r == 900.
Proof.
  split; [vm_compute; reflexivity|].
  eexists.
  split; [vm_compute; reflexivity|].
  split; [vm_compute; reflexivity|].
  split; [vm_compute; reflexivity|].
  refine (proj2 (proj2 dice_settlement_math) example_dice_win_event example_db1 _
            example_user (Some "xyz"%string) _ eq_refl eq_refl _ _).
  - vm_compute. reflexivity.
  - vm_compute. reflexivity.
Defined.

(** ** Coin flip *)

Lemma generateCoinFlip_eq (serverSeed clientSeed : string) (nonce : Z) :
  ProvablyFair.generateCoinFlip serverSeed clientSeed nonce =
  if Qltb (Spec.deriveOutcome serverSeed clientSeed nonce) 50 then 0%Z else 1%Z.
Proof.
  unfold ProvablyFair.generateCoinFlip. rewrite generateGameResult_eq. reflexivity.
Qed.

(** C8. The flip value is 0 (cat) when the derived outcome is below 50 and
    1 (dog) otherwise; a bet wins exactly when its side is the one the
    value stands for; the fixed win chance 49.5 gives the multiplier 2.  A
    settled bet of 50 by a principal whose balance is 500 wins exactly when
    the side shown is the side chosen, and then pays 100 and leaves 550;
    otherwise it pays 0 and leaves 450. *)
Theorem coin_flip_semantics :
  (forall (serverSeed clientSeed : string) (nonce : Z),
      (Spec.deriveOutcome serverSeed clientSeed nonce < 50 ->
       ProvablyFair.generateCoinFlip serverSeed clientSeed nonce = 0%Z) /\
      (50 <= Spec.deriveOutcome serverSeed clientSeed nonce ->
       ProvablyFair.generateCoinFlip serverSeed clientSeed nonce = 1%Z)) /\
  (forall (result : Z) (betSide : ProvablyFair.Side),
      ProvablyFair.isCoinFlipWin result betSide = true <->
      result = match betSide with ProvablyFair.cat => 0%Z | ProvablyFair.dog => 1%Z end) /\
  ProvablyFair.calculateMultiplier (495 # 10) None == 2 /\
  (forall (event : RequestEvent Flip.CoinFlipBetRequest) (db db' : Database)
          (user : table.user.row) (side : ProvablyFair.Side) (cs : option string)
          (r : Flip.CoinFlipBetResult),
      validatedUser event = Some user ->
      body event = Some {| Flip.amount := 50; Flip.side := side; Flip.clientSeed := cs |} ->
      balance_of (table.user.id user) db = Some 500 ->
      Flip.POST event db = (json_success r, db') ->
      exists b nb,
        bets db' = (bets db ++ [b])%list /\
        table.bet.gameData b = table.flipData side (495 # 10) /\
        table.bet.multiplier b == 2 /\
        (table.bet.win b = true <-> Flip.flipResult r = side) /\
        Flip.win r = table.bet.win b /\
        balance_of (table.user.id user) db' = Some nb /\
        if table.bet.win b
        then table.bet.payout b == 100 /\ nb == 550 /\ Flip.newBalance r == 550
        else table.bet.payout b == 0 /\ nb == 450 /\ Flip.newBalance r == 450).
Proof.
  split; [|split; [|split]].
  - intros serverSeed clientSeed nonce. rewrite generateCoinFlip_eq. split; intros H.
    + apply Qltb_lt in H. rewrite H. reflexivity.
    + apply Qltb_ge in H. rewrite H. reflexivity.
  - intros result betSide. unfold ProvablyFair.isCoinFlipWin. apply Z.eqb_eq.
  - reflexivity.
  - intros event db db' user side cs r Hu Hb Hbal H.
    destruct (flip_POST_success event db db' r H)
      as (user' & req & bal & Hu' & Hb' & _ & Hbal' & _ & Hr & Hdb).
    rewrite Hu in Hu'. injection Hu' as <-.
    rewrite Hb in Hb'. injection Hb' as <-.
    rewrite Hbal in Hbal'. injection Hbal' as <-.
    match type of Hdb with _ = committed ?B _ => set (b := B) in * end.
    exists b, (500 + (table.bet.payout b - table.bet.amount b)).
    split; [rewrite Hdb; reflexivity|].
    split; [reflexivity|].
    split; [reflexivity|].
    split.
    { rewrite Hr. subst b.
      cbn [flip_bet flip_result table.bet.win Flip.flipResult Flip.side].
      rewrite generateCoinFlip_eq. unfold ProvablyFair.isCoinFlipWin.
      destruct (Qltb _ 50); destruct side; cbn; split; congruence. }
    split; [rewrite Hr; reflexivity|].
    split; [rewrite Hdb; exact (balance_of_committed b db 500 Hbal)|].
    rewrite Hr. subst b.
    cbn [flip_bet table.bet.win table.bet.payout table.bet.amount Flip.amount Flip.side
         flip_result Flip.newBalance].
    destruct (ProvablyFair.isCoinFlipWin _ side); repeat split; vm_compute; reflexivity.
Qed.

Lemma coin_flip_semantics_witness :
  balance_of "u2" example_db500 = Some 500 /\
  exists r,
    Flip.POST (example_flip500 [1; 2; 4]%Z) example_db500
      = (json_success r, snd (Flip.POST (example_flip500 [1; 2; 4]%Z) example_db500)) /\
    Flip.flipResult r = ProvablyFair.cat /\
    Flip.newBalance r == 550 /\
    exists b nb,
      bets (snd (Flip.POST (example_flip500 [1; 2; 4]%Z) example_db500))
        = (bets example_db500 ++ [b])%list /\
      table.bet.gameData b = table.flipData ProvablyFair.cat (495 # 10) /\
      table.bet.multiplier b == 2 /\
      (table.bet.win b = true <-> Flip.flipResult r = ProvablyFair.cat) /\
      Flip.win r = table.bet.win b /\
      balance_of "u2" (snd (Flip.POST (example_flip500 [1; 2; 4]%Z) example_db500))
        = Some nb /\
      if table.bet.win b
      then table.bet.payout b == 100 /\ nb == 550 /\ Flip.newBalance r == 550
      else table.bet.payout b == 0 /\ nb == 450 /\ Flip.newBalance r == 450.
Proof.
  split; [vm_compute; reflexivity|].
  eexists.
  split; [vm_compute; reflexivity|].
  split; [vm_compute; reflexivity|].
  split; [vm_compute; reflexivity|].
  refine (proj2 (proj2 (proj2 coin_flip_semantics)) (example_flip500 [1; 2; 4]%Z)
            example_db500 _ example_user500 ProvablyFair.cat None _
            eq_refl eq_refl _ _).
  - vm_compute. reflexivity.
  - vm_compute. reflexivity.
Defined.

(** ** Verification *)

Lemma Qabs_self_small (x : Q) : Qltb (Math_abs (x - x)) (1 # 100) = true.
Proof.
  apply Qltb_lt. unfold Math_abs. apply Qabs_Qlt_condition. split; lra.
Qed.

(** Every settled bet passes the seed-hash check. *)
Lemma settled_seedHashValid (db : Database) (b : table.bet.row) :
  settled db b -> Verify.seedHashValid (Verify.verify b) = true.
Proof.
  intros Hs. unfold Verify.verify. cbn [Verify.seedHashValid].
  unfold ProvablyFair.verifyServerSeed. rewrite (settled_hash _ _ Hs).
  apply String.eqb_refl.
Qed.

(** Every settled dice bet is reported as verified. *)
Lemma settled_dice_verified (db : Database) (b : table.bet.row) :
  settled db b -> table.bet.gameType b = table.dice ->
  Verify.verified (Verify.verify b) = true.
Proof.
  intros Hs Hg. pose proof (settled_seedHashValid db b Hs) as Hh.
  pose proof (settled_result _ _ Hs) as Hr. rewrite Hg in Hr.
  unfold Verify.verify in *. cbn [Verify.verified Verify.seedHashValid] in *.
  rewrite Hh. cbn [andb]. unfold ProvablyFair.verifyGameResult.
  unfold ProvablyFair.generateDiceRoll in Hr. rewrite Hr. apply Qabs_self_small.
Qed.

(** A settled flip bet is reported as verified only when the derived
    outcome is 0.00: the stored result is the flip value 0 or 1, and it is
    compared with the outcome in [0, 99.99]. *)
Lemma settled_flip_verified (db : Database) (b : table.bet.row) :
  settled db b -> table.bet.gameType b = table.flip ->
  (Verify.verified (Verify.verify b) = true <->
   Spec.deriveOutcome (table.bet.serverSeed b) (table.bet.clientSeed b)
                      (table.bet.nonce b) == 0).
Proof.
  intros Hs Hg. pose proof (settled_seedHashValid db b Hs) as Hh.
  pose proof (settled_result _ _ Hs) as Hr. rewrite Hg in Hr.
  unfold Verify.verify in *. cbn [Verify.verified Verify.seedHashValid] in *.
  rewrite Hh. cbn [andb]. unfold ProvablyFair.verifyGameResult.
  rewrite Hr, generateGameResult_eq, generateCoinFlip_eq.
  destruct (deriveOutcome_hundredths (table.bet.serverSeed b) (table.bet.clientSeed b)
              (table.bet.nonce b)) as (k & Hk & Ek).
  rewrite Ek. clear Ek. unfold Math_abs.
  assert (Hq : inject_Z k / 100 == 0 <-> k = 0%Z).
  { unfold Qeq, Qdiv, Qmult, Qinv, inject_Z. cbn. lia. }
  assert (Hlt : inject_Z k / 100 < 1 # 100 <-> (k < 1)%Z).
  { unfold Qlt, Qdiv, Qmult, Qinv, inject_Z. cbn. lia. }
  assert (H0 : 0 <= inject_Z k / 100) by (apply hundredths_range; exact Hk).
  rewrite Hq, Qltb_lt.
  destruct (Qltb (inject_Z k / 100) 50) eqn:E.
  - change (inject_Z 0) with 0. split.
    + intros H. apply Qabs_Qlt_condition in H. destruct H as [_ H].
      assert (inject_Z k / 100 < 1 # 100) by lra. apply Hlt in H1. lia.
    + intros ->. reflexivity.
  - apply Qltb_ge in E. change (inject_Z 1) with 1. split.
    + intros H. apply Qabs_Qlt_condition in H. destruct H as [_ H]. exfalso. lra.
    + intros ->. exfalso. revert E. unfold Qle. cbn. lia.
Qed.

(** Every bet row of a committed state was settled by one of the two
    handlers. *)
Lemma reachable_bets_settled (db : Database) :
  reachable db ->
  forall b, In b (bets db) -> exists db0, reachable db0 /\ settled db0 b.
Proof.
  induction 1 as [|db db' Hr IH Hstep]; intros b Hin; [destruct Hin|].
  destruct (step_outcome db db' Hstep) as [E | [(u & name & E) | (b' & Hs & E)]]; subst db'.
  - apply IH, Hin.
  - apply IH. unfold handleRegister in Hin.
    destruct (existsb _ (users db)); exact Hin.
  - unfold committed in Hin. cbn [bets] in Hin. apply in_app_or in Hin.
    destruct Hin as [Hin | [<- | []]]; [apply IH, Hin | exists db; split; assumption].
Qed.

(** Round trip, where it holds: in every committed state every bet passes
    the seed-hash check and every dice bet is reported as verified. *)
Lemma persisted_dice_bet_verifies (db : Database) (b : table.bet.row) :
  reachable db -> In b (bets db) ->
  Verify.seedHashValid (Verify.verify b) = true /\
  (table.bet.gameType b = table.dice -> Verify.verified (Verify.verify b) = true).
Proof.
  intros Hr Hin. destruct (reachable_bets_settled db Hr b Hin) as (db0 & _ & Hs).
  split; [exact (settled_seedHashValid db0 b Hs) | exact (settled_dice_verified db0 b Hs)].
Qed.

(** Round trip, where it fails: in every committed state a flip bet is
    reported as verified only if its derived outcome is 0.00. *)
Lemma persisted_flip_bet_verifies (db : Database) (b : table.bet.row) :
  reachable db -> In b (bets db) -> table.bet.gameType b = table.flip ->
  (Verify.verified (Verify.verify b) = true <->
   Spec.deriveOutcome (table.bet.serverSeed b) (table.bet.clientSeed b)
                      (table.bet.nonce b) == 0).
Proof.
  intros Hr Hin Hg. destruct (reachable_bets_settled db Hr b Hin) as (db0 & _ & Hs).
  exact (settled_flip_verified db0 b Hs Hg).
Qed.

(** C1, at a persisted flip bet.  The second bet of the running example
    was settled by the flip handler (outcome 51.18, so [dog], stored as 1).
    Its seed hash checks, yet the verification endpoint recomputes 51.18,
    compares it with the stored 1 and reports the bet as not verified. *)
Theorem flip_bet_fails_verification :
  Flip.POST example_flip_event example_db2
    = (json_success
         {| Flip.betId := "bet-2";
            Flip.flipResult := ProvablyFair.dog;
            Flip.win := false;
            Flip.payout := 0 # 100;
            Flip.newBalance := 85000 # 100;
            Flip.serverSeedHash :=
              "b79ea17b7c5ca8fe9cccd8cdba6e8f8ed0b3c948f9f709ed0f47d2fd47fcba82";
            Flip.resultClientSeed := "0405";
            Flip.nonce := 2 |}, example_db3) /\
  ProvablyFair.generateGameResult "010203" "0405" 2 = Some (inject_Z 5118 / 100) /\
  Verify.GET "u1" (Some "bet-2"%string) example_db3
    = json_success
        {| Verify.betId := "bet-2";
           Verify.verified := false;
           Verify.expectedResult := 1;
           Verify.calculatedResult := Some 1;
           Verify.seedHashValid := true |}.
Proof.
  split; [|split]; vm_compute; reflexivity.
Qed.

(** * Further properties *)

(** ** Win chance, multiplier and the rolls behind them *)

(** X1. [calculateDiceWinChance] always lies in [0, 100].  For a target in
    [0, 100] the chance of "under" is the target, the chance of "over" is
    [100 - target], and the two add up to 100; a target below 0 or above
    100 is clamped to the nearer end. *)
Theorem calculateDiceWinChance_complement (target : Q) :
  (forall betType,
      0 <= ProvablyFair.calculateDiceWinChance betType target /\
      ProvablyFair.calculateDiceWinChance betType target <= 100) /\
  (0 <= target -> target <= 100 ->
   ProvablyFair.calculateDiceWinChance ProvablyFair.under target == target /\
   ProvablyFair.calculateDiceWinChance ProvablyFair.over target == 100 - target /\
   ProvablyFair.calculateDiceWinChance ProvablyFair.over target
   + ProvablyFair.calculateDiceWinChance ProvablyFair.under target == 100) /\
  (target < 0 ->
   ProvablyFair.calculateDiceWinChance ProvablyFair.under target == 0 /\
   ProvablyFair.calculateDiceWinChance ProvablyFair.over target == 100) /\
  (100 < target ->
   ProvablyFair.calculateDiceWinChance ProvablyFair.under target == 100 /\
   ProvablyFair.calculateDiceWinChance ProvablyFair.over target == 0).
Proof.
  assert (Hclamp : forall x, 0 <= Math_max 0 (Math_min 100 x) /\
                             Math_max 0 (Math_min 100 x) <= 100 /\
                             (0 <= x -> x <= 100 -> Math_max 0 (Math_min 100 x) == x) /\
                             (x < 0 -> Math_max 0 (Math_min 100 x) == 0) /\
                             (100 < x -> Math_max 0 (Math_min 100 x) == 100)).
  { intros x. unfold Math_max, Math_min.
    destruct (Qle_bool 100 x) eqn:E1.
    - apply Qle_bool_iff in E1. cbn. repeat split; intros; lra.
    - apply Qle_bool_gt in E1. destruct (Qle_bool 0 x) eqn:E2.
      + apply Qle_bool_iff in E2. repeat split; intros; lra.
      + apply Qle_bool_gt in E2. repeat split; intros; lra. }
  unfold ProvablyFair.calculateDiceWinChance.
  split; [|split; [|split]].
  - intros []; split; apply Hclamp.
  - intros H0 H1.
    destruct (Hclamp target) as (_ & _ & Hu & _).
    destruct (Hclamp (100 - target)) as (_ & _ & Ho & _).
    specialize (Hu H0 H1). assert (Ho' := Ho ltac:(lra) ltac:(lra)).
    repeat split; lra.
  - intros H.
    destruct (Hclamp target) as (_ & _ & _ & Hu & _).
    destruct (Hclamp (100 - target)) as (_ & _ & _ & _ & Ho).
    split; [apply Hu; lra | apply Ho; lra].
  - intros H.
    destruct (Hclamp target) as (_ & _ & _ & _ & Hu).
    destruct (Hclamp (100 - target)) as (_ & _ & _ & Ho & _).
    split; [apply Hu; lra | apply Ho; lra].
Qed.

Lemma Qltb_hundredths (j k : Z) :
  Qltb (inject_Z j / 100) (inject_Z k / 100) = (j <? k)%Z.
Proof.
  destruct (j <? k)%Z eqn:E.
  - apply Qltb_lt. apply Z.ltb_lt in E.
    unfold Qlt, Qdiv, Qmult, Qinv, inject_Z. cbn. lia.
  - apply Qltb_ge. apply Z.ltb_ge in E.
    unfold Qle, Qdiv, Qmult, Qinv, inject_Z. cbn. lia.
Qed.

Lemma count_below (k n : nat) :
  List.length (filter (fun j => Nat.ltb j k) (seq 0 n)) = Nat.min k n.
Proof.
  induction n as [|n IH]; [rewrite Nat.min_0_r; reflexivity|].
  rewrite seq_S, filter_app, length_app, IH. cbn [plus filter].
  destruct (Nat.ltb n k) eqn:E.
  - apply Nat.ltb_lt in E. cbn. lia.
  - apply Nat.ltb_ge in E. cbn. lia.
Qed.

Lemma count_above (k n : nat) :
  List.length (filter (fun j => Nat.ltb k j) (seq 0 n)) = (n - 1 - k)%nat.
Proof.
  induction n as [|n IH]; [reflexivity|].
  rewrite seq_S, filter_app, length_app, IH. cbn [plus filter].
  destruct (Nat.ltb k n) eqn:E.
  - apply Nat.ltb_lt in E. cbn. lia.
  - apply Nat.ltb_ge in E. cbn. lia.
Qed.

Lemma winning_rolls_count (betType : ProvablyFair.BetType) (k : Z) :
  (0 <= k)%Z ->
  winning_rolls betType (inject_Z k / 100) =
  List.length
    (filter (fun j => match betType with
                      | ProvablyFair.over => Nat.ltb (Z.to_nat k) j
                      | ProvablyFair.under => Nat.ltb j (Z.to_nat k)
                      end) (seq 0 (Z.to_nat 10000))).
Proof.
  intros Hk. unfold winning_rolls, all_rolls.
  generalize (seq 0 (Z.to_nat 10000)). intros l.
  induction l as [|j l IH]; [reflexivity|].
  cbn [map filter]. unfold ProvablyFair.isDiceWin at 1.
  destruct betType; rewrite Qltb_hundredths.
  - replace (k <? Z.of_nat j)%Z with (Nat.ltb (Z.to_nat k) j).
    + destruct (Nat.ltb (Z.to_nat k) j); cbn [List.length]; rewrite IH; reflexivity.
    + destruct (Nat.ltb (Z.to_nat k) j) eqn:E; symmetry.
      * apply Z.ltb_lt. apply Nat.ltb_lt in E. lia.
      * apply Z.ltb_ge. apply Nat.ltb_ge in E. lia.
  - replace (Z.of_nat j <? k)%Z with (Nat.ltb j (Z.to_nat k)).
    + destruct (Nat.ltb j (Z.to_nat k)); cbn [List.length]; rewrite IH; reflexivity.
    + destruct (Nat.ltb j (Z.to_nat k)) eqn:E; symmetry.
      * apply Z.ltb_lt. apply Nat.ltb_lt in E. lia.
      * apply Z.ltb_ge. apply Nat.ltb_ge in E. lia.
Qed.

Lemma roll_in_all_rolls (serverSeed clientSeed : string) (nonce : Z) :
  exists roll,
    ProvablyFair.generateDiceRoll serverSeed clientSeed nonce = Some roll /\
    In roll all_rolls.
Proof.
  destruct (generateGameResult_some serverSeed clientSeed nonce) as (k & Hk & E).
  exists (inject_Z k / 100). split; [exact E|].
  unfold all_rolls. apply in_map_iff. exists (Z.to_nat k). split.
  - rewrite Z2Nat.id by lia. reflexivity.
  - apply in_seq. lia.
Qed.



Lemma calculateMultiplier_range (winChance : Q) :
  1 <= winChance -> winChance <= 98 ->
  99 # 98 <= ProvablyFair.calculateMultiplier winChance None /\
  ProvablyFair.calculateMultiplier winChance None <= 99 /\
  winChance * ProvablyFair.calculateMultiplier winChance None == 99.
Proof.
  intros H1 H98. unfold ProvablyFair.calculateMultiplier.
  assert (Hpos : 0 < winChance) by lra.
  assert (E : Qle_bool winChance 0 = false) by (apply Qle_bool_gt; exact Hpos).
  rewrite E. change (100 - 1) with 99.
  split; [|split].
  - apply Qle_shift_div_l; [exact Hpos | lra].
  - apply Qle_shift_div_r; [exact Hpos | lra].
  - apply Qmult_div_r. lra.
Qed.




(** ** Seeds and hashes as text *)

(** hex format *)
Lemma hexdigit_lower_hex (d : Z) : (0 <= d < 16)%Z -> is_lower_hex (SHA256.hexdigit d) = true.
Proof.
  intros H.
  assert (E : (d = 0 \/ d = 1 \/ d = 2 \/ d = 3 \/ d = 4 \/ d = 5 \/ d = 6 \/ d = 7 \/
               d = 8 \/ d = 9 \/ d = 10 \/ d = 11 \/ d = 12 \/ d = 13 \/ d = 14 \/
               d = 15)%Z)
    by lia.
  repeat (destruct E as [E | E]; [subst d; reflexivity|]).
  subst d; reflexivity.
Qed.

Lemma hex_digits_format (n : nat) :
  forall (w : Z) (rest : string),
    String.length (SHA256.hex_digits n w rest) = (n + String.length rest)%nat /\
    (string_forall is_lower_hex rest = true ->
     string_forall is_lower_hex (SHA256.hex_digits n w rest) = true).
Proof.
  induction n as [|n IH]; intros w rest; [split; [reflexivity | trivial]|].
  cbn [SHA256.hex_digits].
  destruct (IH (w / 16)%Z (String (SHA256.hexdigit (w mod 16)) rest)) as [L F].
  split.
  - rewrite L. cbn [String.length]. lia.
  - intros Hr. apply F. cbn [string_forall].
    rewrite hexdigit_lower_hex by (apply Z.mod_pos_bound; lia). exact Hr.
Qed.

Lemma hex_of_bytes_format (bs : list Z) :
  String.length (hex_of_bytes bs) = (2 * List.length bs)%nat /\
  string_forall is_lower_hex (hex_of_bytes bs) = true.
Proof.
  induction bs as [|b bs [L F]]; [split; reflexivity|].
  cbn [hex_of_bytes List.length].
  destruct (hex_digits_format 2 b (hex_of_bytes bs)) as [L' F'].
  split; [rewrite L', L; lia | apply F', F].
Qed.

Lemma digest_hex_format (s : SHA256.state) :
  String.length (SHA256.digest_hex s) = 64%nat /\
  string_forall is_lower_hex (SHA256.digest_hex s) = true.
Proof.
  unfold SHA256.digest_hex, SHA256.hex8. split.
  - repeat (rewrite (proj1 (hex_digits_format 8 _ _))). reflexivity.
  - repeat (apply (proj2 (hex_digits_format 8 _ _))). reflexivity.
Qed.

(** X4. [generateServerSeed] returns a seed of two lower-case hexadecimal
    characters per random byte and a hash of 64 lower-case hexadecimal
    characters; [verifyServerSeed] accepts the pair, and accepts no other
    hash for that seed. *)
Theorem generateServerSeed_format (random32 : list Z) :
  let (seed, hash) := ProvablyFair.generateServerSeed random32 in
  String.length seed = (2 * List.length random32)%nat /\
  string_forall is_lower_hex seed = true /\
  String.length hash = 64%nat /\
  string_forall is_lower_hex hash = true /\
  ProvablyFair.verifyServerSeed seed hash = true /\
  (forall other, ProvablyFair.verifyServerSeed seed other = true -> other = hash).
Proof.
  unfold ProvablyFair.generateServerSeed.
  destruct (hex_of_bytes_format random32) as [L F].
  destruct (digest_hex_format (SHA256.hash (SHA256.bytes_of_string (hex_of_bytes random32))))
    as [L' F'].
  repeat split; try assumption.
  - unfold ProvablyFair.verifyServerSeed. apply String.eqb_refl.
  - intros other H. unfold ProvablyFair.verifyServerSeed in H.
    apply String.eqb_eq in H. symmetry. exact H.
Qed.

(** ** The client-side helpers ([ClientGame]) *)

Lemma Math_max_lub (a b c : Q) : a <= c -> b <= c -> Math_max a b <= c.
Proof. intros Ha Hb. unfold Math_max. destruct (Qle_bool a b); assumption. Qed.

Lemma Math_min_glb (a b c : Q) : c <= a -> c <= b -> c <= Math_min a b.
Proof. intros Ha Hb. unfold Math_min. destruct (Qle_bool a b); assumption. Qed.

Lemma Math_min_le (a b : Q) : Math_min a b <= a /\ Math_min a b <= b.
Proof.
  unfold Math_min. destruct (Qle_bool a b) eqn:E.
  - apply Qle_bool_iff in E. lra.
  - apply Qle_bool_gt in E. lra.
Qed.

Lemma validateInput_bounds (value lo hi : Q) :
  lo <= ClientGame.validateInput value lo hi /\
  (lo <= hi -> ClientGame.validateInput value lo hi <= hi) /\
  (lo <= value -> value <= hi -> ClientGame.validateInput value lo hi == value) /\
  (hi < lo -> ClientGame.validateInput value lo hi == lo).
Proof.
  unfold ClientGame.validateInput.
  pose proof (Math_max_spec lo (Math_min hi value)) as [M1 M2].
  pose proof (Math_min_le hi value) as [N1 N2].
  split; [exact M1|]. split; [|split].
  - intros H. apply Math_max_lub; lra.
  - intros A B. apply Qle_antisym.
    + apply Math_max_lub; lra.
    + pose proof (Math_min_glb hi value value B ltac:(lra)). lra.
  - intros H. apply Qle_antisym; [|exact M1].
    apply Math_max_lub; lra.
Qed.

(** X5. The client's [validateInput] clamps: when [min <= max] the result
    lies in [[min, max]], a value already in range is returned as it is and
    clamping twice changes nothing; when the bounds are crossed the result
    is [min]. *)
Theorem validateInput_clamps (value lo hi : Q) :
  (lo <= hi ->
   lo <= ClientGame.validateInput value lo hi /\
   ClientGame.validateInput value lo hi <= hi /\
   (lo <= value -> value <= hi -> ClientGame.validateInput value lo hi == value) /\
   ClientGame.validateInput (ClientGame.validateInput value lo hi) lo hi
     == ClientGame.validateInput value lo hi) /\
  (hi < lo -> ClientGame.validateInput value lo hi == lo).
Proof.
  destruct (validateInput_bounds value lo hi) as (B1 & B2 & B3 & B4).
  split; [|exact B4].
  intros H. split; [exact B1|]. split; [exact (B2 H)|]. split; [exact B3|].
  apply (validateInput_bounds (ClientGame.validateInput value lo hi) lo hi);
    [exact B1 | exact (B2 H)].
Qed.

Lemma Math_round_integer (x : Q) (k : Z) : x == inject_Z k -> Math_round x = inject_Z k.
Proof.
  intros E. unfold Math_round. f_equal.
  assert (F : Qfloor (x + (1 # 2)) = Qfloor (inject_Z k + (1 # 2))).
  { apply Qfloor_comp. rewrite E. reflexivity. }
  rewrite F.
  pose proof (Qfloor_le (inject_Z k + (1 # 2))) as L.
  pose proof (Qlt_floor (inject_Z k + (1 # 2))) as U.
  revert L U. generalize (Qfloor (inject_Z k + (1 # 2))). intros n.
  unfold Qle, Qlt, Qplus, inject_Z. cbn. lia.
Qed.




Lemma firstn_cons_firstn {A : Type} (m : nat) (x : A) (l : list A) :
  firstn m (x :: firstn m l) = firstn m (x :: l).
Proof.
  destruct m as [|m]; [reflexivity|]. cbn [firstn]. f_equal.
  revert l. induction m as [|m IH]; intros l; [reflexivity|].
  destruct l as [|y l]; [reflexivity|].
  cbn [firstn]. f_equal. apply IH.
Qed.

Lemma addToHistory_nonneg {A : Type} (hs : list A) (x : A) (m : Z) :
  (0 <= m)%Z ->
  ClientGame.addToHistory hs x (Some m) = firstn (Z.to_nat m) (x :: hs).
Proof.
  intros H. unfold ClientGame.addToHistory, ClientGame.slice0.
  destruct (m <? 0)%Z eqn:E; [apply Z.ltb_lt in E; lia | reflexivity].
Qed.

Lemma addToHistory_fold {A : Type} (m : Z) (xs : list A) :
  (0 <= m)%Z ->
  forall ys,
    fold_left (fun h x => ClientGame.addToHistory h x (Some m)) xs
              (firstn (Z.to_nat m) (rev ys))
    = firstn (Z.to_nat m) (rev (ys ++ xs)).
Proof.
  intros Hm. induction xs as [|x xs IH]; intros ys.
  - rewrite app_nil_r. reflexivity.
  - cbn [fold_left]. rewrite addToHistory_nonneg by exact Hm.
    rewrite firstn_cons_firstn.
    replace (x :: rev ys) with (rev (ys ++ [x])) by (rewrite rev_app_distr; reflexivity).
    rewrite IH, <- app_assoc. reflexivity.
Qed.

(** X8. A history built by [addToHistory] with a bound [m >= 0] is the
    last [m] entries added, newest first: its length is the smaller of [m]
    and the number of entries, the default bound is 20, and with [m >= 1]
    the entry just added comes first. *)
Theorem addToHistory_bounded {A : Type} (m : Z) (xs : list A) :
  (0 <= m)%Z ->
  let history := fold_left (fun h x => ClientGame.addToHistory h x (Some m)) xs [] in
  history = firstn (Z.to_nat m) (rev xs) /\
  Z.of_nat (List.length history) = Z.min m (Z.of_nat (List.length xs)) /\
  (forall x, ClientGame.addToHistory history x None
             = ClientGame.addToHistory history x (Some 20%Z)) /\
  (forall x, (1 <= m)%Z ->
     exists rest, ClientGame.addToHistory history x (Some m) = x :: rest).
Proof.
  intros Hm history.
  assert (E : history = firstn (Z.to_nat m) (rev xs)).
  { subst history.
    replace (@nil A) with (firstn (Z.to_nat m) (rev (@nil A)))
      by (cbn; apply firstn_nil).
    rewrite (addToHistory_fold m xs Hm []). reflexivity. }
  split; [exact E|]. split; [|split].
  - rewrite E, length_firstn, length_rev. lia.
  - reflexivity.
  - intros x H1. rewrite addToHistory_nonneg by exact Hm.
    destruct (Z.to_nat m) as [|n] eqn:En; [lia|].
    cbn [firstn]. eauto.
Qed.

Lemma addToHistory_bounded_witness :
  fold_left (fun h x => ClientGame.addToHistory h x (Some 2%Z)) [1; 2; 3]%nat []
  = [3; 2]%nat.
Proof.
  assert (Hm : (0 <= 2)%Z) by lia.
  exact (proj1 (addToHistory_bounded 2 [1; 2; 3]%nat Hm)).
Defined.

(** ** Flip validation, the announced nonce and the verification lookup *)


Lemma handleGameData_nonce {Body : Set} (event : RequestEvent Body) (db : Database)
    (d : GameHandler.GameData) :
  GameHandler.handleGameData event db = json_success d ->
  exists user,
    validatedUser event = Some user /\
    GameHandler.nextNonce d = (current_nonce (table.user.id user) db + 1)%Z /\
    GameHandler.balance d = table.user.balance user.
Proof.
  unfold GameHandler.handleGameData.
  destruct (sessionToken event) as [[|c token]|]; try discriminate.
  destruct (validatedUser event) as [user|]; [|discriminate].
  cbn [ProvablyFair.generateServerSeed]. intros H.
  assert (E : d = {| GameHandler.nextNonce :=
                       match filter (fun r => String.eqb (table.userGameSession.userId r)
                                                         (table.user.id user))
                                    (userGameSessions db) with
                       | r :: _ => (table.userGameSession.currentNonce r + 1)%Z
                       | [] => 1%Z
                       end;
                     GameHandler.nextServerSeedHash :=
                       SHA256.sha256_hex (hex_of_bytes (random32 event));
                     GameHandler.balance := table.user.balance user |}).
  { revert H. generalize (SHA256.sha256_hex (hex_of_bytes (random32 event))).
    intros h H. injection H as H. symmetry. exact H. }
  exists user. split; [reflexivity|]. rewrite E. cbn. unfold current_nonce.
  split; [|reflexivity].
  destruct (filter _ (userGameSessions db)); reflexivity.
Qed.

(** X11. The nonce announced by [GET /api/game/dice], [GET /api/game/flip]
    and [handleGameData] is the principal's counter plus one: it is the
    nonce of the principal's next successful dice or flip settlement, after
    which the announced nonce is one higher; with no session row at all it
    is 1. *)
Theorem announced_nonce_is_next {Body : Set} (event : RequestEvent Body) (db : Database)
    (d : GameHandler.GameData) :
  GameHandler.handleGameData event db = json_success d ->
  exists user,
    validatedUser event = Some user /\
    GameHandler.nextNonce d = (current_nonce (table.user.id user) db + 1)%Z /\
    (forall (bet : RequestEvent Dice.DiceBetRequest) user' r db',
        validatedUser bet = Some user' -> table.user.id user' = table.user.id user ->
        Dice.POST bet db = (json_success r, db') ->
        Dice.nonce r = GameHandler.nextNonce d /\
        forall event' user'' d',
          validatedUser event' = Some user'' -> table.user.id user'' = table.user.id user ->
          GameHandler.handleGameData (Body := Body) event' db' = json_success d' ->
          GameHandler.nextNonce d' = (GameHandler.nextNonce d + 1)%Z) /\
    (forall (bet : RequestEvent Flip.CoinFlipBetRequest) user' r db',
        validatedUser bet = Some user' -> table.user.id user' = table.user.id user ->
        Flip.POST bet db = (json_success r, db') ->
        Flip.nonce r = GameHandler.nextNonce d /\
        forall event' user'' d',
          validatedUser event' = Some user'' -> table.user.id user'' = table.user.id user ->
          GameHandler.handleGameData (Body := Body) event' db' = json_success d' ->
          GameHandler.nextNonce d' = (GameHandler.nextNonce d + 1)%Z) /\
    (userGameSessions db = [] -> GameHandler.nextNonce d = 1%Z).
Proof.
  intros H. destruct (handleGameData_nonce event db d H) as (user & Hu & Hn & _).
  exists user. split; [exact Hu|]. split; [exact Hn|]. split; [|split].
  - intros bet user' r db' Hbu Hid Hp.
    pose proof (dice_advances_nonce bet db) as A. unfold advances_nonce in A.
    rewrite Hp in A. cbn [fst snd] in A.
    destruct A as (user0 & b & Hu' & A1 & A2 & _).
    rewrite Hbu in Hu'. injection Hu' as <-. rewrite Hid in A1, A2.
    split; [rewrite A1, Hn; reflexivity|].
    intros event' user'' d' Hu'' Hid' H'.
    destruct (handleGameData_nonce event' db' d' H') as (user1 & Hv & Hn' & _).
    rewrite Hu'' in Hv. injection Hv as <-.
    rewrite Hn', Hid', A2, A1, Hn. reflexivity.
  - intros bet user' r db' Hbu Hid Hp.
    pose proof (flip_advances_nonce bet db) as A. unfold advances_nonce in A.
    rewrite Hp in A. cbn [fst snd] in A.
    destruct A as (user0 & b & Hu' & A1 & A2 & _).
    rewrite Hbu in Hu'. injection Hu' as <-. rewrite Hid in A1, A2.
    split; [rewrite A1, Hn; reflexivity|].
    intros event' user'' d' Hu'' Hid' H'.
    destruct (handleGameData_nonce event' db' d' H') as (user1 & Hv & Hn' & _).
    rewrite Hu'' in Hv. injection Hv as <-.
    rewrite Hn', Hid', A2, A1, Hn. reflexivity.
  - intros He. rewrite Hn. unfold current_nonce. rewrite He. reflexivity.
Qed.

Lemma announced_nonce_is_next_witness :
  exists d,
    GameHandler.handleGameData example_flip_event example_db2 = json_success d /\
    GameHandler.nextNonce d = 2%Z /\
    exists user,
      validatedUser example_flip_event = Some user /\
      GameHandler.nextNonce d = (current_nonce (table.user.id user) example_db2 + 1)%Z.
Proof.
  eexists.
  split; [vm_compute; reflexivity|].
  split; [vm_compute; reflexivity|].
  refine (match announced_nonce_is_next example_flip_event example_db2 _ _ with
          | ex_intro _ user (conj Hu (conj Hn _)) => ex_intro _ user (conj Hu Hn)
          end).
  vm_compute. reflexivity.
Defined.

Lemma reachable_bet_ids_NoDup (db : Database) :
  reachable db -> NoDup (map table.bet.id (bets db)).
Proof.
  induction 1 as [|db db' Hr IH Hstep]; [constructor|].
  destruct (step_outcome db db' Hstep) as [E | [(u & name & E) | (b & Hs & E)]]; subst db'.
  - exact IH.
  - unfold handleRegister. destruct (existsb _ (users db)); exact IH.
  - unfold committed. cbn [bets]. rewrite map_app. cbn [map].
    apply NoDup_app; [exact IH | repeat constructor; intros [] |].
    intros x Hx [<- | []].
    apply in_map_iff in Hx. destruct Hx as (b' & Hid & Hin).
    pose proof (settled_fresh _ _ Hs) as Hf.
    assert (Hex : existsb (fun r => String.eqb (table.bet.id r) (table.bet.id b)) (bets db)
                  = true).
    { apply existsb_exists. exists b'. split; [exact Hin|]. rewrite Hid.
      apply String.eqb_refl. }
    congruence.
Qed.

Lemma filter_by_id_owner (l : list table.bet.row) (b : table.bet.row) (u : string) :
  NoDup (map table.bet.id l) -> In b l ->
  filter (fun x => String.eqb (table.bet.id x) (table.bet.id b) &&
                   String.eqb (table.bet.userId x) u) l
  = if String.eqb (table.bet.userId b) u then [b] else [].
Proof.
  induction l as [|a l IH]; intros Hnd Hin; [destruct Hin|].
  cbn [map] in Hnd. inversion Hnd as [|x xs Hnotin Hnd']; subst.
  assert (Hnone : ~ In (table.bet.id a) (map table.bet.id l) ->
                  forall k, k = table.bet.id a ->
                  filter (fun x => String.eqb (table.bet.id x) k &&
                                   String.eqb (table.bet.userId x) u) l = []).
  { intros Hn k ->. clear -Hn. induction l as [|c l IH]; [reflexivity|].
    cbn [filter]. destruct (String.eqb (table.bet.id c) (table.bet.id a)) eqn:E.
    - apply String.eqb_eq in E. exfalso. apply Hn. left. exact E.
    - cbn [andb]. apply IH. intros H. apply Hn. right. exact H. }
  cbn [filter]. destruct Hin as [-> | Hin].
  - rewrite String.eqb_refl. cbn [andb].
    rewrite (Hnone Hnotin _ eq_refl).
    destruct (String.eqb (table.bet.userId b) u); reflexivity.
  - destruct (String.eqb (table.bet.id a) (table.bet.id b)) eqn:E.
    + apply String.eqb_eq in E. exfalso. apply Hnotin. rewrite E.
      apply in_map. exact Hin.
    + cbn [andb]. apply IH; assumption.
Qed.

(** X12. In every committed state the verification endpoint finds a bet
    only for its owner: the owner gets the verification of that very row,
    any other principal gets 404 "Bet not found", and so does anybody who
    asks for an id that no bet carries. *)
Theorem verify_lookup (db : Database) (b : table.bet.row) :
  reachable db -> In b (bets db) -> table.bet.id b <> EmptyString ->
  Verify.GET (table.bet.userId b) (Some (table.bet.id b)) db
    = json_success (Verify.verify b) /\
  (forall other, other <> table.bet.userId b ->
     Verify.GET other (Some (table.bet.id b)) db
       = json_failure (Some "Bet not found"%string) 404) /\
  (forall user betId,
     ~ In betId (map table.bet.id (bets db)) -> betId <> EmptyString ->
     Verify.GET user (Some betId) db = json_failure (Some "Bet not found"%string) 404).
Proof.
  intros Hr Hin Hne.
  pose proof (reachable_bet_ids_NoDup db Hr) as Hnd.
  assert (Hget : forall u,
             Verify.GET u (Some (table.bet.id b)) db =
             match (if String.eqb (table.bet.userId b) u then [b] else []) with
             | [] => json_failure (Some "Bet not found"%string) 404
             | bet :: _ => json_success (Verify.verify bet)
             end).
  { intros u. unfold Verify.GET.
    destruct (table.bet.id b) as [|c s] eqn:Eid; [congruence|].
    rewrite <- Eid. rewrite (filter_by_id_owner (bets db) b u Hnd Hin). reflexivity. }
  split; [|split].
  - rewrite Hget, String.eqb_refl. reflexivity.
  - intros other Hne'. rewrite Hget.
    destruct (String.eqb (table.bet.userId b) other) eqn:E; [|reflexivity].
    apply String.eqb_eq in E. congruence.
  - intros user betId Hnin Hne'. unfold Verify.GET.
    destruct betId as [|c s]; [congruence|].
    assert (E : filter (fun x => String.eqb (table.bet.id x) (String c s) &&
                                 String.eqb (table.bet.userId x) user) (bets db) = []).
    { clear -Hnin. induction (bets db) as [|a l IH]; [reflexivity|].
      cbn [filter]. destruct (String.eqb (table.bet.id a) (String c s)) eqn:E.
      - apply String.eqb_eq in E. exfalso. apply Hnin. left. exact E.
      - cbn [andb]. apply IH. intros H. apply Hnin. right. exact H. }
    rewrite E. reflexivity.
Qed.

Lemma verify_lookup_witness :
  Forall (fun b =>
            Verify.GET (table.bet.userId b) (Some (table.bet.id b)) example_db3
            = json_success (Verify.verify b))
         (bets example_db3).
Proof.
  assert (Hid : Forall (fun b => table.bet.id b <> EmptyString) (bets example_db3)).
  { vm_compute. constructor; [discriminate|]. constructor; [discriminate|]. constructor. }
  apply Forall_forall. intros b Hin.
  apply (verify_lookup example_db3 b example_db3_reachable Hin).
  exact (proj1 (Forall_forall _ _) Hid b Hin).
Defined.

(** ** CSRF protection *)

Lemma charCode_inj (x y : ascii) : Csrf.charCode x = Csrf.charCode y -> x = y.
Proof.
  unfold Csrf.charCode. intros H. apply N2Z.inj in H.
  rewrite <- (ascii_N_embedding x), <- (ascii_N_embedding y), H. reflexivity.
Qed.

Lemma xor_codes_zero (a : string) :
  forall (b : string) (result : Z),
    String.length a = String.length b ->
    Csrf.xor_codes a b result = 0%Z -> result = 0%Z /\ a = b.
Proof.
  induction a as [|x a IH]; intros [|y b] result Hlen H; cbn in Hlen; try discriminate.
  - cbn in H. split; [exact H | reflexivity].
  - cbn [Csrf.xor_codes] in H. injection Hlen as Hlen.
    destruct (IH b _ Hlen H) as [Hr ->].
    apply Z.lor_eq_0_iff in Hr. destruct Hr as [Hr Hx].
    apply Z.lxor_eq in Hx. apply charCode_inj in Hx. subst y.
    split; [exact Hr | reflexivity].
Qed.

Lemma xor_codes_refl (a : string) : Csrf.xor_codes a a 0 = 0%Z.
Proof.
  induction a as [|x a IH]; [reflexivity|].
  cbn [Csrf.xor_codes]. rewrite Z.lxor_nilpotent. exact IH.
Qed.

Lemma constantTimeEqual_sound (a b : string) :
  Csrf.constantTimeEqual a b = true -> a = b.
Proof.
  unfold Csrf.constantTimeEqual.
  destruct (Nat.eqb (String.length a) (String.length b)) eqn:E; [|discriminate].
  cbn [negb]. intros H. apply Nat.eqb_eq in E. apply Z.eqb_eq in H.
  apply (xor_codes_zero a b 0%Z E H).
Qed.

Lemma constantTimeEqual_refl (a : string) : Csrf.constantTimeEqual a a = true.
Proof.
  unfold Csrf.constantTimeEqual. rewrite Nat.eqb_refl. cbn [negb].
  rewrite xor_codes_refl. reflexivity.
Qed.

(** X13. [constantTimeEqual] answers [true] exactly on equal strings. *)
Theorem constantTimeEqual_eq (a b : string) :
  Csrf.constantTimeEqual a b = true <-> a = b.
Proof.
  split.
  - apply constantTimeEqual_sound.
  - intros <-. apply constantTimeEqual_refl.
Qed.

Lemma safe_method_existsb (m : string) :
  existsb (String.eqb m) ["GET"; "HEAD"; "OPTIONS"]%string = true <->
  (m = "GET" \/ m = "HEAD" \/ m = "OPTIONS")%string.
Proof.
  cbn [existsb]. rewrite !orb_true_iff, !String.eqb_eq. intuition discriminate.
Qed.

Lemma validateCSRFToken_spec (event : Csrf.Event) :
  Csrf.validateCSRFToken event = true <->
  (Csrf.method event = "GET" \/ Csrf.method event = "HEAD"
   \/ Csrf.method event = "OPTIONS")%string \/
  exists c token,
    Csrf.cookies_get Csrf.CSRF_COOKIE_NAME (Csrf.cookies event) = Some (String c token) /\
    Csrf.string_or (Csrf.headers_get event "X-CSRF-Token")
                   (Csrf.headers_get event "x-csrf-token") = Some (String c token).
Proof.
  unfold Csrf.validateCSRFToken.
  destruct (existsb _ _) eqn:E.
  - apply safe_method_existsb in E. split; [intros _; left; exact E | reflexivity].
  - assert (Hns : ~ (Csrf.method event = "GET" \/ Csrf.method event = "HEAD"
                     \/ Csrf.method event = "OPTIONS")%string).
    { intros H. apply safe_method_existsb in H. congruence. }
    unfold Csrf.getCSRFTokenFromCookie.
    destruct (Csrf.cookies_get _ _) as [[|c s]|]; cbn [Csrf.string_or].
    + split; [discriminate | intros [H | (c & t & H & _)]; [tauto | discriminate]].
    + destruct (Csrf.string_or _ _) as [[|c' s']|].
      * split; [discriminate | intros [H | (c0 & t & _ & H)]; [tauto | discriminate]].
      * split.
        -- intros H. apply constantTimeEqual_sound in H.
           right. exists c, s. rewrite H. split; reflexivity.
        -- intros [H | (c0 & t & H1 & H2)]; [tauto|].
           assert (Etok : String c s = String c' s') by congruence.
           rewrite Etok. apply constantTimeEqual_refl.
      * split; [discriminate | intros [H | (c0 & t & _ & H)]; [tauto | discriminate]].
    + split; [discriminate | intros [H | (c & t & H & _)]; [tauto | discriminate]].
Qed.

(** X14. [handleCSRF] leaves the request's method alone and leaves a CSRF
    cookie behind: the one the request came with or, when that was missing
    or empty, a freshly generated one.  It lets a request through exactly
    when its method is GET, HEAD or OPTIONS, or when the header
    [X-CSRF-Token] (or, that one missing or empty, [x-csrf-token]) is that
    non-empty token; so a state-changing request that came without a cookie
    passes only by carrying the token generated while it is served. *)
Theorem handleCSRF_double_submit (randomBytes : list Z) (event : Csrf.Event) :
  let out := Csrf.handleCSRF randomBytes event in
  let token := token_of randomBytes event in
  Csrf.cookies_get Csrf.CSRF_COOKIE_NAME (Csrf.cookies (snd out)) = Some token /\
  Csrf.method (snd out) = Csrf.method event /\
  (fst out = true <->
   (Csrf.method event = "GET" \/ Csrf.method event = "HEAD"
    \/ Csrf.method event = "OPTIONS")%string \/
   (token <> EmptyString /\
    Csrf.string_or (Csrf.headers_get event "X-CSRF-Token")
                   (Csrf.headers_get event "x-csrf-token") = Some token)) /\
  (Csrf.getCSRFTokenFromCookie event = None ->
   ~ (Csrf.method event = "GET" \/ Csrf.method event = "HEAD"
      \/ Csrf.method event = "OPTIONS")%string ->
   fst out = true ->
   Csrf.string_or (Csrf.headers_get event "X-CSRF-Token")
                  (Csrf.headers_get event "x-csrf-token")
   = Some (Csrf.generateCSRFToken randomBytes)).
Proof.
  cbv zeta. unfold Csrf.handleCSRF, token_of. cbn [fst snd].
  assert (Hcase :
    (exists c s, Csrf.cookies_get Csrf.CSRF_COOKIE_NAME (Csrf.cookies event)
                 = Some (String c s) /\
                 Csrf.getCSRFTokenFromCookie event = Some (String c s)) \/
    ((Csrf.cookies_get Csrf.CSRF_COOKIE_NAME (Csrf.cookies event) = None \/
      Csrf.cookies_get Csrf.CSRF_COOKIE_NAME (Csrf.cookies event) = Some EmptyString) /\
     Csrf.getCSRFTokenFromCookie event = None)).
  { unfold Csrf.getCSRFTokenFromCookie.
    destruct (Csrf.cookies_get _ _) as [[|c s]|]; cbn [Csrf.string_or].
    - right. split; [right|]; reflexivity.
    - left. exists c, s. split; reflexivity.
    - right. split; [left|]; reflexivity. }
  destruct Hcase as [(c & s & Hget & Hcookie) | [Hget Hcookie]]; rewrite Hcookie.
  - split; [exact Hget|]. split; [reflexivity|]. split.
    + rewrite validateCSRFToken_spec. split.
      * intros [H | (c0 & t & H1 & H2)]; [left; exact H|].
        right. rewrite Hget in H1. injection H1 as <- <-. split; [discriminate | exact H2].
      * intros [H | [_ H]]; [left; exact H|]. right. exists c, s. split; assumption.
    + discriminate.
  - set (event' := Csrf.setCSRFCookie event (Csrf.generateCSRFToken randomBytes)).
    assert (Hget' : Csrf.cookies_get Csrf.CSRF_COOKIE_NAME (Csrf.cookies event')
                    = Some (Csrf.generateCSRFToken randomBytes)) by reflexivity.
    assert (Hiff : Csrf.validateCSRFToken event' = true <->
      (Csrf.method event = "GET" \/ Csrf.method event = "HEAD"
       \/ Csrf.method event = "OPTIONS")%string \/
      (Csrf.generateCSRFToken randomBytes <> EmptyString /\
       Csrf.string_or (Csrf.headers_get event "X-CSRF-Token")
                      (Csrf.headers_get event "x-csrf-token")
       = Some (Csrf.generateCSRFToken randomBytes))).
    { rewrite validateCSRFToken_spec.
      change (Csrf.method event') with (Csrf.method event).
      change (Csrf.headers_get event') with (Csrf.headers_get event).
      rewrite Hget'. split.
      - intros [H | (c0 & t & H1 & H2)]; [left; exact H|]. right.
        injection H1 as H1. rewrite H1. split; [discriminate | exact H2].
      - intros [H | [Hne H]]; [left; exact H|]. right.
        destruct (Csrf.generateCSRFToken randomBytes) as [|c0 t]; [congruence|].
        exists c0, t. split; [reflexivity | exact H]. }
    split; [exact Hget'|]. split; [reflexivity|]. split; [exact Hiff|].
    intros _ Hns Hv. apply Hiff in Hv. destruct Hv as [H | [_ H]]; [tauto | exact H].
Qed.

Lemma generateCSRFToken_nonempty (randomBytes : list Z) :
  randomBytes <> [] -> Csrf.generateCSRFToken randomBytes <> EmptyString.
Proof.
  intros Hne E. apply (f_equal String.length) in E.
  unfold Csrf.generateCSRFToken in E.
  destruct randomBytes as [|b rest]; [congruence|].
  cbn [hex_of_bytes SHA256.hex_digits] in E. cbn in E. discriminate.
Qed.

(** X15. The token [getCSRFTokenForClient] hands out is not empty and is
    the one in the cookie.  A later request with that cookie passes
    [handleCSRF] when it repeats the token in [X-CSRF-Token], and a POST
    without either header is refused; in both cases the cookie is left as
    it is. *)
Theorem csrf_token_round_trip (randomBytes : list Z) (page : Csrf.Event) :
  randomBytes <> [] ->
  let (token, page') := Csrf.getCSRFTokenForClient randomBytes page in
  token <> EmptyString /\
  Csrf.cookies_get Csrf.CSRF_COOKIE_NAME (Csrf.cookies page') = Some token /\
  (forall (randomBytes' : list Z) (request : Csrf.Event),
      Csrf.cookies_get Csrf.CSRF_COOKIE_NAME (Csrf.cookies request) = Some token ->
      (Csrf.headers_get request "X-CSRF-Token" = Some token ->
       Csrf.handleCSRF randomBytes' request = (true, request)) /\
      (Csrf.headers_get request "X-CSRF-Token" = None ->
       Csrf.headers_get request "x-csrf-token" = None ->
       Csrf.method request = "POST"%string ->
       Csrf.handleCSRF randomBytes' request = (false, request))).
Proof.
  intros Hne.
  assert (Hstep : forall token : string, token <> EmptyString ->
    forall (randomBytes' : list Z) (request : Csrf.Event),
      Csrf.cookies_get Csrf.CSRF_COOKIE_NAME (Csrf.cookies request) = Some token ->
      (Csrf.headers_get request "X-CSRF-Token" = Some token ->
       Csrf.handleCSRF randomBytes' request = (true, request)) /\
      (Csrf.headers_get request "X-CSRF-Token" = None ->
       Csrf.headers_get request "x-csrf-token" = None ->
       Csrf.method request = "POST"%string ->
       Csrf.handleCSRF randomBytes' request = (false, request))).
  { intros [|c s] Ht randomBytes' request Hget; [congruence|].
    unfold Csrf.handleCSRF, Csrf.getCSRFTokenFromCookie. rewrite Hget.
    cbn [Csrf.string_or]. split.
    - intros Hh. f_equal. apply validateCSRFToken_spec. right. exists c, s.
      rewrite Hget, Hh. split; reflexivity.
    - intros H1 H2 Hm. f_equal.
      unfold Csrf.validateCSRFToken, Csrf.getCSRFTokenFromCookie.
      rewrite Hm, Hget, H1, H2. reflexivity. }
  unfold Csrf.getCSRFTokenForClient, Csrf.getCSRFTokenFromCookie.
  destruct (Csrf.cookies_get Csrf.CSRF_COOKIE_NAME (Csrf.cookies page)) as [[|c s]|] eqn:Hget;
    cbn [Csrf.string_or].
  - pose proof (generateCSRFToken_nonempty randomBytes Hne) as Ht.
    split; [exact Ht|]. split; [reflexivity|]. apply Hstep. exact Ht.
  - split; [discriminate|]. split; [exact Hget|]. apply Hstep. discriminate.
  - pose proof (generateCSRFToken_nonempty randomBytes Hne) as Ht.
    split; [exact Ht|]. split; [reflexivity|]. apply Hstep. exact Ht.
Qed.

Lemma csrf_token_round_trip_witness :
  Csrf.getCSRFTokenForClient [171]%Z example_csrf_page
  = ("ab"%string, Csrf.setCSRFCookie example_csrf_page "ab") /\
  Csrf.handleCSRF [] example_csrf_request = (true, example_csrf_request).
Proof.
  split; [vm_compute; reflexivity|].
  assert (Hne : [171]%Z <> []) by discriminate.
  pose proof (csrf_token_round_trip [171]%Z example_csrf_page Hne) as H.
  change (Csrf.getCSRFTokenForClient [171]%Z example_csrf_page)
    with ("ab"%string, Csrf.setCSRFCookie example_csrf_page "ab") in H.
  destruct H as (_ & _ & H).
  exact (proj1 (H [] example_csrf_request eq_refl) eq_refl).
Defined.

(** ** The rate limiter *)

Lemma has_colon_app (a b : string) : has_colon (a ++ String ":"%char b) = true.
Proof.
  induction a as [|c a IH]; [reflexivity|].
  cbn [String.append has_colon]. rewrite IH. apply orb_true_r.
Qed.

Lemma key_of_not_marker (identifier : string) (config : RateLimiter.RateLimitConfig) :
  RateLimiter.key_of identifier config <> "__last_cleanup__"%string.
Proof.
  intros E. apply (f_equal has_colon) in E. unfold RateLimiter.key_of in E.
  cbn [String.append] in E. rewrite has_colon_app in E. discriminate.
Qed.

Lemma Map_get_set_same (key : string) (entry : RateLimiter.Entry.t) (store : RateLimiter.Store) :
  RateLimiter.Map_get key (RateLimiter.Map_set key entry store) = Some entry.
Proof.
  induction store as [|[k e] rest IH]; cbn [RateLimiter.Map_set RateLimiter.Map_get].
  - rewrite String.eqb_refl. reflexivity.
  - destruct (String.eqb k key) eqn:E; cbn [RateLimiter.Map_get]; rewrite E;
      [reflexivity | exact IH].
Qed.

Lemma Map_get_set_other (key key' : string) (entry : RateLimiter.Entry.t)
    (store : RateLimiter.Store) :
  key' <> key ->
  RateLimiter.Map_get key (RateLimiter.Map_set key' entry store) = RateLimiter.Map_get key store.
Proof.
  intros Hne. induction store as [|[k e] rest IH]; cbn [RateLimiter.Map_set RateLimiter.Map_get].
  - destruct (String.eqb key' key) eqn:E; [apply String.eqb_eq in E; congruence | reflexivity].
  - destruct (String.eqb k key') eqn:E'; cbn [RateLimiter.Map_get].
    + apply String.eqb_eq in E'. subst k.
      destruct (String.eqb key' key) eqn:E; [apply String.eqb_eq in E; congruence | reflexivity].
    + destruct (String.eqb k key); [reflexivity | exact IH].
Qed.

Lemma Map_get_None (key : string) (store : RateLimiter.Store) :
  ~ In key (map fst store) -> RateLimiter.Map_get key store = None.
Proof.
  induction store as [|[k e] rest IH]; intros Hn; [reflexivity|].
  cbn [RateLimiter.Map_get]. destruct (String.eqb k key) eqn:E.
  - apply String.eqb_eq in E. exfalso. apply Hn. left. exact E.
  - apply IH. intros H. apply Hn. right. exact H.
Qed.

Lemma Map_set_keys (key : string) (entry : RateLimiter.Entry.t) (store : RateLimiter.Store) :
  map fst (RateLimiter.Map_set key entry store)
  = if existsb (fun k => String.eqb k key) (map fst store) then map fst store
    else (map fst store ++ [key])%list.
Proof.
  induction store as [|[k e] rest IH]; [reflexivity|].
  cbn [RateLimiter.Map_set map fst existsb]. destruct (String.eqb k key) eqn:E; cbn [orb map fst].
  - reflexivity.
  - rewrite IH. destruct (existsb _ _); reflexivity.
Qed.

Lemma Map_set_NoDup (key : string) (entry : RateLimiter.Entry.t) (store : RateLimiter.Store) :
  NoDup (map fst store) -> NoDup (map fst (RateLimiter.Map_set key entry store)).
Proof.
  intros Hnd. rewrite Map_set_keys.
  destruct (existsb _ _) eqn:E; [exact Hnd|].
  apply NoDup_app; [exact Hnd | repeat constructor; intros [] |].
  intros x Hx [<- | []].
  assert (existsb (fun k => String.eqb k key) (map fst store) = true); [|congruence].
  apply existsb_exists. exists key. split; [exact Hx | apply String.eqb_refl].
Qed.

Lemma filter_keys_NoDup (p : string * RateLimiter.Entry.t -> bool) (store : RateLimiter.Store) :
  NoDup (map fst store) -> NoDup (map fst (filter p store)).
Proof.
  induction store as [|[k e] rest IH]; intros Hnd; [constructor|].
  cbn [map fst] in Hnd. inversion Hnd as [|x xs Hnotin Hnd']; subst.
  cbn [filter]. destruct (p (k, e)); [|apply IH; exact Hnd'].
  cbn [map fst]. constructor; [|apply IH; exact Hnd'].
  intros Hin. apply Hnotin. apply in_map_iff in Hin.
  destruct Hin as (x & Hx & Hin). apply filter_In in Hin.
  apply in_map_iff. exists x. tauto.
Qed.

Lemma Map_get_filter (p : string * RateLimiter.Entry.t -> bool) (key : string)
    (store : RateLimiter.Store) :
  NoDup (map fst store) ->
  RateLimiter.Map_get key (filter p store)
  = match RateLimiter.Map_get key store with
    | Some e => if p (key, e) then Some e else None
    | None => None
    end.
Proof.
  induction store as [|[k e] rest IH]; intros Hnd; [reflexivity|].
  cbn [map fst] in Hnd. inversion Hnd as [|x xs Hnotin Hnd']; subst.
  cbn [filter RateLimiter.Map_get]. destruct (String.eqb k key) eqn:E.
  - apply String.eqb_eq in E. subst k. destruct (p (key, e)).
    + cbn [RateLimiter.Map_get]. rewrite String.eqb_refl. reflexivity.
    + apply Map_get_None. intros Hin. apply Hnotin.
      apply in_map_iff in Hin. destruct Hin as (x & Hx & Hin). apply filter_In in Hin.
      apply in_map_iff. exists x. tauto.
  - destruct (p (k, e)); [cbn [RateLimiter.Map_get]; rewrite E|]; apply IH; exact Hnd'.
Qed.

Lemma cleanup_NoDup (now : Z) (store : RateLimiter.Store) :
  NoDup (map fst store) -> NoDup (map fst (RateLimiter.cleanupExpiredEntries now store)).
Proof.
  intros Hnd. unfold RateLimiter.cleanupExpiredEntries.
  destruct (_ <? _)%Z; [exact Hnd|].
  apply filter_keys_NoDup, Map_set_NoDup, Hnd.
Qed.

Lemma cleanup_get (now : Z) (key : string) (store : RateLimiter.Store) :
  NoDup (map fst store) -> key <> "__last_cleanup__"%string ->
  RateLimiter.Map_get key (RateLimiter.cleanupExpiredEntries now store)
  = match RateLimiter.Map_get key store with
    | Some e =>
        if ((5 * 60 * 1000 <=? now - last_cleanup store)
            && (RateLimiter.Entry.resetTime e <? now))%Z
        then None else Some e
    | None => None
    end.
Proof.
  intros Hnd Hne. unfold RateLimiter.cleanupExpiredEntries. fold (last_cleanup store).
  destruct (now - last_cleanup store <? 5 * 60 * 1000)%Z eqn:E.
  - assert (E' : (5 * 60 * 1000 <=? now - last_cleanup store)%Z = false) by lia.
    rewrite E'. cbn [andb]. destruct (RateLimiter.Map_get key store); reflexivity.
  - assert (E' : (5 * 60 * 1000 <=? now - last_cleanup store)%Z = true) by lia.
    rewrite E'. cbn [andb].
    rewrite Map_get_filter by (apply Map_set_NoDup; exact Hnd).
    rewrite Map_get_set_other by congruence.
    destruct (RateLimiter.Map_get key store) as [e|]; [|reflexivity].
    cbn [fst snd].
    assert (Ek : String.eqb key "__last_cleanup__" = false).
    { destruct (String.eqb key "__last_cleanup__") eqn:Ek; [|reflexivity].
      apply String.eqb_eq in Ek. congruence. }
    rewrite Ek. cbn [negb andb]. destruct (RateLimiter.Entry.resetTime e <? now)%Z; reflexivity.
Qed.

Lemma cleanup_get_open (now : Z) (key : string) (store : RateLimiter.Store)
    (e : RateLimiter.Entry.t) :
  NoDup (map fst store) -> key <> "__last_cleanup__"%string ->
  RateLimiter.Map_get key store = Some e -> (now <= RateLimiter.Entry.resetTime e)%Z ->
  RateLimiter.Map_get key (RateLimiter.cleanupExpiredEntries now store) = Some e.
Proof.
  intros Hnd Hne Hg Hle. rewrite cleanup_get, Hg by assumption.
  assert (E : (RateLimiter.Entry.resetTime e <? now)%Z = false) by lia.
  rewrite E, andb_false_r. reflexivity.
Qed.

(** X16. [cleanupExpiredEntries] keeps keys unique.  Less than five
    minutes after the last cleanup it does nothing.  Otherwise it records
    the time and keeps exactly the entries whose window has not closed
    ([now <= resetTime]); it never drops an entry whose window is open, and
    it does nothing more when called again within five minutes. *)
Theorem cleanupExpiredEntries_spec (now : Z) (store : RateLimiter.Store) :
  NoDup (map fst store) ->
  let store' := RateLimiter.cleanupExpiredEntries now store in
  NoDup (map fst store') /\
  ((now - last_cleanup store < 5 * 60 * 1000)%Z -> store' = store) /\
  ((5 * 60 * 1000 <= now - last_cleanup store)%Z ->
   last_cleanup store' = now /\
   forall key e,
     key <> "__last_cleanup__"%string ->
     (RateLimiter.Map_get key store' = Some e <->
      RateLimiter.Map_get key store = Some e /\ (now <= RateLimiter.Entry.resetTime e)%Z)) /\
  (forall key e,
     key <> "__last_cleanup__"%string ->
     RateLimiter.Map_get key store = Some e -> (now <= RateLimiter.Entry.resetTime e)%Z ->
     RateLimiter.Map_get key store' = Some e) /\
  (forall later,
     (5 * 60 * 1000 <= now - last_cleanup store)%Z ->
     (later - now < 5 * 60 * 1000)%Z ->
     RateLimiter.cleanupExpiredEntries later store' = store').
Proof.
  intros Hnd. cbv zeta.
  assert (Hlast : (5 * 60 * 1000 <= now - last_cleanup store)%Z ->
                  last_cleanup (RateLimiter.cleanupExpiredEntries now store) = now).
  { intros H. unfold last_cleanup at 1. unfold RateLimiter.cleanupExpiredEntries.
    fold (last_cleanup store).
    assert (E : (now - last_cleanup store <? 5 * 60 * 1000)%Z = false) by lia.
    rewrite E. rewrite Map_get_filter by (apply Map_set_NoDup; exact Hnd).
    rewrite Map_get_set_same. reflexivity. }
  split; [apply cleanup_NoDup; exact Hnd|]. split; [|split; [|split]].
  - intros H. unfold RateLimiter.cleanupExpiredEntries. fold (last_cleanup store).
    assert (E : (now - last_cleanup store <? 5 * 60 * 1000)%Z = true) by lia.
    rewrite E. reflexivity.
  - intros H. split; [apply Hlast; exact H|].
    intros key e Hne. rewrite cleanup_get by assumption.
    assert (E : (5 * 60 * 1000 <=? now - last_cleanup store)%Z = true) by lia.
    rewrite E. cbn [andb].
    destruct (RateLimiter.Map_get key store) as [e0|].
    + destruct (RateLimiter.Entry.resetTime e0 <? now)%Z eqn:E0.
      * split; [discriminate|]. intros [H1 H2]. injection H1 as ->. lia.
      * split; [intros H1; injection H1 as ->; split; [reflexivity | lia] | tauto].
    + split; [discriminate | tauto].
  - intros key e Hne Hg Hle. apply cleanup_get_open; assumption.
  - intros later H Hl. specialize (Hlast H).
    unfold RateLimiter.cleanupExpiredEntries at 1.
    fold (last_cleanup (RateLimiter.cleanupExpiredEntries now store)). rewrite Hlast.
    assert (E : (later - now <? 5 * 60 * 1000)%Z = true) by lia.
    rewrite E. reflexivity.
Qed.

Lemma cleanupExpiredEntries_spec_witness :
  last_cleanup example_store = 0%Z /\
  RateLimiter.Map_get (RateLimiter.key_of "a" example_config)
                      (RateLimiter.cleanupExpiredEntries 400000 example_store) = None /\
  NoDup (map fst (RateLimiter.cleanupExpiredEntries 400000 example_store)) /\
  last_cleanup (RateLimiter.cleanupExpiredEntries 400000 example_store) = 400000%Z.
Proof.
  split; [vm_compute; reflexivity|].
  split; [vm_compute; reflexivity|].
  assert (Hnd : NoDup (map fst example_store)).
  { constructor; [intros [] | constructor]. }
  assert (Hdue : (5 * 60 * 1000 <= 400000 - last_cleanup example_store)%Z).
  { vm_compute. discriminate. }
  pose proof (cleanupExpiredEntries_spec 400000 example_store Hnd) as H.
  cbv zeta in H. destruct H as (H1 & _ & H3 & _).
  split; [exact H1 | exact (proj1 (H3 Hdue))].
Defined.

(** The opening of a window. *)
Lemma isRateLimited_fresh (now nowCleanup : Z) (identifier : string)
    (config : RateLimiter.RateLimitConfig) (store : RateLimiter.Store) :
  NoDup (map fst store) ->
  match RateLimiter.Map_get (RateLimiter.key_of identifier config) store with
  | Some e => (RateLimiter.Entry.resetTime e < now)%Z
  | None => True
  end ->
  let (result, store') := RateLimiter.isRateLimited now nowCleanup identifier config store in
  result = {| RateLimiter.limited := false;
              RateLimiter.resetTime := (now + RateLimiter.windowMs config)%Z;
              RateLimiter.remaining := (RateLimiter.maxRequests config - 1)%Z |} /\
  RateLimiter.Map_get (RateLimiter.key_of identifier config) store'
  = Some {| RateLimiter.Entry.count := 1;
            RateLimiter.Entry.resetTime := (now + RateLimiter.windowMs config)%Z |} /\
  NoDup (map fst store').
Proof.
  intros Hnd Hexp. unfold RateLimiter.isRateLimited.
  pose proof (cleanup_get nowCleanup _ store Hnd (key_of_not_marker identifier config)) as Hg.
  pose proof (cleanup_NoDup nowCleanup store Hnd) as Hnd'.
  destruct (RateLimiter.Map_get (RateLimiter.key_of identifier config) store) as [e|].
  - destruct (_ && _)%bool in Hg; rewrite Hg.
    + split; [reflexivity|]. split; [apply Map_get_set_same | apply Map_set_NoDup, Hnd'].
    + assert (E : (RateLimiter.Entry.resetTime e <? now)%Z = true) by lia. rewrite E.
      split; [reflexivity|]. split; [apply Map_get_set_same | apply Map_set_NoDup, Hnd'].
  - rewrite Hg.
    split; [reflexivity|]. split; [apply Map_get_set_same | apply Map_set_NoDup, Hnd'].
Qed.

(** A call inside an open window. *)
Lemma isRateLimited_open (now nowCleanup : Z) (identifier : string)
    (config : RateLimiter.RateLimitConfig) (store : RateLimiter.Store) (e : RateLimiter.Entry.t) :
  NoDup (map fst store) ->
  RateLimiter.Map_get (RateLimiter.key_of identifier config) store = Some e ->
  (now <= RateLimiter.Entry.resetTime e)%Z -> (nowCleanup <= RateLimiter.Entry.resetTime e)%Z ->
  let (result, store') := RateLimiter.isRateLimited now nowCleanup identifier config store in
  let limited := (RateLimiter.maxRequests config <=? RateLimiter.Entry.count e)%Z in
  let count := if limited then RateLimiter.Entry.count e else (RateLimiter.Entry.count e + 1)%Z in
  result = {| RateLimiter.limited := limited;
              RateLimiter.resetTime := RateLimiter.Entry.resetTime e;
              RateLimiter.remaining :=
                if limited then 0%Z else (RateLimiter.maxRequests config - count)%Z |} /\
  RateLimiter.Map_get (RateLimiter.key_of identifier config) store'
  = Some {| RateLimiter.Entry.count := count;
            RateLimiter.Entry.resetTime := RateLimiter.Entry.resetTime e |} /\
  NoDup (map fst store').
Proof.
  intros Hnd Hg Hnow Hc. unfold RateLimiter.isRateLimited.
  pose proof (cleanup_NoDup nowCleanup store Hnd) as Hnd'.
  rewrite (cleanup_get_open nowCleanup _ store e Hnd (key_of_not_marker _ _) Hg Hc).
  assert (E : (RateLimiter.Entry.resetTime e <? now)%Z = false) by lia. rewrite E.
  cbv zeta. destruct (RateLimiter.maxRequests config <=? RateLimiter.Entry.count e)%Z.
  - split; [reflexivity|]. split; [|exact Hnd'].
    rewrite (cleanup_get_open nowCleanup _ store e Hnd (key_of_not_marker _ _) Hg Hc).
    destruct e; reflexivity.
  - split; [reflexivity|]. split; [apply Map_get_set_same | apply Map_set_NoDup, Hnd'].
Qed.

(** A call for another key leaves an open window as it is. *)
Lemma isRateLimited_other (now nowCleanup : Z) (identifier : string)
    (config : RateLimiter.RateLimitConfig) (store : RateLimiter.Store) (key : string)
    (e : RateLimiter.Entry.t) :
  NoDup (map fst store) ->
  key <> "__last_cleanup__"%string ->
  RateLimiter.key_of identifier config <> key ->
  RateLimiter.Map_get key store = Some e ->
  (nowCleanup <= RateLimiter.Entry.resetTime e)%Z ->
  let store' := snd (RateLimiter.isRateLimited now nowCleanup identifier config store) in
  RateLimiter.Map_get key store' = Some e /\ NoDup (map fst store').
Proof.
  intros Hnd Hm Hne Hg Hc. cbv zeta. unfold RateLimiter.isRateLimited.
  pose proof (cleanup_NoDup nowCleanup store Hnd) as Hnd'.
  pose proof (cleanup_get_open nowCleanup key store e Hnd Hm Hg Hc) as Hg'.
  destruct (RateLimiter.Map_get (RateLimiter.key_of identifier config) _) as [e0|]; cbn [snd].
  - destruct (RateLimiter.Entry.resetTime e0 <? now)%Z; cbn [snd].
    + rewrite Map_get_set_other by exact Hne. split; [exact Hg' | apply Map_set_NoDup, Hnd'].
    + destruct (RateLimiter.maxRequests config <=? RateLimiter.Entry.count e0)%Z; cbn [snd].
      * split; [exact Hg' | exact Hnd'].
      * rewrite Map_get_set_other by exact Hne.
        split; [exact Hg' | apply Map_set_NoDup, Hnd'].
  - rewrite Map_get_set_other by exact Hne. split; [exact Hg' | apply Map_set_NoDup, Hnd'].
Qed.

Lemma window_result_shift (config : RateLimiter.RateLimitConfig) (R count : Z) (n : nat) :
  let count' := if (RateLimiter.maxRequests config <=? count)%Z then count else (count + 1)%Z in
  map (window_result config R count') (seq 0 n)
  = map (window_result config R count) (seq 1 n).
Proof.
  cbv zeta. rewrite <- seq_shift, map_map. apply map_ext. intros j.
  unfold window_result.
  destruct (RateLimiter.maxRequests config <=? count)%Z eqn:E.
  - apply Z.leb_le in E.
    assert (E1 : (RateLimiter.maxRequests config <=? count + Z.of_nat j)%Z = true)
      by (apply Z.leb_le; lia).
    assert (E2 : (RateLimiter.maxRequests config <=? count + Z.of_nat (S j))%Z = true)
      by (apply Z.leb_le; lia).
    rewrite E1, E2. reflexivity.
  - replace (count + 1 + Z.of_nat j)%Z with (count + Z.of_nat (S j))%Z by lia.
    reflexivity.
Qed.

Lemma window_calls (identifier : string) (config : RateLimiter.RateLimitConfig) (R : Z)
    (calls : list Call) :
  forall (store : RateLimiter.Store) (count : Z),
    NoDup (map fst store) ->
    RateLimiter.Map_get (RateLimiter.key_of identifier config) store
    = Some {| RateLimiter.Entry.count := count; RateLimiter.Entry.resetTime := R |} ->
    Forall (fun c => (at_now c <= R)%Z /\ (at_nowCleanup c <= R)%Z /\
                     (by_identifier c = identifier /\ with_config c = config \/
                      call_key c <> RateLimiter.key_of identifier config)) calls ->
    let (results, store') := serve_calls calls store in
    let own := results_for (RateLimiter.key_of identifier config) calls results in
    List.length results = List.length calls /\
    own = map (window_result config R count) (seq 0 (List.length own)) /\
    NoDup (map fst store') /\
    exists count',
      RateLimiter.Map_get (RateLimiter.key_of identifier config) store'
      = Some {| RateLimiter.Entry.count := count'; RateLimiter.Entry.resetTime := R |} /\
      (count <= count')%Z.
Proof.
  induction calls as [|c rest IH]; intros store count Hnd Hg Hall.
  - cbn. split; [reflexivity|]. split; [reflexivity|]. split; [exact Hnd|].
    exists count. split; [exact Hg | lia].
  - inversion Hall as [|x xs (Hn & Hc & Hkey) Hrest]; subst.
    cbn [serve_calls].
    destruct Hkey as [[Hid Hcfg] | Hother].
    + pose proof (isRateLimited_open (at_now c) (at_nowCleanup c) identifier config store _
                    Hnd Hg Hn Hc) as H1.
      rewrite Hid, Hcfg.
      destruct (RateLimiter.isRateLimited _ _ identifier config store) as [r1 s1].
      cbv zeta in H1. cbn [RateLimiter.Entry.count RateLimiter.Entry.resetTime] in H1.
      destruct H1 as (Hr & Hg1 & Hnd1).
      specialize (IH s1 _ Hnd1 Hg1 Hrest).
      destruct (serve_calls rest s1) as [results s2].
      cbv zeta in IH. destruct IH as (Hlen & Hown & Hnd2 & count' & Hg2 & Hle).
      cbv zeta. split; [cbn [List.length]; rewrite Hlen; reflexivity|].
      split; [|split; [exact Hnd2|]].
      * unfold results_for in *. cbn [combine filter fst].
        assert (Ek : String.eqb (call_key c) (RateLimiter.key_of identifier config) = true)
          by (unfold call_key; rewrite Hid, Hcfg; apply String.eqb_refl).
        rewrite !Ek. cbn [map snd List.length seq]. f_equal.
        -- rewrite Hr. unfold window_result.
           replace (count + Z.of_nat 0)%Z with count by (cbn [Z.of_nat]; lia).
           destruct (RateLimiter.maxRequests config <=? count)%Z; reflexivity.
        -- rewrite Hown at 1. apply window_result_shift.
      * exists count'. split; [exact Hg2|].
        destruct (RateLimiter.maxRequests config <=? count)%Z; lia.
    + assert (Hm : RateLimiter.key_of identifier config <> "__last_cleanup__"%string)
        by apply key_of_not_marker.
      pose proof (isRateLimited_other (at_now c) (at_nowCleanup c) (by_identifier c)
                    (with_config c) store _ _ Hnd Hm Hother Hg Hc) as H1.
      destruct (RateLimiter.isRateLimited _ _ (by_identifier c) (with_config c) store) as [r1 s1].
      cbv zeta in H1. cbn [snd] in H1. destruct H1 as (Hg1 & Hnd1).
      specialize (IH s1 _ Hnd1 Hg1 Hrest).
      destruct (serve_calls rest s1) as [results s2].
      cbv zeta in IH. destruct IH as (Hlen & Hown & Hnd2 & count' & Hg2 & Hle).
      cbv zeta. split; [cbn [List.length]; rewrite Hlen; reflexivity|].
      split; [|split; [exact Hnd2 | exists count'; split; assumption]].
      unfold results_for in *. cbn [combine filter fst].
      destruct (String.eqb (call_key c) (RateLimiter.key_of identifier config)) eqn:E;
        [apply String.eqb_eq in E; congruence|].
      exact Hown.
Qed.

Lemma admitted_count (config : RateLimiter.RateLimitConfig) (R count : Z) (n : nat) :
  Z.of_nat (List.length (filter (fun r => negb (RateLimiter.limited r))
                                (map (window_result config R count) (seq 0 n))))
  = Z.min (Z.of_nat n) (Z.max 0 (RateLimiter.maxRequests config - count)).
Proof.
  induction n as [|n IH]; [cbn; lia|].
  rewrite seq_S, map_app, filter_app, length_app, Nat2Z.inj_add, IH.
  cbn [Nat.add map filter window_result RateLimiter.limited].
  destruct (RateLimiter.maxRequests config <=? count + Z.of_nat n)%Z eqn:E; cbn [negb List.length].
  - apply Z.leb_le in E. lia.
  - apply Z.leb_gt in E. lia.
Qed.

(** X17. One window of [isRateLimited].  The call that finds no entry for
    its key, or a closed window, is admitted whatever [maxRequests] is, and
    opens a window closing at [now + windowMs].  While that window is open
    the [j]-th further call for the key is refused exactly when
    [maxRequests <= 1 + j], calls for other keys notwithstanding; so of [n]
    calls for the key [min n (max 1 maxRequests)] are admitted. *)
Theorem isRateLimited_window (identifier : string) (config : RateLimiter.RateLimitConfig)
    (first : Call) (calls : list Call) (store : RateLimiter.Store) :
  NoDup (map fst store) ->
  by_identifier first = identifier -> with_config first = config ->
  match RateLimiter.Map_get (RateLimiter.key_of identifier config) store with
  | Some e => (RateLimiter.Entry.resetTime e < at_now first)%Z
  | None => True
  end ->
  let R := (at_now first + RateLimiter.windowMs config)%Z in
  Forall (fun c => (at_now c <= R)%Z /\ (at_nowCleanup c <= R)%Z /\
                   (by_identifier c = identifier /\ with_config c = config \/
                    call_key c <> RateLimiter.key_of identifier config)) calls ->
  let (results, store') := serve_calls (first :: calls) store in
  let own := results_for (RateLimiter.key_of identifier config) (first :: calls) results in
  own = {| RateLimiter.limited := false;
           RateLimiter.resetTime := R;
           RateLimiter.remaining := (RateLimiter.maxRequests config - 1)%Z |}
        :: map (window_result config R 1) (seq 0 (List.length own - 1)) /\
  Z.of_nat (List.length (filter (fun r => negb (RateLimiter.limited r)) own))
  = Z.min (Z.of_nat (List.length own)) (Z.max 1 (RateLimiter.maxRequests config)).
Proof.
  intros Hnd Hid Hcfg Hexp R Hall.
  cbn [serve_calls]. rewrite Hid, Hcfg.
  pose proof (isRateLimited_fresh (at_now first) (at_nowCleanup first) identifier config
                store Hnd Hexp) as H1.
  destruct (RateLimiter.isRateLimited _ _ identifier config store) as [r1 s1].
  destruct H1 as (Hr & Hg1 & Hnd1). fold R in Hr, Hg1.
  pose proof (window_calls identifier config R calls s1 1%Z Hnd1 Hg1 Hall) as H2.
  destruct (serve_calls calls s1) as [results s2].
  cbv zeta in H2. destruct H2 as (_ & Hown & _).
  cbv zeta. unfold results_for in *. cbn [combine filter fst].
  assert (Ek : String.eqb (call_key first) (RateLimiter.key_of identifier config) = true)
    by (unfold call_key; rewrite Hid, Hcfg; apply String.eqb_refl).
  rewrite Ek. cbn [map snd List.length]. rewrite Nat.sub_succ, Nat.sub_0_r.
  set (own := map snd (filter _ (combine calls results))) in *.
  split.
  - rewrite Hr. f_equal. exact Hown.
  - rewrite Hr. cbn [filter RateLimiter.limited negb List.length]. rewrite Hown.
    rewrite Nat2Z.inj_succ, admitted_count, length_map, length_seq. lia.
Qed.

Lemma isRateLimited_window_witness :
  map RateLimiter.limited
      (fst (serve_calls (example_call 600 "a"
                         :: [example_call 700 "a"; example_call 800 "b";
                             example_call 900 "a"; example_call 1600 "a"])
                        example_store))
  = [false; false; false; true; true] /\
  let (results, store') :=
    serve_calls (example_call 600 "a"
                 :: [example_call 700 "a"; example_call 800 "b";
                     example_call 900 "a"; example_call 1600 "a"])
                example_store in
  let own :=
    results_for (RateLimiter.key_of "a" example_config)
                (example_call 600 "a"
                 :: [example_call 700 "a"; example_call 800 "b";
                     example_call 900 "a"; example_call 1600 "a"])
                results in
  own = {| RateLimiter.limited := false;
           RateLimiter.resetTime := (600 + 1000)%Z;
           RateLimiter.remaining := (2 - 1)%Z |}
        :: map (window_result example_config (600 + 1000) 1)
               (seq 0 (List.length own - 1)) /\
  Z.of_nat (List.length (filter (fun r => negb (RateLimiter.limited r)) own))
  = Z.min (Z.of_nat (List.length own)) (Z.max 1 2).
Proof.
  split; [vm_compute; reflexivity|].
  assert (Hnd : NoDup (map fst example_store)).
  { constructor; [intros [] | constructor]. }
  refine (isRateLimited_window "a" example_config (example_call 600 "a")
            [example_call 700 "a"; example_call 800 "b";
             example_call 900 "a"; example_call 1600 "a"]
            example_store Hnd eq_refl eq_refl _ _).
  - vm_compute. reflexivity.
  - constructor;
      [split; [vm_compute; discriminate
              | split; [vm_compute; discriminate | left; split; reflexivity]]|].
    constructor;
      [split; [vm_compute; discriminate
              | split; [vm_compute; discriminate | right; vm_compute; discriminate]]|].
    constructor;
      [split; [vm_compute; discriminate
              | split; [vm_compute; discriminate | left; split; reflexivity]]|].
    constructor;
      [split; [vm_compute; discriminate
              | split; [vm_compute; discriminate | left; split; reflexivity]]|].
    constructor.
Defined.

(** ** The shared game handler *)

Lemma game_settle_eq {Params Extra : Set} (gameLogic : GameHandler.GameLogic Params Extra)
    (uid : string) (req : GameHandler.GameBetRequest Params)
    (seed hash cs uuid : string) (db : Database) :
  GameHandler.settle gameLogic uid req seed hash cs uuid db =
  match balance_of uid db with
  | None => inl "Insufficient balance"%string
  | Some bal =>
      if Qltb bal (GameHandler.amount req) then inl "Insufficient balance"%string
      else
        let nonce := (current_nonce uid db + 1)%Z in
        let b := game_bet gameLogic uid req seed hash cs uuid nonce in
        if existsb (fun r => String.eqb (table.bet.id r) uuid) (bets db)
        then inl "UNIQUE constraint failed: bet.id"%string
        else inr (game_result b
                    (GameHandler.Calc.gameSpecificResult
                       (GameHandler.calculateResult gameLogic seed cs nonce req))
                    (bal + (table.bet.payout b - table.bet.amount b)),
                  committed b db)
  end.
Proof.
  unfold GameHandler.settle, balance_of, current_nonce, committed, bind, select_userGameSession,
    select_user, insert_userGameSession, insert_bet, update_user_balance,
    update_userGameSession_nonce, ret, throw.
  cbn [table.userGameSession.userId game_bet table.bet.userId table.bet.payout
       table.bet.amount table.bet.nonce table.bet.id].
  settle_cases uid db;
    (destruct (Qltb (table.user.balance u) (GameHandler.amount req)); [reflexivity|]);
    settle_commit.
Qed.

Lemma handleGameBet_eq {Params Extra : Set} (gameLogic : GameHandler.GameLogic Params Extra)
    (event : GameHandler.BetEvent Params) (db : Database) (store : RateLimiter.Store) :
  GameHandler.handleGameBet event gameLogic db store =
  let http := snd (Csrf.handleCSRF (GameHandler.csrfRandom event) (GameHandler.http event)) in
  if negb (fst (Csrf.handleCSRF (GameHandler.csrfRandom event) (GameHandler.http event))) then
    ((json_failure (Some "CSRF token validation failed"%string) 403, None),
     (db, store, http))
  else
    match sessionToken (GameHandler.request event) with
    | None | Some EmptyString =>
        ((json_failure (Some "Authentication required"%string) 401, None),
         (db, store, http))
    | Some _ =>
        match validatedUser (GameHandler.request event) with
        | None =>
            ((json_failure (Some "Invalid session"%string) 401, None), (db, store, http))
        | Some user =>
            let userIdentifier := (table.user.id user ++ ":betting")%string in
            let first :=
              RateLimiter.isRateLimited (GameHandler.now1 event) (GameHandler.now2 event)
                userIdentifier RateLimiter.RATE_LIMITS_betting store in
            let second :=
              RateLimiter.getRateLimitHeaders (GameHandler.now3 event) (GameHandler.now4 event)
                (GameHandler.now5 event) userIdentifier RateLimiter.RATE_LIMITS_betting
                (snd first) in
            if RateLimiter.limited (fst first) then
              ((json_failure (Some "Too many bets. Please slow down."%string) 429,
                Some (fst second)), (db, snd second, http))
            else
              let '(response, with_headers, db') := admitted_bet gameLogic event user db in
              ((response, if with_headers then Some (fst second) else None),
               (db', snd second, http))
        end
    end.
Proof.
  unfold GameHandler.handleGameBet, admitted_bet.
  destruct (Csrf.handleCSRF (GameHandler.csrfRandom event) (GameHandler.http event)) as [ok http].
  cbn [fst snd]. cbv zeta.
  destruct (negb ok); [reflexivity|].
  destruct (sessionToken (GameHandler.request event)) as [[|c token]|]; try reflexivity.
  destruct (validatedUser (GameHandler.request event)) as [user|]; [|reflexivity].
  destruct (RateLimiter.isRateLimited _ _ _ _ store) as [r1 s1]. cbn [fst snd].
  destruct (RateLimiter.getRateLimitHeaders _ _ _ _ _ s1) as [h s2]. cbn [fst snd].
  destruct (RateLimiter.limited r1); [reflexivity|].
  destruct (body (GameHandler.request event)) as [req|]; [|reflexivity].
  destruct (negb (ProvablyFair.valid _)); [reflexivity|].
  cbn [ProvablyFair.generateServerSeed]. unfold transaction.
  destruct (GameHandler.settle _ _ _ _ _ _ _ db) as [m | [r db']]; reflexivity.
Qed.

Lemma translate_error_failure {R : Set} (message : string) :
  exists e s, translate_error (R := R) message = json_failure e s /\ (s = 400 \/ s = 500)%Z.
Proof.
  unfold translate_error. destruct (String.eqb message _); eauto.
Qed.

(** An admitted request is either refused, leaving the database as it was,
    or commits the row [game_bet] on a balance that covers the amount. *)
Lemma admitted_bet_outcome {Params Extra : Set} (gameLogic : GameHandler.GameLogic Params Extra)
    (event : GameHandler.BetEvent Params) (user : table.user.row) (db : Database) :
  (exists e s h, admitted_bet gameLogic event user db = (json_failure e s, h, db)
                 /\ (s = 400 \/ s = 500)%Z) \/
  (exists req bal,
      body (GameHandler.request event) = Some req /\
      ProvablyFair.valid (GameHandler.validateBet gameLogic req (table.user.balance user)) = true /\
      balance_of (table.user.id user) db = Some bal /\
      GameHandler.amount req <= bal /\
      let seed := hex_of_bytes (random32 (GameHandler.request event)) in
      let cs :=
        finalClientSeed_of (GameHandler.clientSeed req) (random16 (GameHandler.request event)) in
      let nonce := (current_nonce (table.user.id user) db + 1)%Z in
      let b := game_bet gameLogic (table.user.id user) req seed (SHA256.sha256_hex seed) cs
                        (randomUUID (GameHandler.request event)) nonce in
      existsb (fun r => String.eqb (table.bet.id r) (table.bet.id b)) (bets db) = false /\
      admitted_bet gameLogic event user db
      = (json_success
           (game_result b
              (GameHandler.Calc.gameSpecificResult
                 (GameHandler.calculateResult gameLogic seed cs nonce req))
              (bal + (table.bet.payout b - table.bet.amount b))),
         true, committed b db)).
Proof.
  unfold admitted_bet.
  destruct (body (GameHandler.request event)) as [req|]; [|left; eauto 7].
  destruct (ProvablyFair.valid _) eqn:Hv; cbn [negb]; [|left; eauto 7].
  rewrite game_settle_eq.
  destruct (balance_of (table.user.id user) db) as [bal|] eqn:Hbal;
    [|left; unfold translate_error; cbn; eauto 7].
  destruct (Qltb bal (GameHandler.amount req)) eqn:Hlt;
    [left; unfold translate_error; cbn; eauto 7|].
  apply Qltb_ge in Hlt. cbv zeta.
  destruct (existsb _ (bets db)) eqn:Hfresh;
    [left; unfold translate_error; cbn; eauto 7|].
  right. exists req, bal. repeat split; try assumption; reflexivity.
Qed.

(** The same for the handler as a whole. *)
Lemma handleGameBet_outcome {Params Extra : Set} (gameLogic : GameHandler.GameLogic Params Extra)
    (event : GameHandler.BetEvent Params) (db : Database) (store : RateLimiter.Store) :
  (exists e s h store' http',
      GameHandler.handleGameBet event gameLogic db store
      = ((json_failure e s, h), (db, store', http'))) \/
  (exists user req bal h store' http',
      validatedUser (GameHandler.request event) = Some user /\
      body (GameHandler.request event) = Some req /\
      ProvablyFair.valid (GameHandler.validateBet gameLogic req (table.user.balance user)) = true /\
      balance_of (table.user.id user) db = Some bal /\
      GameHandler.amount req <= bal /\
      let seed := hex_of_bytes (random32 (GameHandler.request event)) in
      let cs :=
        finalClientSeed_of (GameHandler.clientSeed req) (random16 (GameHandler.request event)) in
      let nonce := (current_nonce (table.user.id user) db + 1)%Z in
      let b := game_bet gameLogic (table.user.id user) req seed (SHA256.sha256_hex seed) cs
                        (randomUUID (GameHandler.request event)) nonce in
      existsb (fun r => String.eqb (table.bet.id r) (table.bet.id b)) (bets db) = false /\
      GameHandler.handleGameBet event gameLogic db store
      = ((json_success
            (game_result b
               (GameHandler.Calc.gameSpecificResult
                 (GameHandler.calculateResult gameLogic seed cs nonce req))
               (bal + (table.bet.payout b - table.bet.amount b))),
          Some h), (committed b db, store', http'))).
Proof.
  rewrite handleGameBet_eq. cbv zeta.
  destruct (negb (fst (Csrf.handleCSRF _ _))); [left; do 5 eexists; reflexivity|].
  destruct (sessionToken (GameHandler.request event)) as [[|c token]|];
    try (left; do 5 eexists; reflexivity).
  destruct (validatedUser (GameHandler.request event)) as [user|];
    [|left; do 5 eexists; reflexivity].
  destruct (RateLimiter.limited _); [left; do 5 eexists; reflexivity|].
  destruct (admitted_bet_outcome gameLogic event user db)
    as [(e & s & h & E & _) | (req & bal & Hb & Hv & Hbal & Hle & Hrest)].
  - rewrite E. left. do 5 eexists. reflexivity.
  - cbv zeta in Hrest. destruct Hrest as [Hfresh E]. rewrite E.
    right. exists user, req, bal. eexists. eexists. eexists.
    repeat split; try eassumption; reflexivity.
Qed.

Lemma nonce_invariant_committed (db : Database) (b : table.bet.row) :
  nonce_invariant db ->
  table.bet.nonce b = (current_nonce (table.bet.userId b) db + 1)%Z ->
  nonce_invariant (committed b db).
Proof.
  intros Hinv Hnonce uid. destruct (Hinv uid) as (n & Hn & Hc).
  rewrite nonces_of_committed, current_nonce_committed.
  destruct (String.eqb uid (table.bet.userId b)) eqn:E.
  - apply String.eqb_eq in E. subst uid. exists (S n).
    rewrite Hnonce, Hc, Hn, nonce_run_succ. split; [reflexivity | lia].
  - exists n. rewrite app_nil_r. split; assumption.
Qed.

Lemma balance_invariant_committed (db : Database) (b : table.bet.row) (bal : Q) :
  balance_invariant db ->
  balance_of (table.bet.userId b) db = Some bal ->
  table.bet.amount b <= bal -> 0 <= table.bet.payout b ->
  balance_invariant (committed b db).
Proof.
  intros [Hnd Hpos] Hbal Hfunds Hpay.
  split; unfold committed; cbn [users].
  - rewrite map_id_add_balance. exact Hnd.
  - apply Forall_map. rewrite Forall_forall in Hpos |- *.
    intros u Hin. pose proof (Hpos u Hin) as Hu. unfold add_balance.
    destruct (String.eqb (table.user.id u) (table.bet.userId b)) eqn:E;
      [|exact Hu].
    cbn [table.user.balance]. apply String.eqb_eq in E.
    pose proof (balance_of_unique db u Hnd Hin) as Hb.
    rewrite E, Hbal in Hb. injection Hb as Hb. subst bal. lra.
Qed.


(** X19. For a game whose validated bets are never paid a negative amount,
    [handleGameBet] moves the balance by [payout - amount] on a balance that
    covered the amount, leaves it alone on failure, and preserves the ledger
    invariant (unique principals, no negative balance). *)
Theorem handleGameBet_balance {Params Extra : Set}
    (gameLogic : GameHandler.GameLogic Params Extra) :
  (forall req balance seed cs nonce,
      ProvablyFair.valid (GameHandler.validateBet gameLogic req balance) = true ->
      0 <= GameHandler.Calc.payout (GameHandler.calculateResult gameLogic seed cs nonce req)) ->
  forall (event : GameHandler.BetEvent Params) (db : Database) (store : RateLimiter.Store),
    let out := GameHandler.handleGameBet event gameLogic db store in
    let response := fst (fst out) in
    let db' := fst (fst (snd out)) in
    moves_balance (validatedUser (GameHandler.request event)) db (response, db') /\
    (balance_invariant db -> balance_invariant db').
Proof.
  intros Hpay event db store. cbv zeta. unfold moves_balance.
  destruct (handleGameBet_outcome gameLogic event db store)
    as [(e & s & h & store' & http' & E)
       | (user & req & bal & h & store' & http' & Hu & Hb & Hv & Hbal & Hle & Hrest)].
  - rewrite E. cbn [fst snd]. split; [reflexivity | tauto].
  - cbv zeta in Hrest. destruct Hrest as (Hfresh & E). rewrite E. cbn [fst snd].
    set (b := game_bet _ _ _ _ _ _ _ _) in *.
    assert (Hp : 0 <= table.bet.payout b) by (apply (Hpay req _ _ _ _ Hv)).
    assert (Ha : table.bet.amount b <= bal) by exact Hle.
    split.
    + exists user, b, bal.
      change (table.user.id user) with (table.bet.userId b).
      repeat split; try assumption; try reflexivity;
        [apply balance_of_committed; exact Hbal | lra].
    + intros Hinv. apply (balance_invariant_committed db b bal); assumption.
Qed.

Lemma coinFlip_payout_nonneg (req : GameHandler.GameBetRequest ProvablyFair.Side) (balance : Q)
    (seed cs : string) (nonce : Z) :
  ProvablyFair.valid (GameHandler.validateBet FlipRoute.coinFlipGameLogic req balance) = true ->
  0 <= GameHandler.Calc.payout
         (GameHandler.calculateResult FlipRoute.coinFlipGameLogic seed cs nonce req).
Proof.
  cbn [FlipRoute.coinFlipGameLogic GameHandler.validateBet GameHandler.calculateResult
       GameHandler.Calc.payout].
  intros Hv. apply validateCoinFlipBet_valid in Hv. destruct Hv as [Ha _].
  apply payout_nonneg; [exact Ha|]. apply calculateMultiplier_pos. reflexivity.
Qed.

Lemma handleGameBet_balance_witness :
  let out := FlipRoute.POST (example_bet_event 1000 "bet-7") example_db1 [] in
  status_of (fst (fst out)) = 200%Z /\
  match balance_of "u1" (fst (fst (snd out))) with
  | Some balance => balance == 1050
  | None => False
  end /\
  moves_balance (validatedUser (GameHandler.request (example_bet_event 1000 "bet-7")))
                example_db1 (fst (fst out), fst (fst (snd out))).
Proof.
  cbv zeta.
  split; [vm_compute; reflexivity|].
  split; [vm_compute; reflexivity|].
  exact (proj1 (handleGameBet_balance FlipRoute.coinFlipGameLogic coinFlip_payout_nonneg
                  (example_bet_event 1000 "bet-7") example_db1 [])).
Defined.

Lemma map_translate_error {R R' : Set} (f : R -> R') (message : string) :
  map_response f (translate_error message) = translate_error message.
Proof. unfold translate_error. destruct (String.eqb message _); reflexivity. Qed.

Lemma admitted_flip (event : GameHandler.BetEvent ProvablyFair.Side) (user : table.user.row)
    (db : Database) (c : ascii) (token : string) :
  sessionToken (GameHandler.request event) = Some (String c token) ->
  validatedUser (GameHandler.request event) = Some user ->
  let '(response, _, db') := admitted_bet FlipRoute.coinFlipGameLogic event user db in
  (map_response to_flip_result response, db') = Flip.POST (to_flip_event event) db.
Proof.
  intros Ht Hu. unfold Flip.POST, to_flip_event, admitted_bet.
  cbn [sessionToken validatedUser body random32 random16 randomUUID].
  rewrite Ht, Hu.
  destruct (body (GameHandler.request event)) as [req|]; cbn [option_map]; [|reflexivity].
  change (GameHandler.validateBet FlipRoute.coinFlipGameLogic req (table.user.balance user))
    with (ProvablyFair.validateCoinFlipBet (Flip.amount (to_flip_request req))
            (Flip.side (to_flip_request req)) (table.user.balance user)).
  destruct (negb (ProvablyFair.valid _)); [reflexivity|].
  cbn [ProvablyFair.generateServerSeed]. unfold transaction.
  rewrite game_settle_eq, flip_settle_eq.
  change (Flip.amount (to_flip_request req)) with (GameHandler.amount req).
  change (Flip.clientSeed (to_flip_request req)) with (GameHandler.clientSeed req).
  destruct (balance_of (table.user.id user) db) as [bal|];
    [|cbn [map_response]; rewrite map_translate_error; reflexivity].
  destruct (Qltb bal (GameHandler.amount req));
    [cbn [map_response]; rewrite map_translate_error; reflexivity|].
  cbv zeta.
  destruct (existsb _ (bets db));
    [cbn [map_response]; rewrite map_translate_error; reflexivity|].
  reflexivity.
Qed.

Lemma flip_POST_status (event : RequestEvent Flip.CoinFlipBetRequest) (db : Database) :
  let s := status_of (fst (Flip.POST event db)) in
  (s = 200 \/ s = 400 \/ s = 401 \/ s = 500)%Z.
Proof.
  cbv zeta.
  destruct (sessionToken event) as [[|c token]|] eqn:Ht;
    try (unfold Flip.POST; rewrite Ht; cbn; lia).
  destruct (validatedUser event) as [user|] eqn:Hu;
    [|unfold Flip.POST; rewrite Ht, Hu; cbn; lia].
  destruct (body event) as [req|] eqn:Hb;
    [|unfold Flip.POST; rewrite Ht, Hu, Hb; cbn; lia].
  destruct (ProvablyFair.valid
              (ProvablyFair.validateCoinFlipBet (Flip.amount req) (Flip.side req)
                 (table.user.balance user))) eqn:Hv;
    [|unfold Flip.POST; rewrite Ht, Hu, Hb, Hv; cbn; lia].
  rewrite (flip_POST_accepted event db c token user req Ht Hu Hb Hv).
  destruct (Flip.settle _ _ _ _ _ _ db) as [m | [r d]]; [|cbn; lia].
  destruct (translate_error_failure (R := Flip.CoinFlipBetResult) m) as (e & s & -> & Hs).
  cbn. lia.
Qed.

(** X20. The flip route built on [handleGameBet] answers 403 exactly when
    the CSRF check fails, and then touches neither the database nor the
    rate-limit store; a 429 leaves the database as it was; any other answer
    and the database it leaves are those of the original flip handler on
    the same request.  So the route keeps the database among the committed
    states. *)
Theorem FlipRoute_POST_refines (event : GameHandler.BetEvent ProvablyFair.Side) (db : Database)
    (store : RateLimiter.Store) :
  let out := FlipRoute.POST event db store in
  let response := fst (fst out) in
  let db' := fst (fst (snd out)) in
  (fst (Csrf.handleCSRF (GameHandler.csrfRandom event) (GameHandler.http event)) = false <->
   status_of response = 403%Z) /\
  (status_of response = 403%Z ->
   db' = db /\ snd (fst (snd out)) = store /\ snd (fst out) = None) /\
  (status_of response = 429%Z -> db' = db) /\
  (status_of response <> 403%Z -> status_of response <> 429%Z ->
   (map_response to_flip_result response, db') = Flip.POST (to_flip_event event) db) /\
  (reachable db -> reachable db').
Proof.
  cbv zeta. unfold FlipRoute.POST. rewrite handleGameBet_eq. cbv zeta.
  pose proof (flip_POST_status (to_flip_event event) db) as Hflip. cbv zeta in Hflip.
  assert (Hstep : forall d, d = snd (Flip.POST (to_flip_event event) db) ->
                            reachable db -> reachable d).
  { intros d -> Hr. apply (reachable_step db); [exact Hr | apply step_flip]. }
  destruct (fst (Csrf.handleCSRF _ _)); cbn [negb fst snd status_of].
  2:{ repeat split; try reflexivity; try discriminate; try tauto; try congruence. }
  destruct (sessionToken (GameHandler.request event)) as [[|c token]|] eqn:Ht;
    cbn [fst snd status_of].
  1,3: (split; [split; discriminate|]; split; [discriminate|]; split; [reflexivity|];
        split; [|tauto];
        intros _ _; unfold Flip.POST, to_flip_event; cbn [sessionToken]; rewrite Ht;
        reflexivity).
  destruct (validatedUser (GameHandler.request event)) as [user|] eqn:Hu; cbn [fst snd status_of].
  2:{ split; [split; discriminate|]. split; [discriminate|]. split; [reflexivity|].
      split; [|tauto].
      intros _ _. unfold Flip.POST, to_flip_event. cbn [sessionToken validatedUser].
      rewrite Ht, Hu. reflexivity. }
  destruct (RateLimiter.limited _); cbn [fst snd status_of].
  { split; [split; discriminate|]. split; [discriminate|]. split; [reflexivity|].
    split; [congruence | tauto]. }
  pose proof (admitted_flip event user db c token Ht Hu) as Ha.
  destruct (admitted_bet FlipRoute.coinFlipGameLogic event user db) as [[response h] d].
  cbn [fst snd].
  assert (Hs : status_of response
               = status_of (fst (Flip.POST (to_flip_event event) db))).
  { rewrite <- Ha. cbn [fst]. destruct response; reflexivity. }
  assert (Hd : d = snd (Flip.POST (to_flip_event event) db)) by (rewrite <- Ha; reflexivity).
  rewrite Hs.
  split; [split; [discriminate | intros; exfalso; lia]|].
  split; [intros; exfalso; lia|]. split; [intros; exfalso; lia|].
  split; [intros _ _; exact Ha | apply Hstep; exact Hd].
Qed.

Lemma getRateLimitHeaders_eq (now nowCleanup nowHeader : Z) (identifier : string)
    (config : RateLimiter.RateLimitConfig) (store : RateLimiter.Store) :
  let result := RateLimiter.isRateLimited now nowCleanup identifier config store in
  RateLimiter.getRateLimitHeaders now nowCleanup nowHeader identifier config store
  = ({| RateLimiter.X_RateLimit_Limit := string_of_int (RateLimiter.maxRequests config);
        RateLimiter.X_RateLimit_Remaining :=
          string_of_int (RateLimiter.number_or (RateLimiter.remaining (fst result)) 0);
        RateLimiter.X_RateLimit_Reset :=
          string_of_int (RateLimiter.ceil_div_1000
                           (RateLimiter.number_or (RateLimiter.resetTime (fst result))
                                                  nowHeader)) |},
     snd result).
Proof.
  cbv zeta. unfold RateLimiter.getRateLimitHeaders.
  destruct (RateLimiter.isRateLimited _ _ _ _ store) as [r s]. reflexivity.
Qed.

(** What an authenticated request asks of the rate limiter: two calls,
    the first decides, the second fills the headers. *)
Lemma handleGameBet_limiter {Params Extra : Set}
    (gameLogic : GameHandler.GameLogic Params Extra) (userId : string)
    (event : GameHandler.BetEvent Params) (db : Database) (store : RateLimiter.Store) :
  authenticated userId event ->
  let first :=
    RateLimiter.isRateLimited (GameHandler.now1 event) (GameHandler.now2 event)
      (userId ++ ":betting") RateLimiter.RATE_LIMITS_betting store in
  let second :=
    RateLimiter.isRateLimited (GameHandler.now3 event) (GameHandler.now4 event)
      (userId ++ ":betting") RateLimiter.RATE_LIMITS_betting (snd first) in
  let out := GameHandler.handleGameBet event gameLogic db store in
  (status_of (fst (fst out)) =? 429)%Z = RateLimiter.limited (fst first) /\
  snd (fst (snd out)) = snd second /\
  (forall h, snd (fst out) = Some h ->
     RateLimiter.X_RateLimit_Limit h = "60"%string /\
     RateLimiter.X_RateLimit_Remaining h
     = string_of_int (RateLimiter.number_or (RateLimiter.remaining (fst second)) 0)).
Proof.
  intros (Hcsrf & (c & token & Ht) & (user & Hu & Hid)).
  cbv zeta. rewrite handleGameBet_eq. cbv zeta.
  rewrite Hcsrf, Ht, Hu, Hid. cbn [negb].
  rewrite getRateLimitHeaders_eq. cbv zeta. cbn [fst snd].
  destruct (RateLimiter.isRateLimited (GameHandler.now1 event) _ _ _ store) as [r1 s1].
  cbn [fst snd].
  destruct (RateLimiter.isRateLimited (GameHandler.now3 event) _ _ _ s1) as [r2 s2].
  cbn [fst snd].
  destruct (RateLimiter.limited r1); cbn [fst snd status_of].
  - split; [reflexivity|]. split; [reflexivity|].
    intros h Hh. injection Hh as <-. split; reflexivity.
  - assert (Hstatus : (status_of (fst (fst (admitted_bet gameLogic event user db))) =? 429)%Z
                      = false).
    { destruct (admitted_bet_outcome gameLogic event user db)
        as [(e & s & h & E & Hs) | (req & bal & _ & _ & _ & _ & Hrest)].
      - rewrite E. cbn [fst status_of]. destruct Hs as [-> | ->]; reflexivity.
      - cbv zeta in Hrest. destruct Hrest as [_ E]. rewrite E. reflexivity. }
    destruct (admitted_bet gameLogic event user db) as [[response with_headers] d].
    cbn [fst snd] in Hstatus |- *.
    split; [exact Hstatus|]. split; [reflexivity|].
    intros h Hh. destruct with_headers; [|discriminate].
    injection Hh as <-. split; reflexivity.
Qed.

(** One authenticated request in an open window, [2 * k] requests counted:
    it is refused when [k] has reached 30 and counts twice otherwise. *)
Lemma handleGameBet_counts_twice {Params Extra : Set}
    (gameLogic : GameHandler.GameLogic Params Extra) (userId : string) (R k : Z)
    (event : GameHandler.BetEvent Params) (db : Database) (store : RateLimiter.Store) :
  NoDup (map fst store) ->
  RateLimiter.Map_get (betting_key userId) store
  = Some {| RateLimiter.Entry.count := 2 * k; RateLimiter.Entry.resetTime := R |} ->
  (0 <= k <= 30)%Z ->
  authenticated userId event -> within R event ->
  let out := GameHandler.handleGameBet event gameLogic db store in
  let store' := snd (fst (snd out)) in
  let k' := if (30 <=? k)%Z then k else (k + 1)%Z in
  (status_of (fst (fst out)) =? 429)%Z = (30 <=? k)%Z /\
  NoDup (map fst store') /\
  RateLimiter.Map_get (betting_key userId) store'
  = Some {| RateLimiter.Entry.count := 2 * k'; RateLimiter.Entry.resetTime := R |} /\
  (forall h, snd (fst out) = Some h ->
     RateLimiter.X_RateLimit_Limit h = "60"%string /\
     RateLimiter.X_RateLimit_Remaining h
     = string_of_int (if (30 <=? k)%Z then 0 else 60 - 2 * k')).
Proof.
  intros Hnd Hg Hk Hauth (H1 & H2 & H3 & H4).
  pose proof (handleGameBet_limiter gameLogic userId event db store Hauth) as Hl.
  cbv zeta in Hl |- *.
  pose proof (isRateLimited_open (GameHandler.now1 event) (GameHandler.now2 event)
                (userId ++ ":betting") RateLimiter.RATE_LIMITS_betting store _ Hnd Hg H1 H2) as
                    Hfirst.
  destruct (RateLimiter.isRateLimited (GameHandler.now1 event) _ _ _ store) as [r1 s1].
  cbn [fst snd] in Hl. cbv zeta in Hfirst.
  cbn [RateLimiter.Entry.count RateLimiter.Entry.resetTime RateLimiter.maxRequests
       RateLimiter.RATE_LIMITS_betting] in Hfirst.
  destruct Hfirst as (Hr1 & Hg1 & Hnd1).
  pose proof (isRateLimited_open (GameHandler.now3 event) (GameHandler.now4 event)
                (userId ++ ":betting") RateLimiter.RATE_LIMITS_betting s1 _ Hnd1 Hg1 H3 H4) as
                    Hsecond.
  destruct (RateLimiter.isRateLimited (GameHandler.now3 event) _ _ _ s1) as [r2 s2].
  cbn [fst snd] in Hl. cbv zeta in Hsecond.
  cbn [RateLimiter.Entry.count RateLimiter.Entry.resetTime RateLimiter.maxRequests
       RateLimiter.RATE_LIMITS_betting] in Hsecond.
  destruct Hsecond as (Hr2 & Hg2 & Hnd2).
  destruct Hl as (Hs & -> & Hh). rewrite Hs, Hr1. cbn [RateLimiter.limited].
  assert (Hh' : forall h, snd (fst (GameHandler.handleGameBet event gameLogic db store)) = Some h ->
                RateLimiter.X_RateLimit_Limit h = "60"%string /\
                RateLimiter.X_RateLimit_Remaining h
                = string_of_int (RateLimiter.number_or (RateLimiter.remaining r2) 0))
    by exact Hh.
  clear Hh Hs. rewrite Hr2 in Hh'. cbn [RateLimiter.remaining] in Hh'.
  destruct (30 <=? k)%Z eqn:Ek.
  - assert (E1 : (60 <=? 2 * k)%Z = true) by (apply Z.leb_le; apply Z.leb_le in Ek; lia).
    rewrite !E1 in *.
    split; [reflexivity|]. split; [exact Hnd2|]. split; [exact Hg2|]. exact Hh'.
  - apply Z.leb_gt in Ek.
    assert (E1 : (60 <=? 2 * k)%Z = false) by (apply Z.leb_gt; lia).
    assert (E2 : (60 <=? 2 * k + 1)%Z = false) by (apply Z.leb_gt; lia).
    rewrite !E1 in *. rewrite !E2 in *.
    replace (2 * k + 1 + 1)%Z with (2 * (k + 1))%Z in * by lia.
    split; [reflexivity|]. split; [exact Hnd2|]. split; [exact Hg2|].
    intros h Hh. destruct (Hh' h Hh) as [HL HR]. split; [exact HL|]. rewrite HR.
    f_equal. unfold RateLimiter.number_or.
    destruct (60 - 2 * (k + 1) =? 0)%Z eqn:E0; [apply Z.eqb_eq in E0; lia | reflexivity].
Qed.

(** The request that opens a window counts twice as well. *)
Lemma handleGameBet_opens_window {Params Extra : Set}
    (gameLogic : GameHandler.GameLogic Params Extra) (userId : string)
    (event : GameHandler.BetEvent Params) (db : Database) (store : RateLimiter.Store) :
  NoDup (map fst store) ->
  match RateLimiter.Map_get (betting_key userId) store with
  | Some e => (RateLimiter.Entry.resetTime e < GameHandler.now1 event)%Z
  | None => True
  end ->
  authenticated userId event -> within (GameHandler.now1 event + 60000) event ->
  let out := GameHandler.handleGameBet event gameLogic db store in
  let store' := snd (fst (snd out)) in
  (status_of (fst (fst out)) =? 429)%Z = false /\
  NoDup (map fst store') /\
  RateLimiter.Map_get (betting_key userId) store'
  = Some {| RateLimiter.Entry.count := 2 * 1;
            RateLimiter.Entry.resetTime := (GameHandler.now1 event + 60000)%Z |} /\
  (forall h, snd (fst out) = Some h ->
     RateLimiter.X_RateLimit_Limit h = "60"%string /\
     RateLimiter.X_RateLimit_Remaining h = "58"%string).
Proof.
  intros Hnd Hexp Hauth (H1 & H2 & H3 & H4).
  pose proof (handleGameBet_limiter gameLogic userId event db store Hauth) as Hl.
  cbv zeta in Hl |- *.
  pose proof (isRateLimited_fresh (GameHandler.now1 event) (GameHandler.now2 event)
                (userId ++ ":betting") RateLimiter.RATE_LIMITS_betting store Hnd Hexp) as Hfirst.
  destruct (RateLimiter.isRateLimited (GameHandler.now1 event) _ _ _ store) as [r1 s1].
  cbn [fst snd] in Hl.
  change (RateLimiter.windowMs RateLimiter.RATE_LIMITS_betting) with 60000%Z in Hfirst.
  change (RateLimiter.maxRequests RateLimiter.RATE_LIMITS_betting) with 60%Z in Hfirst.
  destruct Hfirst as (Hr1 & Hg1 & Hnd1).
  pose proof (isRateLimited_open (GameHandler.now3 event) (GameHandler.now4 event)
                (userId ++ ":betting") RateLimiter.RATE_LIMITS_betting s1 _ Hnd1 Hg1 H3 H4) as
                    Hsecond.
  destruct (RateLimiter.isRateLimited (GameHandler.now3 event) _ _ _ s1) as [r2 s2].
  cbn [fst snd] in Hl. cbv zeta in Hsecond.
  cbn [RateLimiter.Entry.count RateLimiter.Entry.resetTime RateLimiter.maxRequests
       RateLimiter.RATE_LIMITS_betting] in Hsecond.
  change (60 <=? 1)%Z with false in Hsecond.
  destruct Hsecond as (Hr2 & Hg2 & Hnd2).
  destruct Hl as (Hs & -> & Hh). rewrite Hs, Hr1. cbn [RateLimiter.limited].
  split; [reflexivity|]. split; [exact Hnd2|]. split; [exact Hg2|].
  intros h Hh0. destruct (Hh h Hh0) as [HL HR]. split; [exact HL|].
  rewrite HR, Hr2. reflexivity.
Qed.

Lemma serve_bets_window {Params Extra : Set} (gameLogic : GameHandler.GameLogic Params Extra)
    (userId : string) (R : Z) (events : list (GameHandler.BetEvent Params)) :
  forall (db : Database) (store : RateLimiter.Store) (k : Z),
    NoDup (map fst store) ->
    RateLimiter.Map_get (betting_key userId) store
    = Some {| RateLimiter.Entry.count := 2 * k; RateLimiter.Entry.resetTime := R |} ->
    (0 <= k <= 30)%Z ->
    Forall (fun event => authenticated userId event /\ within R event) events ->
    map is_429 (fst (serve_bets gameLogic events db store))
    = map (fun i => (30 <=? k + Z.of_nat i)%Z) (seq 0 (List.length events)).
Proof.
  induction events as [|event rest IH]; intros db store k Hnd Hg Hk Hall; [reflexivity|].
  inversion Hall as [|x xs [Hauth Hin] Hrest]; subst.
  pose proof (handleGameBet_counts_twice gameLogic userId R k event db store
                Hnd Hg Hk Hauth Hin) as H.
  cbn [serve_bets].
  destruct (GameHandler.handleGameBet event gameLogic db store) as [out [[db' store'] http']].
  cbv zeta in H. cbn [fst snd] in H. destruct H as (Hs & Hnd' & Hg' & _).
  assert (Hk' : (0 <= (if (30 <=? k)%Z then k else k + 1) <= 30)%Z).
  { destruct (30 <=? k)%Z eqn:E; [lia|]. apply Z.leb_gt in E. lia. }
  specialize (IH db' store' _ Hnd' Hg' Hk' Hrest).
  destruct (serve_bets gameLogic rest db' store') as [outs final].
  cbn [fst] in IH |- *. cbn [map List.length seq]. f_equal.
  - unfold is_429. rewrite Hs. cbn [Z.of_nat]. rewrite Z.add_0_r. reflexivity.
  - rewrite IH, <- seq_shift, map_map. apply map_ext. intros i.
    destruct (30 <=? k)%Z eqn:E.
    + apply Z.leb_le in E.
      transitivity true; [|symmetry]; apply Z.leb_le; lia.
    + f_equal. lia.
Qed.

(** X21. [handleGameBet] asks the rate limiter twice per request, once
    through [isRateLimited] and once through [getRateLimitHeaders].  So
    when a principal's requests are served one after the other within one
    window, exactly the first 30 get past the limiter, not 60, and the
    first answer that carries headers says [X-RateLimit-Limit: 60] and
    [X-RateLimit-Remaining: 58]. *)
Theorem betting_limit_is_thirty {Params Extra : Set}
    (gameLogic : GameHandler.GameLogic Params Extra) (userId : string)
    (first : GameHandler.BetEvent Params) (rest : list (GameHandler.BetEvent Params))
    (db : Database) (store : RateLimiter.Store) :
  NoDup (map fst store) ->
  match RateLimiter.Map_get (betting_key userId) store with
  | Some e => (RateLimiter.Entry.resetTime e < GameHandler.now1 first)%Z
  | None => True
  end ->
  Forall (fun event => authenticated userId event /\
                       within (GameHandler.now1 first + 60000) event) (first :: rest) ->
  let outs := fst (serve_bets gameLogic (first :: rest) db store) in
  map is_429 outs = map (fun i => (30 <=? Z.of_nat i)%Z) (seq 0 (S (List.length rest))) /\
  Z.of_nat (List.length (filter (fun out => negb (is_429 out)) outs))
  = Z.min (Z.of_nat (S (List.length rest))) 30 /\
  (forall h, snd (hd (json_failure None 0, None) outs) = Some h ->
     RateLimiter.X_RateLimit_Limit h = "60"%string /\
     RateLimiter.X_RateLimit_Remaining h = "58"%string).
Proof.
  intros Hnd Hexp Hall. inversion Hall as [|x xs [Hauth Hin] Hrest]; subst.
  pose proof (handleGameBet_opens_window gameLogic userId first db store
                Hnd Hexp Hauth Hin) as H.
  cbv zeta. cbn [serve_bets].
  destruct (GameHandler.handleGameBet first gameLogic db store) as [out [[db' store'] http']].
  cbv zeta in H. cbn [fst snd] in H. destruct H as (Hs & Hnd' & Hg' & Hh).
  pose proof (serve_bets_window gameLogic userId _ rest db' store' 1 Hnd' Hg'
                ltac:(lia) Hrest) as Hw.
  destruct (serve_bets gameLogic rest db' store') as [outs final].
  cbn [fst] in Hw |- *.
  assert (Hflags : map is_429 (out :: outs)
                   = map (fun i => (30 <=? Z.of_nat i)%Z) (seq 0 (S (List.length rest)))).
  { cbn [map seq]. f_equal; [exact Hs|].
    rewrite Hw, <- seq_shift, map_map. apply map_ext. intros i. f_equal. lia. }
  split; [exact Hflags|]. split; [|exact Hh].
  assert (Hcount : forall l : list (Response (GameHandler.GameBetResult Extra)
                                    * option RateLimiter.Headers),
             List.length (filter (fun out => negb (is_429 out)) l)
             = List.length (filter negb (map is_429 l))).
  { induction l as [|a l IHl]; [reflexivity|].
    cbn [map filter]. destruct (is_429 a); cbn [negb List.length]; rewrite IHl; reflexivity. }
  rewrite Hcount, Hflags.
  generalize (S (List.length rest)). intros n.
  induction n as [|n IHn]; [reflexivity|].
  rewrite seq_S, map_app, filter_app, length_app, Nat2Z.inj_add, IHn.
  cbn [Nat.add map filter].
  destruct (30 <=? Z.of_nat n)%Z eqn:E; cbn [negb List.length].
  - apply Z.leb_le in E. lia.
  - apply Z.leb_gt in E. lia.
Qed.

Lemma betting_limit_is_thirty_witness :
  let outs :=
    fst (serve_bets FlipRoute.coinFlipGameLogic
           (example_bet_event 1000 "bet-7"
            :: [example_bet_event 1001 "bet-8"; example_bet_event 1002 "bet-9"])
           example_db1 []) in
  map is_429 outs = map (fun i => (30 <=? Z.of_nat i)%Z) (seq 0 3) /\
  Z.of_nat (List.length (filter (fun out => negb (is_429 out)) outs)) = Z.min 3 30 /\
  (forall h, snd (hd (json_failure None 0, None) outs) = Some h ->
     RateLimiter.X_RateLimit_Limit h = "60"%string /\
     RateLimiter.X_RateLimit_Remaining h = "58"%string).
Proof.
  assert (Hauth : forall now uuid, authenticated "u1" (example_bet_event now uuid)).
  { intros now uuid. split; [vm_compute; reflexivity|]. split.
    - exists "t"%char, "oken"%string. reflexivity.
    - exists example_user. split; reflexivity. }
  refine (betting_limit_is_thirty FlipRoute.coinFlipGameLogic "u1"
            (example_bet_event 1000 "bet-7")
            [example_bet_event 1001 "bet-8"; example_bet_event 1002 "bet-9"]
            example_db1 [] _ _ _).
  - constructor.
  - exact I.
  - repeat constructor; try apply Hauth; vm_compute; discriminate.
Defined.

(** ** Rate-limit headers, and bet ids that are taken *)

Lemma ceil_div_1000_bounds (x : Z) :
  (1000 * (RateLimiter.ceil_div_1000 x - 1) < x <= 1000 * RateLimiter.ceil_div_1000 x)%Z.
Proof.
  unfold RateLimiter.ceil_div_1000.
  pose proof (Z.div_mod (- x) 1000 ltac:(lia)) as H.
  pose proof (Z.mod_pos_bound (- x) 1000 ltac:(lia)) as Hm. lia.
Qed.

(** X22. Reading the rate-limit headers counts as a request: in an open
    window [getRateLimitHeaders] raises the count by one unless the limit is
    reached.  [X-RateLimit-Limit] is [maxRequests], [X-RateLimit-Remaining]
    is what is left after that count, never below 0, and [X-RateLimit-Reset]
    is the closing time in seconds, rounded up (the current time when the
    closing time is 0). *)
Theorem getRateLimitHeaders_counts (now nowCleanup nowHeader : Z) (identifier : string)
    (config : RateLimiter.RateLimitConfig) (store : RateLimiter.Store)
    (e : RateLimiter.Entry.t) :
  NoDup (map fst store) ->
  RateLimiter.Map_get (RateLimiter.key_of identifier config) store = Some e ->
  (now <= RateLimiter.Entry.resetTime e)%Z ->
  (nowCleanup <= RateLimiter.Entry.resetTime e)%Z ->
  let (headers, store') :=
    RateLimiter.getRateLimitHeaders now nowCleanup nowHeader identifier config store in
  let limited := (RateLimiter.maxRequests config <=? RateLimiter.Entry.count e)%Z in
  RateLimiter.Map_get (RateLimiter.key_of identifier config) store'
  = Some {| RateLimiter.Entry.count :=
              if limited then RateLimiter.Entry.count e
              else (RateLimiter.Entry.count e + 1)%Z;
            RateLimiter.Entry.resetTime := RateLimiter.Entry.resetTime e |} /\
  RateLimiter.X_RateLimit_Limit headers = string_of_int (RateLimiter.maxRequests config) /\
  RateLimiter.X_RateLimit_Remaining headers
  = string_of_int (Z.max 0 (RateLimiter.maxRequests config - RateLimiter.Entry.count e - 1)) /\
  exists seconds,
    RateLimiter.X_RateLimit_Reset headers = string_of_int seconds /\
    let reset := if (RateLimiter.Entry.resetTime e =? 0)%Z then nowHeader
                 else RateLimiter.Entry.resetTime e in
    (1000 * (seconds - 1) < reset <= 1000 * seconds)%Z.
Proof.
  intros Hnd Hg Hnow Hc.
  rewrite getRateLimitHeaders_eq. cbv zeta.
  pose proof (isRateLimited_open now nowCleanup identifier config store e Hnd Hg Hnow Hc)
    as H.
  destruct (RateLimiter.isRateLimited now nowCleanup identifier config store) as [r s].
  cbv zeta in H. destruct H as (Hr & Hs & _). cbn [fst snd].
  split; [exact Hs|]. split; [reflexivity|].
  cbn [RateLimiter.X_RateLimit_Remaining RateLimiter.X_RateLimit_Reset].
  rewrite Hr. cbn [RateLimiter.remaining RateLimiter.resetTime].
  split.
  - f_equal. unfold RateLimiter.number_or.
    destruct (RateLimiter.maxRequests config <=? RateLimiter.Entry.count e)%Z eqn:E.
    + apply Z.leb_le in E. cbn. lia.
    + apply Z.leb_gt in E.
      destruct (_ =? 0)%Z eqn:E0; [apply Z.eqb_eq in E0|]; lia.
  - eexists. split; [reflexivity|]. unfold RateLimiter.number_or.
    apply ceil_div_1000_bounds.
Qed.

Lemma getRateLimitHeaders_counts_witness :
  let (headers, store') :=
    RateLimiter.getRateLimitHeaders 1500 1500 1500 "a" example_config example_open_store in
  RateLimiter.Map_get (RateLimiter.key_of "a" example_config) store'
  = Some {| RateLimiter.Entry.count := 2; RateLimiter.Entry.resetTime := 2000 |} /\
  RateLimiter.X_RateLimit_Limit headers = "2"%string /\
  RateLimiter.X_RateLimit_Remaining headers = "0"%string /\
  exists seconds,
    RateLimiter.X_RateLimit_Reset headers = string_of_int seconds /\
    (1000 * (seconds - 1) < 2000 <= 1000 * seconds)%Z.
Proof.
  assert (Hnd : NoDup (map fst example_open_store)).
  { constructor; [intros [] | constructor]. }
  assert (H1 : (1500 <= 2000)%Z) by lia.
  exact (getRateLimitHeaders_counts 1500 1500 1500 "a" example_config example_open_store
           {| RateLimiter.Entry.count := 1; RateLimiter.Entry.resetTime := 2000 |}
           Hnd eq_refl H1 H1).
Defined.

(** X23. A settlement whose bet id is already taken commits nothing: the
    dice and the flip handler answer with a failure and leave the database
    as it was, and when everything else about the request is in order the
    failure is 500 "Internal server error". *)
Theorem duplicate_bet_id_rolled_back (db : Database) (uuid : string) :
  existsb (fun r => String.eqb (table.bet.id r) uuid) (bets db) = true ->
  (forall event : RequestEvent Dice.DiceBetRequest,
      randomUUID event = uuid ->
      exists e s, Dice.POST event db = (json_failure e s, db)) /\
  (forall event : RequestEvent Flip.CoinFlipBetRequest,
      randomUUID event = uuid ->
      exists e s, Flip.POST event db = (json_failure e s, db)) /\
  (forall (event : RequestEvent Flip.CoinFlipBetRequest) c token user req bal,
      randomUUID event = uuid ->
      sessionToken event = Some (String c token) ->
      validatedUser event = Some user ->
      body event = Some req ->
      0 < Flip.amount req -> Flip.amount req <= table.user.balance user ->
      balance_of (table.user.id user) db = Some bal -> Flip.amount req <= bal ->
      Flip.POST event db = (json_failure (Some "Internal server error"%string) 500, db)) /\
  (forall (event : RequestEvent Dice.DiceBetRequest) c token user req bal,
      randomUUID event = uuid ->
      sessionToken event = Some (String c token) ->
      validatedUser event = Some user ->
      body event = Some req ->
      ProvablyFair.valid
        (ProvablyFair.validateDiceBet (Dice.amount req) (Dice.betType req) (Dice.target req)
           (table.user.balance user)) = true ->
      balance_of (table.user.id user) db = Some bal -> Dice.amount req <= bal ->
      Dice.POST event db = (json_failure (Some "Internal server error"%string) 500, db)).
Proof.
  intros Hdup. split; [|split; [|split]].
  - intros event Hid.
    destruct (dice_POST_outcome event db) as [H | (b & r & E & Hs & _ & _ & _)]; [exact H|].
    exfalso. pose proof (settled_fresh _ _ Hs) as Hf.
    assert (Eb : table.bet.id b = uuid).
    { revert E. clear - Hid.
      destruct (sessionToken event) as [[|c token]|] eqn:Ht;
        try (unfold Dice.POST; rewrite Ht; discriminate).
      destruct (validatedUser event) as [user|] eqn:Hu;
        [|unfold Dice.POST; rewrite Ht, Hu; discriminate].
      destruct (body event) as [req|] eqn:Hb;
        [|unfold Dice.POST; rewrite Ht, Hu, Hb; discriminate].
      destruct (ProvablyFair.valid
                  (ProvablyFair.validateDiceBet (Dice.amount req) (Dice.betType req)
                     (Dice.target req) (table.user.balance user))) eqn:Hv;
        [|unfold Dice.POST; rewrite Ht, Hu, Hb, Hv; discriminate].
      rewrite (dice_POST_accepted event db c token user req Ht Hu Hb Hv), dice_settle_eq.
      destruct (balance_of _ db); [|unfold translate_error; cbn; discriminate].
      destruct (Qltb _ _); [unfold translate_error; cbn; discriminate|].
      destruct (ProvablyFair.generateDiceRoll _ _ _);
        [|unfold translate_error; cbn; discriminate].
      cbv zeta. destruct (existsb _ (bets db)); [unfold translate_error; cbn; discriminate|].
      intros E. apply success_inj in E. destruct E as [_ E].
      apply (f_equal bets) in E. unfold committed in E. cbn [bets] in E.
      apply app_inv_head in E. injection E as E. rewrite <- E, <- Hid. reflexivity. }
    rewrite Eb in Hf. congruence.
  - intros event Hid.
    destruct (flip_POST_outcome event db) as [H | (b & r & E & Hs & _ & _ & _)]; [exact H|].
    exfalso. pose proof (settled_fresh _ _ Hs) as Hf.
    assert (Eb : table.bet.id b = uuid).
    { revert E. clear - Hid.
      destruct (sessionToken event) as [[|c token]|] eqn:Ht;
        try (unfold Flip.POST; rewrite Ht; discriminate).
      destruct (validatedUser event) as [user|] eqn:Hu;
        [|unfold Flip.POST; rewrite Ht, Hu; discriminate].
      destruct (body event) as [req|] eqn:Hb;
        [|unfold Flip.POST; rewrite Ht, Hu, Hb; discriminate].
      destruct (ProvablyFair.valid
                  (ProvablyFair.validateCoinFlipBet (Flip.amount req) (Flip.side req)
                     (table.user.balance user))) eqn:Hv;
        [|unfold Flip.POST; rewrite Ht, Hu, Hb, Hv; discriminate].
      rewrite (flip_POST_accepted event db c token user req Ht Hu Hb Hv), flip_settle_eq.
      destruct (balance_of _ db); [|unfold translate_error; cbn; discriminate].
      destruct (Qltb _ _); [unfold translate_error; cbn; discriminate|].
      cbv zeta. destruct (existsb _ (bets db)); [unfold translate_error; cbn; discriminate|].
      intros E. apply success_inj in E. destruct E as [_ E].
      apply (f_equal bets) in E. unfold committed in E. cbn [bets] in E.
      apply app_inv_head in E. injection E as E. rewrite <- E, <- Hid. reflexivity. }
    rewrite Eb in Hf. congruence.
  - intros event c token user req bal Hid Ht Hu Hb Ha Hle Hbal Hle'.
    assert (Hv : ProvablyFair.valid
                   (ProvablyFair.validateCoinFlipBet (Flip.amount req) (Flip.side req)
                      (table.user.balance user)) = true)
      by (apply validateCoinFlipBet_valid; split; assumption).
    rewrite (flip_POST_accepted event db c token user req Ht Hu Hb Hv), flip_settle_eq.
    rewrite Hbal. assert (El : Qltb bal (Flip.amount req) = false)
      by (apply Qltb_ge; exact Hle').
    rewrite El. cbv zeta. rewrite Hid, Hdup. reflexivity.
  - intros event c token user req bal Hid Ht Hu Hb Hv Hbal Hle'.
    rewrite (dice_POST_accepted event db c token user req Ht Hu Hb Hv), dice_settle_eq.
    rewrite Hbal. assert (El : Qltb bal (Dice.amount req) = false)
      by (apply Qltb_ge; exact Hle').
    rewrite El.
    destruct (generateGameResult_some (hex_of_bytes (random32 event))
                (finalClientSeed_of (Dice.clientSeed req) (random16 event))
                (current_nonce (table.user.id user) db + 1)) as (k & _ & Hroll).
    unfold ProvablyFair.generateDiceRoll. rewrite Hroll.
    cbv zeta. rewrite Hid, Hdup. reflexivity.
Qed.

Lemma duplicate_bet_id_rolled_back_witness :
  Dice.POST example_dice_event example_db2
  = (json_failure (Some "Internal server error"%string) 500, example_db2).
Proof.
  refine (proj2 (proj2 (proj2 (duplicate_bet_id_rolled_back example_db2 "bet-1" _)))
            example_dice_event "t"%char "oken"%string example_user _ _
            eq_refl eq_refl eq_refl eq_refl _ _ _).
  - vm_compute. reflexivity.
  - vm_compute. reflexivity.
  - vm_compute. reflexivity.
  - vm_compute. discriminate.
Defined.
